(** * The RFC assistant's text core (src/main.py), embedded and verified

    The module under study is a Streamlit front end around a handful of
    pure text transformers.  This development embeds those transformers:

    - the metadata codec, [extract_metadata_from_markdown] and
      [update_metadata_in_markdown], both driven by Python's [re];
    - [extract_mermaid_code], also a regular-expression search;
    - [extract_text_from_file] and its UTF-8 decoding;
    - [extract_images_from_file] and the two format readers it calls;
    - [extract_mermaid_from_mermaid_url];
    - [extract_external_diagram_links], [download_image] and
      [process_document_for_diagrams], which put the former together;
    - [bedrock_agent_ask] with its two callers, [mermaid_from_image] and
      [markdown_from_ai];
    - the text that [manager_comment_ui] offers for download.

    Python strings are sequences of code points, bytes objects are
    sequences of octets; both are lists of [N] here.  Dictionaries with
    string keys are [gmap string _].  A call that may raise returns a
    value in [option] or in a sum. *)

From stdpp Require Import gmap strings list.
From Stdlib Require Import NArith Ascii.

Local Open Scope N_scope.

(** ** Text *)

Abbreviation text := (list N).

(** A literal of the source, read as code points. *)
Definition py (s : string) : text :=
  map N_of_ascii (String.list_ascii_of_string s).

Definition LF : N := 10.
Definition CR : N := 13.
Definition SP : N := 32.
Definition BSL : N := 92.

(** [Py_UNICODE_ISSPACE]: what [str.strip()] removes and what [\s]
    matches in a [str] pattern. *)
Definition is_space (c : N) : bool :=
  ((9 <=? c) && (c <=? 13)) || ((28 <=? c) && (c <=? 32))
  || (c =? 133) || (c =? 160) || (c =? 5760)
  || ((8192 <=? c) && (c <=? 8202))
  || (c =? 8232) || (c =? 8233) || (c =? 8239) || (c =? 8287)
  || (c =? 12288).

Fixpoint lstrip (s : text) : text :=
  match s with
  | c :: s' => if is_space c then lstrip s' else s
  | [] => []
  end.

Definition rstrip (s : text) : text := rev (lstrip (rev s)).

(** [str.strip()] with no argument. *)
Definition strip (s : text) : text := rstrip (lstrip s).

(** ** Regular expressions, as [re] compiles the patterns of the source

    Only the constructs that occur in the patterns of main.py are
    represented.  Every repetition there ranges over a one-character
    item, which is what [sre] compiles to its [REPEAT_ONE] family.  A
    pattern is closed by [Eps], the [SUCCESS] opcode. *)

Inductive cls : Type :=
| CAny                      (* [.] under DOTALL *)
| CSpace                    (* [\s] *)
| CSet (l : list N).        (* [[...]] *)

Definition cls_ok (a : cls) (c : N) : bool :=
  match a with
  | CAny => true
  | CSpace => is_space c
  | CSet l => existsb (N.eqb c) l
  end.

Inductive regex : Type :=
| Eps
| Lit (l : text)                                (* a run of literals *)
| LitI (lower : N → N) (l : list (list N))      (* literals under IGNORECASE *)
| Star (greedy : bool) (a : cls)                (* [a*] and [a*?] *)
| Plus (a : cls)                                (* [a+] *)
| Seq (r1 r2 : regex)
| Alt (r1 r2 : regex)
| Grp (n : nat) (r : regex)                     (* capturing group n *)
| Eos.                                          (* [$] without MULTILINE *)

Abbreviation caps := (gmap nat text).

Fixpoint strip_prefix (l s : text) : option text :=
  match l, s with
  | [], _ => Some s
  | x :: l', y :: s' => if x =? y then strip_prefix l' s' else None
  | _ :: _, [] => None
  end.

(** One literal under IGNORECASE: the subject character is lowered and
    looked up among the lowered spellings of the pattern character. *)
Fixpoint strip_prefix_i (lower : N → N) (l : list (list N)) (s : text)
  : option text :=
  match l, s with
  | [], _ => Some s
  | x :: l', y :: s' =>
      if existsb (N.eqb (lower y)) x then strip_prefix_i lower l' s' else None
  | _ :: _, [] => None
  end.

Definition at_end (s : text) : bool :=
  match s with
  | [] => true
  | [c] => c =? LF
  | _ => false
  end.

Section Matcher.
Context {A : Type}.

(** Lazy repetition: the continuation is tried first, one more
    character is taken only when it fails. *)
Fixpoint star_lazy (a : cls) (k : text → option A) (s : text) : option A :=
  match k s with
  | Some x => Some x
  | None =>
      match s with
      | c :: s' => if cls_ok a c then star_lazy a k s' else None
      | [] => None
      end
  end.

(** Greedy repetition: as many characters as possible, giving them
    back one at a time while the continuation fails. *)
Fixpoint star_greedy (a : cls) (k : text → option A) (s : text) : option A :=
  match s with
  | c :: s' =>
      if cls_ok a c then
        match star_greedy a k s' with
        | Some x => Some x
        | None => k s
        end
      else k s
  | [] => k []
  end.

(** The backtracking matcher in continuation-passing style: [k] is the
    rest of the pattern, the first success in priority order wins. *)
Fixpoint rmatch (r : regex) (k : text → caps → option A)
    (s : text) (c : caps) : option A :=
  match r with
  | Eps => k s c
  | Lit l =>
      match strip_prefix l s with
      | Some s' => k s' c
      | None => None
      end
  | LitI lower l =>
      match strip_prefix_i lower l s with
      | Some s' => k s' c
      | None => None
      end
  | Star true a => star_greedy a (λ s', k s' c) s
  | Star false a => star_lazy a (λ s', k s' c) s
  | Plus a =>
      match s with
      | x :: s' => if cls_ok a x then star_greedy a (λ s'', k s'' c) s' else None
      | [] => None
      end
  | Seq r1 r2 => rmatch r1 (rmatch r2 k) s c
  | Alt r1 r2 =>
      match rmatch r1 k s c with
      | Some x => Some x
      | None => rmatch r2 k s c
      end
  | Grp n r =>
      rmatch r (λ s' c', k s' (<[n := take (length s - length s') s]> c')) s c
  | Eos => if at_end s then k s c else None
  end.
End Matcher.

(** A match object: the text before the match, the groups (group 0 is
    the whole match), the text after the match. *)
Record found : Type := Found { f_pre : text; f_caps : caps; f_rest : text }.

(** The end of the pattern.  [must_advance] is the flag of that name in
    [_sre]: an empty match at the starting position is refused. *)
Definition accept (must_advance : bool) (s0 : text)
    (s : text) (c : caps) : option (caps * text) :=
  if must_advance && (length s =? length s0)%nat then None
  else Some (<[0%nat := take (length s0 - length s) s0]> c, s).

Definition match_here (r : regex) (adv : bool) (s : text) : option (caps * text) :=
  rmatch r (accept adv s) s ∅.

Definition shift (x : N) (o : option found) : option found :=
  match o with
  | Some f => Some (Found (x :: f_pre f) (f_caps f) (f_rest f))
  | None => None
  end.

(** [re.search] on a suffix: the leftmost position where the pattern
    matches.  Only the first attempt is subject to [must_advance]. *)
Fixpoint search_adv (r : regex) (adv : bool) (s : text) : option found :=
  match match_here r adv s with
  | Some (c, s') => Some (Found [] c s')
  | None =>
      match s with
      | x :: s' => shift x (search_adv r false s')
      | [] => None
      end
  end.

Definition search (r : regex) (s : text) : option found := search_adv r false s.

(** [m.group(n)]; every group of the patterns below takes part in every
    match, so the value is never Python's [None]. *)
Definition group (c : caps) (n : nat) : text := default [] (c !! n).

(** ** Replacement templates ([re.sub] with a string [repl]) *)

Inductive titem : Type :=
| TLit (l : text)
| TGrp (n : nat).

Definition is_digit (c : N) : bool := (48 <=? c) && (c <=? 57).
Definition is_octdigit (c : N) : bool := (48 <=? c) && (c <=? 55).
Definition is_ascii_letter (c : N) : bool :=
  ((65 <=? c) && (c <=? 90)) || ((97 <=? c) && (c <=? 122)).
Definition digit_val (c : N) : nat := N.to_nat (c - 48).

(** The table [ESCAPES] of the template parser. *)
Definition escape_of (c : N) : option N :=
  if c =? 97 then Some 7            (* \a *)
  else if c =? 98 then Some 8       (* \b *)
  else if c =? 102 then Some 12     (* \f *)
  else if c =? 110 then Some 10     (* \n *)
  else if c =? 114 then Some 13     (* \r *)
  else if c =? 116 then Some 9      (* \t *)
  else if c =? 118 then Some 11     (* \v *)
  else if c =? 92 then Some 92      (* \\ *)
  else None.

Definition item (i : titem) (o : option (list titem)) : option (list titem) :=
  match o with
  | Some l => Some (i :: l)
  | None => None
  end.

Definition group_ref (groups n : nat) (o : option (list titem))
  : option (list titem) :=
  if (n <=? groups)%nat then item (TGrp n) o else None.

(** [parse_template]: [None] stands for the [re.error] (or [IndexError])
    the parser raises.  The pattern has no named group, so [\g<name>] is
    accepted for decimal names only. *)
Fixpoint parse_template (groups : nat) (s : text) {struct s}
  : option (list titem) :=
  match s with
  | [] => Some []
  | c :: s1 =>
      if negb (c =? BSL) then item (TLit [c]) (parse_template groups s1)
      else
        match s1 with
        | [] => None
        | e :: s2 =>
            if e =? 103 then
              match s2 with
              | x :: s3 => if x =? 60 then group_name groups s3 None else None
              | [] => None
              end
            else if e =? 48 then
              match s2 with
              | d1 :: s3 =>
                  if is_octdigit d1 then
                    match s3 with
                    | d2 :: s4 =>
                        if is_octdigit d2 then
                          item (TLit [(8 * (d1 - 48) + (d2 - 48)) mod 256])
                               (parse_template groups s4)
                        else item (TLit [d1 - 48]) (parse_template groups s3)
                    | [] => item (TLit [d1 - 48]) (parse_template groups s3)
                    end
                  else item (TLit [0]) (parse_template groups s2)
              | [] => item (TLit [0]) (parse_template groups s2)
              end
            else if is_digit e then
              match s2 with
              | d1 :: s3 =>
                  if is_digit d1 then
                    match s3 with
                    | d2 :: s4 =>
                        if is_octdigit e && is_octdigit d1 && is_octdigit d2 then
                          let v := 64 * (e - 48) + 8 * (d1 - 48) + (d2 - 48) in
                          if 255 <? v then None
                          else item (TLit [v]) (parse_template groups s4)
                        else
                          group_ref groups (10 * digit_val e + digit_val d1)
                                    (parse_template groups s3)
                    | [] =>
                        group_ref groups (10 * digit_val e + digit_val d1)
                                  (parse_template groups s3)
                    end
                  else group_ref groups (digit_val e) (parse_template groups s2)
              | [] => group_ref groups (digit_val e) (parse_template groups s2)
              end
            else
              match escape_of e with
              | Some x => item (TLit [x]) (parse_template groups s2)
              | None =>
                  if is_ascii_letter e then None
                  else item (TLit [BSL; e]) (parse_template groups s2)
              end
        end
  end
with group_name (groups : nat) (s : text) (acc : option nat) {struct s}
  : option (list titem) :=
  match s with
  | [] => None
  | c :: s1 =>
      if c =? 62 then
        match acc with
        | Some n => group_ref groups n (parse_template groups s1)
        | None => None
        end
      else if is_digit c then
        group_name groups s1 (Some (10 * default 0%nat acc + digit_val c)%nat)
      else None
  end.

(** [match.expand]: literals as they are, group references replaced by
    the group's text. *)
Definition expand (tpl : list titem) (c : caps) : text :=
  flat_map (λ i, match i with TLit l => l | TGrp n => group c n end) tpl.

Definition is_nil (s : text) : bool := match s with [] => true | _ => false end.

(** The loop of [pattern_subx]: every non-overlapping match, left to
    right, is replaced; the text between matches is copied. *)
Fixpoint sub_loop (fuel : nat) (r : regex) (tpl : list titem)
    (adv : bool) (s : text) : text :=
  match fuel with
  | O => s
  | S fuel' =>
      match search_adv r adv s with
      | None => s
      | Some f =>
          f_pre f ++ expand tpl (f_caps f)
            ++ sub_loop fuel' r tpl (is_nil (group (f_caps f) 0)) (f_rest f)
      end
  end.

Fixpoint groups (r : regex) : nat :=
  match r with
  | Seq r1 r2 | Alt r1 r2 => (groups r1 + groups r2)%nat
  | Grp _ r' => S (groups r')
  | _ => O
  end.

(** [re.sub(pattern, repl, string)]: the template is compiled first, so a
    bad template raises whether or not the pattern matches. *)
Definition re_sub (r : regex) (repl s : text) : option text :=
  match parse_template (groups r) repl with
  | Some tpl => Some (sub_loop (2 * length s + 2) r tpl false s)
  | None => None
  end.

(** ** The metadata codec *)

Declare Scope regex_scope.
Delimit Scope regex_scope with re.
Infix "⋯" := Seq (at level 60, right associativity) : regex_scope.

Definition NL : cls := CSet [CR; LF].

(** r"\*\*Author:\*\* (.*?)\s*[\r\n]+.*?\*\*Date:\*\* (.*?)\s*[\r\n]+.*?\*\*Status:\*\* (.*?)\s*[\r\n]+.*?\*\*Reviewers:\*\* (.*?)\s*[\r\n]+.*?\*\*Topic:\*\* (.*?)\s*[\r\n]+" *)
Definition metadata_regex : regex :=
  (Lit (py "**Author:** ") ⋯ Grp 1 (Star false CAny) ⋯
   Star true CSpace ⋯ Plus NL ⋯ Star false CAny ⋯
   Lit (py "**Date:** ") ⋯ Grp 2 (Star false CAny) ⋯
   Star true CSpace ⋯ Plus NL ⋯ Star false CAny ⋯
   Lit (py "**Status:** ") ⋯ Grp 3 (Star false CAny) ⋯
   Star true CSpace ⋯ Plus NL ⋯ Star false CAny ⋯
   Lit (py "**Reviewers:** ") ⋯ Grp 4 (Star false CAny) ⋯
   Star true CSpace ⋯ Plus NL ⋯ Star false CAny ⋯
   Lit (py "**Topic:** ") ⋯ Grp 5 (Star false CAny) ⋯
   Star true CSpace ⋯ Plus NL ⋯ Eps)%re.

Definition extract_metadata_from_markdown (md_text : text) : gmap string text :=
  match search metadata_regex md_text with
  | Some m =>
      <["author" := strip (group (f_caps m) 1)]>
      (<["date" := strip (group (f_caps m) 2)]>
      (<["status" := strip (group (f_caps m) 3)]>
      (<["reviewers" := strip (group (f_caps m) 4)]>
      (<["topic" := strip (group (f_caps m) 5)]> ∅))))
  | None => ∅
  end.

(** The second pattern of the source has nineteen groups: for each
    label a group for the label and the blanks after it, one for the
    value, one for the end of the line, and between two fields one for
    the text in between:
    r"(\*\*Author:\*\*\s* )(.*? )(\s*[\r\n]+ )(.*? )(\*\*Date:\*\*\s* ) ..."
    (shown with a blank before each closing parenthesis). *)
Definition update_regex : regex :=
  (Grp 1 (Lit (py "**Author:**") ⋯ Star true CSpace) ⋯
   Grp 2 (Star false CAny) ⋯
   Grp 3 (Star true CSpace ⋯ Plus NL) ⋯
   Grp 4 (Star false CAny) ⋯
   Grp 5 (Lit (py "**Date:**") ⋯ Star true CSpace) ⋯
   Grp 6 (Star false CAny) ⋯
   Grp 7 (Star true CSpace ⋯ Plus NL) ⋯
   Grp 8 (Star false CAny) ⋯
   Grp 9 (Lit (py "**Status:**") ⋯ Star true CSpace) ⋯
   Grp 10 (Star false CAny) ⋯
   Grp 11 (Star true CSpace ⋯ Plus NL) ⋯
   Grp 12 (Star false CAny) ⋯
   Grp 13 (Lit (py "**Reviewers:**") ⋯ Star true CSpace) ⋯
   Grp 14 (Star false CAny) ⋯
   Grp 15 (Star true CSpace ⋯ Plus NL) ⋯
   Grp 16 (Star false CAny) ⋯
   Grp 17 (Lit (py "**Topic:**") ⋯ Star true CSpace) ⋯
   Grp 18 (Star false CAny) ⋯
   Grp 19 (Star true CSpace ⋯ Plus NL) ⋯ Eps)%re.

(** [new_metadata.get(key, "")] *)
Definition get (new_metadata : gmap string text) (key : string) : text :=
  default [] (new_metadata !! key).

(** The replacement string after [.format(...)]: the five values are
    pasted between the group references as they are. *)
Definition repl (new_metadata : gmap string text) : text :=
  py "\g<1>" ++ get new_metadata "author" ++ py "\g<3>\g<4>\g<5>"
  ++ get new_metadata "date" ++ py "\g<7>\g<8>\g<9>"
  ++ get new_metadata "status" ++ py "\g<11>\g<12>\g<13>"
  ++ get new_metadata "reviewers" ++ py "\g<15>\g<16>\g<17>"
  ++ get new_metadata "topic" ++ py "\g<19>".

Definition update_metadata_in_markdown (md_text : text)
    (new_metadata : gmap string text) : option text :=
  re_sub update_regex (repl new_metadata) md_text.

(** ** The diagram code in a reply of the model *)

Section Mermaid.
(** [_sre.unicode_tolower], the simple lower-case mapping of the
    Unicode database; it is not part of the source. *)
Variable unicode_tolower : N → N.

Definition fence : text := py "```".

(** The letters of "mermaid" as IGNORECASE compiles them: a cased
    letter is compared after lowering the subject character, and [i]
    also stands for the dotless [i] (code point 305). *)
Definition mermaid_letters : list (list N) :=
  [[109]; [101]; [114]; [109]; [97]; [105; 305]; [100]].

(** r"```mermaid(.*?)(```|$)" with re.DOTALL | re.IGNORECASE *)
Definition mermaid_regex : regex :=
  (Lit fence ⋯ LitI unicode_tolower mermaid_letters ⋯
   Grp 1 (Star false CAny) ⋯ Grp 2 (Alt (Lit fence) Eos) ⋯ Eps)%re.

Definition extract_mermaid_code (response : text) : text :=
  match search mermaid_regex response with
  | Some m => strip (group (f_caps m) 1)
  | None => strip response
  end.
End Mermaid.

(** Lower case for the letters A to Z, everything else unchanged: what
    [unicode_tolower] does on ASCII. *)
Definition ascii_tolower (c : N) : N :=
  if (65 <=? c) && (c <=? 90) then c + 32 else c.

(** The reply of the scenario in the specification. *)
Definition sample_reply : text :=
  py "blah ```mermaid" ++ [LF] ++ py "A-->B" ++ [LF] ++ py "``` blah".

(** ** Reading uploaded files *)

(** *** [bytes.decode("utf-8", errors=...)]

    The decoder of CPython, byte by byte.  An invalid sequence is
    handed to the error handler: [Strict] raises, [Ignore] drops the
    bytes of the sequence, [Replace] puts U+FFFD in their place. *)
Inductive errors : Type := Strict | Ignore | Replace.

Definition is_cont (b : N) : bool := (128 <=? b) && (b <? 192).

Definition on_error (e : errors) (k : option text) : option text :=
  match e with
  | Strict => None
  | Ignore => k
  | Replace => cons 65533 <$> k
  end.

Fixpoint utf8_decode (e : errors) (b : list N) {struct b} : option text :=
  match b with
  | [] => Some []
  | ch :: s1 =>
      if ch <? 128 then cons ch <$> utf8_decode e s1
      else if ch <? 194 then on_error e (utf8_decode e s1)
      else if ch <? 224 then
        match s1 with
        | [] => on_error e (Some [])
        | ch2 :: s2 =>
            if is_cont ch2 then
              cons (N.shiftl ch 6 + ch2 - 12416) <$> utf8_decode e s2
            else on_error e (utf8_decode e s1)
        end
      else if ch <? 240 then
        match s1 with
        | [] => on_error e (Some [])
        | ch2 :: s2 =>
            if negb (is_cont ch2)
               || (if ch2 <? 160 then ch =? 224 else ch =? 237)
            then on_error e (utf8_decode e s1)
            else
              match s2 with
              | [] => on_error e (Some [])
              | ch3 :: s3 =>
                  if is_cont ch3 then
                    cons (N.shiftl ch 12 + N.shiftl ch2 6 + ch3 - 925824)
                      <$> utf8_decode e s3
                  else on_error e (utf8_decode e s2)
              end
        end
      else if ch <? 245 then
        match s1 with
        | [] => on_error e (Some [])
        | ch2 :: s2 =>
            if negb (is_cont ch2)
               || (if ch2 <? 144 then ch =? 240 else ch =? 244)
            then on_error e (utf8_decode e s1)
            else
              match s2 with
              | [] => on_error e (Some [])
              | ch3 :: s3 =>
                  if negb (is_cont ch3) then on_error e (utf8_decode e s2)
                  else
                    match s3 with
                    | [] => on_error e (Some [])
                    | ch4 :: s4 =>
                        if is_cont ch4 then
                          cons (N.shiftl ch 18 + N.shiftl ch2 12
                                + N.shiftl ch3 6 + ch4 - 63447168)
                            <$> utf8_decode e s4
                        else on_error e (utf8_decode e s3)
                    end
              end
        end
      else on_error e (utf8_decode e s1)
  end.

(** [sep.join(parts)] *)
Fixpoint join (sep : text) (parts : list text) : text :=
  match parts with
  | [] => []
  | [p] => p
  | p :: ps => p ++ sep ++ join sep ps
  end.

(** [s.split(sep)] for a one-character separator: never empty. *)
Fixpoint split_on (sep : N) (s : text) : list text :=
  match s with
  | [] => [[]]
  | c :: s' =>
      if c =? sep then [] :: split_on sep s'
      else
        match split_on sep s' with
        | h :: t => (c :: h) :: t
        | [] => [[c]]
        end
  end.

Section Files.
(** What the module gets from outside: [str.lower], whether the
    optional imports succeeded, and the document readers.  A reader
    returns [None] where the library raises. *)
Variable str_lower : text → text.
Variables has_docx has_pypdf2 has_fitz : bool.
Variable docx_paragraphs : list N → option (list text).
Variable pdf_page_texts : list N → option (list text).
Variable docx_images : list N → option (list (list N)).
Variable pdf_images : list N → option (list (list N)).

(** [file_name.lower().split(".")[-1]] *)
Definition extension (file_name : text) : text :=
  default [] (last (split_on 46 (str_lower file_name))).

(** [None] stands for an exception that leaves the function. *)
Definition extract_images_from_docx (file_bytes : list N)
  : option (list (list N)) :=
  if negb has_docx then Some [] else docx_images file_bytes.

Definition extract_images_from_pdf (file_bytes : list N)
  : option (list (list N)) :=
  if negb has_pypdf2 then Some []
  else if negb has_fitz then Some []
  else pdf_images file_bytes.

Definition extract_text_from_file (file_bytes : list N) (file_name : text)
  : option text :=
  let ext := extension file_name in
  if bool_decide (ext ∈ [py "md"; py "txt"]) then utf8_decode Ignore file_bytes
  else if bool_decide (ext = py "docx") && has_docx then
    match docx_paragraphs file_bytes with
    | Some paragraphs => Some (join [LF] paragraphs)
    | None => Some (py "[Could not extract text from DOCX]")
    end
  else if bool_decide (ext = py "pdf") && has_pypdf2 then
    match pdf_page_texts file_bytes with
    | Some pages => Some (join [LF] (filter (λ t, t ≠ []) pages))
    | None => Some (py "[Could not extract text from PDF]")
    end
  else
    match utf8_decode Ignore file_bytes with
    | Some t => Some t
    | None => Some (py "[Unsupported file type or unreadable content]")
    end.

Definition extract_images_from_file (file_bytes : list N) (file_name : text)
  : option (list (list N)) :=
  let ext := extension file_name in
  if bool_decide (ext = py "docx") then extract_images_from_docx file_bytes
  else if bool_decide (ext = py "pdf") then extract_images_from_pdf file_bytes
  else if bool_decide (ext ∈ [py "png"; py "jpg"; py "jpeg"]) then Some [file_bytes]
  else Some [].
End Files.

(** [str.lower] on ASCII names. *)
Definition ascii_lower (s : text) : text := map ascii_tolower s.

(** A reader that fails on every input, as the libraries do on a file
    that is not in their format. *)
Definition reader_fails {X : Type} (b : list N) : option X := None.

(** ** Diagram code in a mermaid.live URL *)

(** The two components of [urllib.parse.urlparse]'s result that the
    source reads. *)
Record url_parts : Type := UrlParts { fragment : text; query : text }.

Section Url.
(** The three functions of [urllib.parse] the source calls; [None]
    where they raise. *)
Variable urlparse : text → option url_parts.
Variable parse_qs : text → option (gmap text (list text)).
Variable unquote : text → option text.

(** The body of the [try] block. *)
Definition mermaid_url_code (mermaid_url : text) : option text :=
  u ← urlparse mermaid_url;
  if bool_decide (fragment u ≠ []) then unquote (fragment u)
  else
    qs ← parse_qs (query u);
    match default [[]] (qs !! py "graph") with
    | text :: _ => unquote text
    | [] => None
    end.

Definition extract_mermaid_from_mermaid_url (mermaid_url : text) : text :=
  match mermaid_url_code mermaid_url with
  | Some code => code
  | None => py "[Could not extract mermaid code from URL]"
  end.
End Url.

(** *** [urllib.parse] on plain URLs

    Models of the three library functions, after CPython's source, for
    URLs as the link harvester yields them (no blanks, no control
    characters); the checks by which [urlparse] raises [ValueError]
    (brackets in the host, NFKC) are left out.  They serve the examples
    only: the theorems hold for any three functions. *)

Fixpoint split_first (sep : N) (s : text) : text * option text :=
  match s with
  | [] => ([], None)
  | c :: s' =>
      if c =? sep then ([], Some s')
      else let '(a, b) := split_first sep s' in (c :: a, b)
  end.

Definition py_urlparse (url : text) : option url_parts :=
  let '(before, frag) := split_first 35 url in
  let '(_, q) := split_first 63 before in
  Some (UrlParts (default [] frag) (default [] q)).

Definition hex_val (c : N) : option N :=
  if (48 <=? c) && (c <=? 57) then Some (c - 48)
  else if (65 <=? c) && (c <=? 70) then Some (c - 55)
  else if (97 <=? c) && (c <=? 102) then Some (c - 87)
  else None.

Definition flush (acc : list N) : text := default [] (utf8_decode Replace acc).

(** [unquote]: percent escapes inside a run of ASCII characters become
    bytes, the bytes of the run are decoded with [errors="replace"]. *)
Fixpoint unquote_run (s : text) (acc : list N) : text :=
  match s with
  | [] => flush acc
  | c :: s' =>
      if c =? 37 then
        match s' with
        | h1 :: h2 :: rest =>
            match hex_val h1, hex_val h2 with
            | Some a, Some b => unquote_run rest (acc ++ [16 * a + b])
            | _, _ => unquote_run s' (acc ++ [37])
            end
        | _ => unquote_run s' (acc ++ [37])
        end
      else if c <? 128 then unquote_run s' (acc ++ [c])
      else flush acc ++ c :: unquote_run s' []
  end.

Definition py_unquote (s : text) : option text :=
  if bool_decide (37 ∈ s) then Some (unquote_run s []) else Some s.

Definition plus_to_space (s : text) : text :=
  map (λ c, if c =? 43 then 32 else c) s.

(** [parse_qs] with its defaults: fields are separated by [&], a field
    without [=] or with an empty value is skipped. *)
Definition py_parse_qs (qs : text) : option (gmap text (list text)) :=
  Some (foldl
          (λ m field,
             match split_first 61 field with
             | (name, Some value) =>
                 if bool_decide (value = []) then m
                 else
                   let name' := default [] (py_unquote (plus_to_space name)) in
                   let value' := default [] (py_unquote (plus_to_space value)) in
                   <[name' := default [] (m !! name') ++ [value']]> m
             | (_, None) => m
             end)
          ∅ (split_on 38 qs)).

(** ** Diagrams found in a document *)

(** [re.findall] for a pattern with one group: the text of group 1 of
    every match, left to right, no two matches overlapping.  The loop
    is the one of [re.sub]. *)
Fixpoint findall_loop (fuel : nat) (r : regex) (adv : bool) (s : text)
  : list text :=
  match fuel with
  | O => []
  | S fuel' =>
      match search_adv r adv s with
      | None => []
      | Some f =>
          group (f_caps f) 1
            :: findall_loop fuel' r (is_nil (group (f_caps f) 0)) (f_rest f)
      end
  end.

Definition findall (r : regex) (s : text) : list text :=
  findall_loop (2 * length s + 2) r false s.

(** r'```mermaid\n(.*?)\n```' with re.DOTALL *)
Definition block_regex : regex :=
  (Lit (fence ++ py "mermaid" ++ [LF]) ⋯ Grp 1 (Star false CAny) ⋯
   Lit (LF :: fence) ⋯ Eps)%re.

Section Diagrams.
(** The readers of the file functions and the library calls of the URL
    function, as before. *)
Variable str_lower : text → text.
Variables has_docx has_pypdf2 has_fitz : bool.
Variable docx_paragraphs : list N → option (list text).
Variable pdf_page_texts : list N → option (list text).
Variable docx_images : list N → option (list (list N)).
Variable pdf_images : list N → option (list (list N)).
Variable urlparse : text → option url_parts.
Variable parse_qs : text → option (gmap text (list text)).
Variable unquote : text → option text.

(** The three link patterns of [extract_external_diagram_links] use a
    negated class, which [regex] does not represent; what [re.findall]
    returns for them is left open. *)
Variables image_urls_of drawio_urls_of mermaid_urls_of : text → list text.

(** [requests.get(url)]: [resp.ok] and [resp.content], or [None] where
    the call raises. *)
Variable requests_get : text → option (bool * list N).

Definition extract_external_diagram_links (txt : text)
  : list text * list text * list text * list text :=
  (image_urls_of txt, drawio_urls_of txt, mermaid_urls_of txt,
   findall block_regex txt).

(** Here [None] is Python's [None], not an exception. *)
Definition download_image (url : text) : option (list N) :=
  match requests_get url with
  | Some (true, content) => Some content
  | _ => None
  end.

Definition extract_mermaid_from_drawio (drawio_url : text) : text :=
  py "[draw.io to mermaid conversion not implemented]".

(** [if img_bytes:] keeps a download that is neither [None] nor empty. *)
Definition downloaded (url : text) : option (list N) :=
  match download_image url with
  | Some img_bytes => if is_nil img_bytes then None else Some img_bytes
  | None => None
  end.

(** [None] stands for an exception that leaves the function; the
    argument [file_text] is [None] where the caller leaves it out. *)
Definition process_document_for_diagrams (file_bytes : list N)
    (file_name : text) (file_text : option text)
  : option (list (list N) * list text) :=
  images ← extract_images_from_file str_lower has_docx has_pypdf2 has_fitz
              docx_images pdf_images file_bytes file_name;
  file_text ← match file_text with
               | Some t => Some t
               | None =>
                   extract_text_from_file str_lower has_docx has_pypdf2
                     docx_paragraphs pdf_page_texts file_bytes file_name
               end;
  let '(image_urls, drawio_urls, mermaid_urls, mermaid_blocks) :=
    extract_external_diagram_links file_text in
  Some (images ++ omap downloaded image_urls,
        map extract_mermaid_from_drawio drawio_urls
        ++ map (extract_mermaid_from_mermaid_url urlparse parse_qs unquote)
             mermaid_urls
        ++ map strip mermaid_blocks).
End Diagrams.

(** ** Asking the agent *)

(** The five entries of the session state that reach the agent. *)
Record session : Type := Session {
  bedrock_agent_id : text;
  bedrock_alias_id : text;
  bedrock_region : text;
  aws_access_key : text;
  aws_secret_key : text
}.

(** [lines [l1; l2; ...]]: the lines of a literal, each closed by a line
    feed. *)
Definition lines (l : list string) : text := flat_map (λ s, py s ++ [LF]) l.

(** [str(n)] for a natural number. *)
Fixpoint decimal_go (fuel : nat) (n : N) (acc : text) : text :=
  match fuel with
  | O => acc
  | S fuel' =>
      let acc' := (48 + n mod 10) :: acc in
      if n <? 10 then acc' else decimal_go fuel' (n / 10) acc'
  end.

Definition decimal (n : nat) : text := decimal_go (S n) (N.of_nat n) [].

(** [metadata.get(key) or default]: a missing key and an empty value
    both give the default. *)
Definition get_or (metadata : gmap string text) (key : string) (dflt : text)
  : text :=
  match metadata !! key with
  | Some v => if is_nil v then dflt else v
  | None => dflt
  end.

Section Agent.
(** [_sre.unicode_tolower], as for [extract_mermaid_code]. *)
Variable unicode_tolower : N → N.

(** The agent runtime, in the order of [bedrock_agent_ask]'s arguments:
    the events of the completion stream that arrive, each with the bytes
    of its chunk when it has one, and the message of the exception that
    ends the attempt, if the client, the call or the stream raises. *)
Variable invoke_agent :
  text → text → text → text → text → text → list (option (list N)) * option text.

(** [str(e)] for the [UnicodeDecodeError] of a chunk. *)
Variable decode_error : list N → text.

(** [datetime.now().strftime("%Y-%m-%d")] and
    [textwrap.shorten(doc_text, width=5000, placeholder='...')] *)
Variable today : text.
Variable shorten : text → text.

(** The loop over the events: [inl] holds the chunk whose decoding
    raises, [inr] the text put together. *)
Fixpoint completion (events : list (option (list N))) (output : text)
  : list N + text :=
  match events with
  | [] => inr output
  | Some b :: events' =>
      match utf8_decode Strict b with
      | Some s => completion events' (output ++ s)
      | None => inl b
      end
  | None :: events' => completion events' output
  end.

Definition agent_error (e : text) : text :=
  py "[Bedrock Agent Error: " ++ e ++ py "]".

Definition bedrock_agent_ask (agent_id alias_id region access_key secret_key
    user_message : text) : text :=
  let '(events, raised) :=
    invoke_agent agent_id alias_id region access_key secret_key user_message in
  match completion events [] with
  | inl b => agent_error (decode_error b)
  | inr output =>
      match raised with
      | Some e => agent_error e
      | None => strip output
      end
  end.

(** The call of [bedrock_agent_ask] as both callers write it, with the
    five entries of the session state. *)
Definition ask (session_state : session) (prompt : text) : text :=
  bedrock_agent_ask (bedrock_agent_id session_state)
    (bedrock_alias_id session_state) (bedrock_region session_state)
    (aws_access_key session_state) (aws_secret_key session_state) prompt.

Definition mermaid_prompt (description diagram_type : text) : text :=
  py "Given the following diagram description, generate a detailed Mermaid diagram using type '"
  ++ diagram_type ++ py "'. "
  ++ lines ["Return ONLY the Mermaid code block (inside ```mermaid ... ```), and NOTHING else.";
           "Diagram description:"]
  ++ description ++ [LF].

Definition mermaid_from_image (description : text) (session_state : session)
    (diagram_type : text) : text :=
  if is_nil (strip description) then py "[No OCR or image description available]"
  else
    extract_mermaid_code unicode_tolower
      (ask session_state (mermaid_prompt description diagram_type)).

Definition toc : text :=
  lines ["1. [Abstract](#1-abstract)";
         "2. [Status of This Memo](#2-status-of-this-memo)";
         "3. [Introduction](#3-introduction)";
         "4. [Motivation](#4-motivation)";
         "5. [Proposal](#5-proposal)";
         "6. [Architecture](#6-architecture)";
         "7. [Diagrams](#7-diagrams)";
         "8. [Alternatives](#8-alternatives)";
         "9. [Risks](#9-risks)";
         "10. [Implementation Plan](#10-implementation-plan)";
         "11. [Security Considerations](#11-security-considerations)";
         "12. [References](#12-references)";
         "13. [Acknowledgements](#13-acknowledgements)"].

(** One round of the loop over [enumerate(image_mermaids)]. *)
Definition diagram (idx : nat) (mermaid : text) : text :=
  [LF] ++ py "#### Diagram " ++ decimal (idx + 1) ++ [LF]
  ++ fence ++ py "mermaid" ++ [LF] ++ mermaid ++ [LF] ++ fence ++ [LF].

Fixpoint diagrams_from (idx : nat) (image_mermaids : list text) : text :=
  match image_mermaids with
  | [] => []
  | mermaid :: rest => diagram idx mermaid ++ diagrams_from (S idx) rest
  end.

Definition diagrams (image_mermaids : list text) : text :=
  diagrams_from 0 image_mermaids.

(** The f-string of [markdown_from_ai] in three parts: the text up to
    the title, the header with the five values as they stand after the
    defaults, and the sections after the header. *)
Definition prompt_head : text :=
  [LF]
  ++ lines ["You are an RFC Markdown generator.";
           "Given the extracted document text below, output a complete RFC document in markdown format ONLY.";
           "The document MUST use this structure:"]
  ++ [LF] ++ py "# RFC: ".

Definition prompt_sections (doc_text : text) (image_mermaids : list text)
  : text :=
  lines ["---"] ++ [LF] ++ lines ["## Table of Contents"] ++ [LF] ++ toc
  ++ [LF; LF] ++ lines ["---"] ++ [LF] ++ lines ["## 1. Abstract"] ++ [LF]
  ++ lines ["---"] ++ [LF] ++ lines ["## 2. Status of This Memo"] ++ [LF]
  ++ lines ["---"] ++ [LF] ++ lines ["## 3. Introduction"] ++ [LF]
  ++ lines ["---"] ++ [LF] ++ lines ["## 4. Motivation"] ++ [LF]
  ++ lines ["---"] ++ [LF] ++ lines ["## 5. Proposal"] ++ [LF]
  ++ lines ["---"] ++ [LF] ++ lines ["## 6. Architecture"] ++ [LF]
  ++ lines ["---"] ++ [LF] ++ lines ["## 7. Diagrams"] ++ [LF]
  ++ diagrams image_mermaids ++ [LF; LF] ++ lines ["---"] ++ [LF]
  ++ lines ["## 8. Alternatives"] ++ [LF] ++ lines ["---"] ++ [LF]
  ++ lines ["## 9. Risks"] ++ [LF] ++ lines ["---"] ++ [LF]
  ++ lines ["## 10. Implementation Plan"] ++ [LF] ++ lines ["---"] ++ [LF]
  ++ lines ["## 11. Security Considerations"] ++ [LF] ++ lines ["---"]
  ++ [LF] ++ lines ["## 12. References"] ++ [LF] ++ lines ["---"] ++ [LF]
  ++ lines ["## 13. Acknowledgements"] ++ [LF] ++ lines ["---"] ++ [LF]
  ++ lines ["Extracted document text:"] ++ shorten doc_text ++ [LF; LF]
  ++ lines ["- Fill each section with content from the provided text if possible. Use placeholder sentences if necessary.";
           "- When rendering diagrams, always use fenced Markdown code blocks with the mermaid language identifier.";
           "- Do not summarize, explain, or provide any output other than the RFC Markdown.";
           "- Never provide commentary outside the Markdown."].

Definition rfc_template (doc_text : text) (image_mermaids : list text)
    (author date status reviewers topic : text) : text :=
  prompt_head ++ topic ++ [LF; LF]
  ++ py "**Author:** " ++ author ++ lines ["  "]
  ++ py "**Date:** " ++ date ++ lines ["  "]
  ++ py "**Status:** " ++ status ++ lines ["  "]
  ++ py "**Reviewers:** " ++ reviewers ++ lines ["  "]
  ++ py "**Topic:** " ++ topic ++ [LF; LF]
  ++ prompt_sections doc_text image_mermaids.

(** [if custom_prompt:] and [if prompt_image_text:] skip [None] and the
    empty string alike. *)
Definition markdown_prompt (doc_text : text) (image_mermaids : list text)
    (metadata : gmap string text)
    (custom_prompt prompt_image_text : option text) : text :=
  let author := get_or metadata "author" (py "Unknown") in
  let topic := get_or metadata "topic" (py "Unknown") in
  let date := get_or metadata "date" today in
  let status := get_or metadata "status" (py "Draft") in
  let reviewers := get_or metadata "reviewers" (py "N/A") in
  let prompt :=
    rfc_template doc_text image_mermaids author date status reviewers topic in
  let prompt :=
    match custom_prompt with
    | Some (c :: p) =>
        prompt ++ [LF; LF] ++ py "Additional user prompt: " ++ c :: p
    | _ => prompt
    end in
  match prompt_image_text with
  | Some (c :: p) =>
      prompt ++ [LF; LF] ++ lines ["Extra context from uploaded file/image:"]
      ++ (c :: p) ++ [LF]
  | _ => prompt
  end.

Definition markdown_from_ai (doc_text : text) (image_mermaids : list text)
    (metadata : gmap string text) (session_state : session)
    (diagram_type : text) (custom_prompt prompt_image_text : option text)
  : text :=
  ask session_state
    (markdown_prompt doc_text image_mermaids metadata custom_prompt
       prompt_image_text).
End Agent.

(** ** Documents used as examples *)

Definition line (s : string) : text := py s ++ [LF].

(** The header of the scenario in the specification. *)
Definition sample : text :=
  line "**Author:** Jane" ++ line "**Date:** 2024-01-01"
  ++ line "**Status:** Draft" ++ line "**Reviewers:** Bob"
  ++ line "**Topic:** X".

(** Two headers in one document. *)
Definition sample_twice : text := sample ++ line "---" ++ sample.


(** A metadata dictionary with all five keys. *)
Definition metadata (author date status reviewers topic : text)
  : gmap string text :=
  <["author" := author]> (<["date" := date]> (<["status" := status]>
  (<["reviewers" := reviewers]> (<["topic" := topic]> ∅)))).

Definition sample_metadata : gmap string text :=
  metadata (py "Ann") (py "2025-05-05") (py "Accepted") (py "Cy, Di") (py "Y").

(** What [re.search(update_regex, sample)] finds. *)
Definition sample_found : found :=
  default (Found [] ∅ []) (search update_regex sample).

(** A second header with other values. *)
Definition sample_other : text :=
  line "**Author:** Zed" ++ line "**Date:** 1999-09-09"
  ++ line "**Status:** Rejected" ++ line "**Reviewers:** Yu"
  ++ line "**Topic:** W".

Definition sample_pair : text := sample ++ line "---" ++ sample_other.

(** Labels followed by two blanks, by a blank and a tab, by three
    blanks. *)
Definition sample_wide : text :=
  line "**Author:**  Jane" ++ py "**Date:** " ++ [9] ++ line "2024-01-01"
  ++ line "**Status:** Draft" ++ line "**Reviewers:**   Bob"
  ++ line "**Topic:** X".

Definition wide_found : found :=
  default (Found [] ∅ []) (search update_regex sample_wide).

(** A line with the author label and no blank after it, before the
    header of the scenario. *)
Definition sample_after_note : text := line "**Author:**x" ++ sample.

(** The author on the line after its label. *)
Definition sample_broken : text :=
  line "**Author:** " ++ line "Jane" ++ line "**Date:** 2024-01-01"
  ++ line "**Status:** Draft" ++ line "**Reviewers:** Bob"
  ++ line "**Topic:** X".

(** An author with a backslash. *)
Definition sample_path : text :=
  line "**Author:** C:\docs" ++ line "**Date:** 2024-01-01"
  ++ line "**Status:** Draft" ++ line "**Reviewers:** Bob"
  ++ line "**Topic:** X".

(** ** The review page *)

(** The options of the status box. *)
Definition status_options : list text :=
  [py "Draft"; py "Accepted"; py "Rejected"; py "Implemented"].

(** The value of [final_md] in [manager_comment_ui], reached when the
    file read from the bucket is not empty.  The five values that the
    input widgets return, the comment and the check box are arguments.
    [None] stands for an exception that leaves the page: [list.index]
    raises when the parsed status is not among the options, and
    [update_metadata_in_markdown] may raise.  Both are evaluated only
    when the parser has found metadata. *)
Definition final_md (rfc_md author status reviewers date topic comment : text)
    (append_comments : bool) : option text :=
  let md_metadata := extract_metadata_from_markdown rfc_md in
  shown ←
    (if bool_decide (md_metadata = ∅) then Some rfc_md
     else if bool_decide (default (py "Draft") (md_metadata !! "status")
                          ∈ status_options)
     then update_metadata_in_markdown rfc_md
            (metadata author date status reviewers topic)
     else None);
  Some (if negb (is_nil (strip comment)) && append_comments
        then shown ++ [LF; LF] ++ lines ["---"; "## Manager Comments"]
             ++ comment ++ [LF]
        else if negb (is_nil (strip comment))
        then lines ["## Manager Comments"] ++ comment ++ [LF; LF]
             ++ lines ["---"] ++ shown
        else shown).

(** * Verification *)

(** ** What a pattern matches

    [lang r u v]: the pattern [r] matches the text [u] when [v] follows
    it ([v] matters to [$] only).  Groups are ignored here. *)
Fixpoint lang (r : regex) (u v : text) : Prop :=
  match r with
  | Eps => u = []
  | Lit l => u = l
  | LitI lower l => strip_prefix_i lower l (u ++ v) = Some v ∧ length u = length l
  | Star _ a => forallb (cls_ok a) u = true
  | Plus a => u ≠ [] ∧ forallb (cls_ok a) u = true
  | Seq r1 r2 => ∃ u1 u2, u = u1 ++ u2 ∧ lang r1 u1 (u2 ++ v) ∧ lang r2 u2 v
  | Alt r1 r2 => lang r1 u v ∨ lang r2 u v
  | Grp _ r' => lang r' u v
  | Eos => u = [] ∧ at_end v = true
  end.

(** A continuation that never fails, such as the end of a pattern. *)
Definition total {A : Type} (k : text → caps → option A) : Prop :=
  ∀ s c, is_Some (k s c).

(** ** Header fields

    Both patterns of the codec repeat one segment per label.  For the
    parser: the label with its blank, the value, the end of the line. *)
Definition pfield (L : text) (n : nat) (R : regex) : regex :=
  (Lit L ⋯ Grp n (Star false CAny) ⋯ Star true CSpace ⋯ Plus NL ⋯ R)%re.

(** For the updater the three parts are groups [n], [n+1] and [n+2], and
    the blanks after the label are free. *)
Definition ufield (L : text) (n : nat) (R : regex) : regex :=
  (Grp n (Lit L ⋯ Star true CSpace) ⋯ Grp (S n) (Star false CAny) ⋯
   Grp (S (S n)) (Star true CSpace ⋯ Plus NL) ⋯ R)%re.

(** The end of a line as both patterns read it: blanks, then at least
    one carriage return or line feed. *)
Definition eol (e : text) : Prop :=
  ∃ w n, e = w ++ n ∧ forallb is_space w = true
         ∧ n ≠ [] ∧ forallb (cls_ok NL) n = true.

Definition blank (w : text) : Prop := forallb is_space w = true.

(** A value that holds no carriage return and no line feed. *)
Definition nl_free (v : text) : Prop :=
  forallb (λ c, negb (cls_ok NL c)) v = true.

(** No blank at the end, no blank at the start. *)
Definition rtrim (v : text) : Prop := ∀ a c, v = a ++ [c] → is_space c = false.
Definition ltrim (v : text) : Prop := ∀ c b, v = c :: b → is_space c = false.

(** The rest of a pattern swallows any text put in front of what it
    matches (it starts with a lazy [.*?], or it is the end). *)
Definition absorbs {A : Type} (R : regex) (k : text → caps → option A) : Prop :=
  ∀ z s c c', is_Some (rmatch R k s c) → is_Some (rmatch R k (z ++ s) c').

(** In [x ++ L ++ ...] the label [L] does not occur before the end of
    [x], whatever follows. *)
Definition first_at (L x : text) : Prop :=
  ∀ p m1 m2, p ++ L ++ m1 = x ++ L ++ m2 → (length x ≤ length p)%nat.

Definition starts_nonblank (L : text) : Prop :=
  ∃ c L', L = c :: L' ∧ is_space c = false.

(** What a match of the updater's pattern looks like, group by group:
    a label with blanks, a value, the end of a line, and between two
    fields a filler in which the next label does not occur. *)
Definition field_ok (L lab v e : text) : Prop :=
  (∃ w, lab = L ++ w ∧ blank w) ∧ nl_free v ∧ rtrim v ∧ ltrim v ∧ eol e.

Definition header_ok (c : caps) : Prop :=
  field_ok (py "**Author:**") (group c 1) (group c 2) (group c 3)
  ∧ first_at (py "**Date:**") (group c 3 ++ group c 4)
  ∧ field_ok (py "**Date:**") (group c 5) (group c 6) (group c 7)
  ∧ first_at (py "**Status:**") (group c 7 ++ group c 8)
  ∧ field_ok (py "**Status:**") (group c 9) (group c 10) (group c 11)
  ∧ first_at (py "**Reviewers:**") (group c 11 ++ group c 12)
  ∧ field_ok (py "**Reviewers:**") (group c 13) (group c 14) (group c 15)
  ∧ first_at (py "**Topic:**") (group c 15 ++ group c 16)
  ∧ field_ok (py "**Topic:**") (group c 17) (group c 18) (group c 19).

(** Each label of the matched header is followed by exactly one blank,
    the way the parser wants it. *)
Definition tight_labels (c : caps) : Prop :=
  group c 1 = py "**Author:** " ∧ group c 5 = py "**Date:** "
  ∧ group c 9 = py "**Status:** " ∧ group c 13 = py "**Reviewers:** "
  ∧ group c 17 = py "**Topic:** ".

(** A value as the parser returns it: one line, no blank at the end. *)
Definition clean (v : text) : Prop := nl_free v ∧ rtrim v.

(** A metadata value that survives the round trip: no backslash, one
    line, no blank at either end. *)
Definition plain_value (v : text) : Prop :=
  (BSL ∉ v) ∧ (CR ∉ v) ∧ (LF ∉ v) ∧ ltrim v ∧ rtrim v.

(** [plain_value] as a test. *)
Definition plain_value_b (v : text) : bool :=
  forallb (λ c, negb (c =? BSL) && negb (c =? CR) && negb (c =? LF)) v
  && match v with [] => true | c :: _ => negb (is_space c) end
  && match last v with None => true | Some c => negb (is_space c) end.

(** ** The fenced block, as the pattern reads it

    A reading of the pattern of [extract_mermaid_code] by recursion on
    the reply, for the proofs.  The opening: three backquotes and then
    the letters of "mermaid" as IGNORECASE compares them, whatever
    follows.  [opens] returns the text after the letters. *)
Definition opens (lower : N → N) (s : text) : option text :=
  match strip_prefix fence s with
  | Some s' => strip_prefix_i lower mermaid_letters s'
  | None => None
  end.

(** The text after the first opening fence. *)
Fixpoint find_fence (lower : N → N) (s : text) : option text :=
  match opens lower s with
  | Some body => Some body
  | None =>
      match s with
      | _ :: s' => find_fence lower s'
      | [] => None
      end
  end.

(** The block up to its closing fence, or to the end of the reply when
    the closing fence is missing. *)
Fixpoint until_close (s : text) : text :=
  match strip_prefix fence s with
  | Some _ => []
  | None =>
      match s with
      | c :: s' => c :: until_close s'
      | [] => []
      end
  end.

Definition mermaid_block (lower : N → N) (response : text) : text :=
  match find_fence lower response with
  | Some body => strip (until_close body)
  | None => strip response
  end.

(** ** The fenced block, in the words of the specification

    An opening fence "whose opening fence is case-insensitively
    mermaid": three backquotes and a word that is "mermaid" in any mix
    of upper and lower case.  The word runs up to the next blank or
    line end. *)
Fixpoint fence_word (s : text) : text :=
  match s with
  | c :: s' => if is_space c then [] else c :: fence_word s'
  | [] => []
  end.

Definition spec_opens (s : text) : option text :=
  match strip_prefix fence s with
  | Some s' =>
      if bool_decide (map ascii_tolower (fence_word s') = py "mermaid")
      then Some (drop 7 s') else None
  | None => None
  end.

Fixpoint spec_find_fence (s : text) : option text :=
  match spec_opens s with
  | Some body => Some body
  | None =>
      match s with
      | _ :: s' => spec_find_fence s'
      | [] => None
      end
  end.

(** The first such block up to its closing fence or to the end of the
    reply, trimmed; the reply trimmed when there is none. *)
Definition spec_mermaid_block (response : text) : text :=
  match spec_find_fence response with
  | Some body => strip (until_close body)
  | None => strip response
  end.

(** ** The fenced block, as the code finds it *)






(** Replies for the examples: the scenario with the fence in upper
    case, and a fence whose word goes on after "mermaid". *)
Definition sample_reply_upper : text :=
  py "blah ```MERMAID" ++ [LF] ++ py "A-->B" ++ [LF] ++ py "``` blah".

Definition sample_reply_junk : text :=
  py "```mermaidjunk" ++ [LF] ++ py "A" ++ [LF] ++ py "```".

(** ** UTF-8, the encoding side *)

Definition utf8_encode_char (c : N) : list N :=
  if c <? 128 then [c]
  else if c <? 2048 then [192 + c / 64; 128 + c mod 64]
  else if c <? 65536 then
    [224 + c / 4096; 128 + (c / 64) mod 64; 128 + c mod 64]
  else
    [240 + c / 262144; 128 + (c / 4096) mod 64; 128 + (c / 64) mod 64;
     128 + c mod 64].

Definition utf8_encode (s : text) : list N := flat_map utf8_encode_char s.

(** A Unicode scalar value: a code point that is not a surrogate. *)
Definition is_scalar (c : N) : Prop :=
  c < 55296 ∨ (57344 ≤ c ∧ c < 1114112).

(** ** Templates and headers *)

(** A value pasted into a template, character by character. *)
Definition lits (v : text) : list titem := map (λ c, TLit [c]) v.


(** The template of [update_metadata_in_markdown], for values without a
    backslash. *)
Definition update_template (m : gmap string text) : list titem :=
  TGrp 1 :: lits (get m "author") ++ TGrp 3 :: TGrp 4 :: TGrp 5 ::
  lits (get m "date") ++ TGrp 7 :: TGrp 8 :: TGrp 9 ::
  lits (get m "status") ++ TGrp 11 :: TGrp 12 :: TGrp 13 ::
  lits (get m "reviewers") ++ TGrp 15 :: TGrp 16 :: TGrp 17 ::
  lits (get m "topic") ++ [TGrp 19].

Definition plain_values (m : gmap string text) : Prop :=
  (BSL ∉ get m "author") ∧ (BSL ∉ get m "date") ∧ (BSL ∉ get m "status")
  ∧ (BSL ∉ get m "reviewers") ∧ (BSL ∉ get m "topic").


(** The nineteen groups in the order of the text, with the five values
    replaced: what the template of the source expands to. *)
Definition header_of (c : caps) (v1 v2 v3 v4 v5 : text) : text :=
  group c 1 ++ v1 ++ group c 3 ++ group c 4 ++
  group c 5 ++ v2 ++ group c 7 ++ group c 8 ++
  group c 9 ++ v3 ++ group c 11 ++ group c 12 ++
  group c 13 ++ v4 ++ group c 15 ++ group c 16 ++
  group c 17 ++ v5 ++ group c 19.

(** The header as it stands in the text. *)
Definition header (c : caps) : text :=
  header_of c (group c 2) (group c 6) (group c 10) (group c 14) (group c 18).




(** The text returned when a mermaid.live URL cannot be read. *)
Definition url_sentinel : text := py "[Could not extract mermaid code from URL]".


(** ** Occurrences *)

(** The text [l] stands somewhere in [s]. *)
Definition occurs (l s : text) : Prop := ∃ a b, s = a ++ l ++ b.

(** The label in front of the value of a key, as the parser reads it. *)
Definition label_of (key : string) : text :=
  if bool_decide (key = "author") then py "**Author:** "
  else if bool_decide (key = "date") then py "**Date:** "
  else if bool_decide (key = "status") then py "**Status:** "
  else if bool_decide (key = "reviewers") then py "**Reviewers:** "
  else py "**Topic:** ".

(** ** Fenced blocks in a document *)

(** The two literals of [block_regex]: the opening line and the fence
    at the start of a line. *)
Definition block_open : text := fence ++ py "mermaid" ++ [LF].
Definition block_close : text := LF :: fence.

(** [occurs] as a test. *)
Fixpoint occurs_b (l s : text) : bool :=
  match strip_prefix l s with
  | Some _ => true
  | None =>
      match s with
      | _ :: s' => occurs_b l s'
      | [] => false
      end
  end.

(** A chunk of the agent's stream that decodes by itself. *)
Definition chunk_ok (event : option (list N)) : Prop :=
  ∀ b, event = Some b → is_Some (utf8_decode Strict b).

(** ** The header of the prompt *)

(** The groups that [update_regex] would find in the header that
    [rfc_template] writes: each label with one blank, two blanks and a
    line feed after each of the first four values, two line feeds after
    the last. *)
Definition template_caps : caps :=
  list_to_map
    [(1%nat, py "**Author:** "); (3%nat, lines ["  "]);
     (5%nat, py "**Date:** "); (7%nat, lines ["  "]);
     (9%nat, py "**Status:** "); (11%nat, lines ["  "]);
     (13%nat, py "**Reviewers:** "); (15%nat, lines ["  "]);
     (17%nat, py "**Topic:** "); (19%nat, [LF; LF])].

(** ** A header laid out for the parser *)

(** Five lines with their labels, values and line ends, and the
    fillers between them. *)
Definition laid_out (v1 e1 z1 v2 e2 z2 v3 e3 z3 v4 e4 z4 v5 e5 : text) : text :=
  py "**Author:** " ++ v1 ++ e1 ++ z1 ++ py "**Date:** " ++ v2 ++ e2 ++ z2
  ++ py "**Status:** " ++ v3 ++ e3 ++ z3 ++ py "**Reviewers:** " ++ v4 ++ e4
  ++ z4 ++ py "**Topic:** " ++ v5 ++ e5.

(** Every line ends, and every label stands at its first place after
    the line before it. *)
Definition layout_ok (e1 z1 e2 z2 e3 z3 e4 z4 e5 : text) : Prop :=
  eol e1 ∧ first_at (py "**Date:** ") (e1 ++ z1)
  ∧ eol e2 ∧ first_at (py "**Status:** ") (e2 ++ z2)
  ∧ eol e3 ∧ first_at (py "**Reviewers:** ") (e3 ++ z3)
  ∧ eol e4 ∧ first_at (py "**Topic:** ") (e4 ++ z4)
  ∧ eol e5.

(** The same for the updater, whose labels end at the colon and the
    two stars: every line ends, and every label stands at its first
    place after the line before it. *)
Definition ulayout_ok (e1 z1 e2 z2 e3 z3 e4 z4 e5 : text) : Prop :=
  eol e1 ∧ first_at (py "**Date:**") (e1 ++ z1)
  ∧ eol e2 ∧ first_at (py "**Status:**") (e2 ++ z2)
  ∧ eol e3 ∧ first_at (py "**Reviewers:**") (e3 ++ z3)
  ∧ eol e4 ∧ first_at (py "**Topic:**") (e4 ++ z4)
  ∧ eol e5.

(** A value that both patterns read the same way: one line, no blank
    at either end, not empty. *)
Definition solid (v : text) : Prop := clean v ∧ ltrim v ∧ v ≠ [].

(** ** Two image links *)

(** A harvest of two image links, and a server that answers the first
    with two bytes and the second with an empty body. *)
Definition sample_image_links (txt : text) : list text :=
  [py "http://a/b.png"; py "http://a/c.png"].

Definition sample_get (url : text) : option (bool * list N) :=
  if bool_decide (url = py "http://a/b.png") then Some (true, [1; 2])
  else Some (true, []).

(** ** Lines *)

(** The text up to the first carriage return or line feed. *)
Fixpoint first_line (s : text) : text :=
  match s with
  | c :: s' => if cls_ok NL c then [] else c :: first_line s'
  | [] => []
  end.

(** ** Labels that both patterns read *)

(** A label group of the updater that the parser reads as well: the
    label, one space, and after it blanks of the same line only. *)
Definition spaced (L lab : text) : Prop := ∃ w, lab = L ++ SP :: w ∧ nl_free w.

Definition spaced_labels (c : caps) : Prop :=
  spaced (py "**Author:**") (group c 1) ∧ spaced (py "**Date:**") (group c 5)
  ∧ spaced (py "**Status:**") (group c 9)
  ∧ spaced (py "**Reviewers:**") (group c 13)
  ∧ spaced (py "**Topic:**") (group c 17).

(** The weaker condition: a space after each label, whatever follows. *)
Definition space_after_labels (c : caps) : Prop :=
  (∃ w, group c 1 = py "**Author:** " ++ w)
  ∧ (∃ w, group c 5 = py "**Date:** " ++ w)
  ∧ (∃ w, group c 9 = py "**Status:** " ++ w)
  ∧ (∃ w, group c 13 = py "**Reviewers:** " ++ w)
  ∧ (∃ w, group c 17 = py "**Topic:** " ++ w).

(** ** What the updater writes for a key *)


(** A dictionary with the author and the topic only. *)
Definition sample_partial : gmap string text :=
  <["author" := py "Ann"]> (<["topic" := py "Y"]> ∅).

(** ** The matcher against [lang] *)

Section Engine.
Context {A : Type}.
Implicit Types (k : text → option A) (a : cls) (s u v : text).

Lemma strip_prefix_app l s : strip_prefix l (l ++ s) = Some s.
Proof.
  induction l as [|x l IH]; simpl; [done|].
  by rewrite N.eqb_refl.
Qed.

Lemma strip_prefix_Some l s s' : strip_prefix l s = Some s' → s = l ++ s'.
Proof.
  revert s. induction l as [|x l IH]; intros [|y s]; simpl; try congruence.
  destruct (x =? y) eqn:E; [|done].
  apply N.eqb_eq in E as ->. intros H. by rewrite (IH _ H).
Qed.

Lemma strip_prefix_i_Some lower l s s' :
  strip_prefix_i lower l s = Some s' →
  ∃ u, s = u ++ s' ∧ length u = length l
       ∧ strip_prefix_i lower l (u ++ s') = Some s'.
Proof.
  revert s. induction l as [|x l IH]; intros s; simpl.
  - intros [= ->]. by exists [].
  - destruct s as [|y s]; [done|].
    destruct (existsb _ x) eqn:E; [|done].
    intros H. destruct (IH _ H) as (u & -> & Hl & Hu).
    exists (y :: u). simpl. rewrite E. auto.
Qed.

Lemma star_lazy_spec a k s x :
  star_lazy a k s = Some x →
  ∃ u v, s = u ++ v ∧ forallb (cls_ok a) u = true ∧ k v = Some x
         ∧ ∀ u' v', s = u' ++ v' → (length u' < length u)%nat → k v' = None.
Proof.
  induction s as [|c s IH]; simpl.
  - destruct (k []) eqn:E; [|done]. intros [= ->].
    exists [], []. repeat split; auto. simpl. lia.
  - destruct (k (c :: s)) eqn:E.
    + intros [= ->]. exists [], (c :: s). repeat split; auto. simpl. lia.
    + destruct (cls_ok a c) eqn:Hc; [|done].
      intros H. destruct (IH H) as (u & v & -> & Hu & Hk & Hmin).
      exists (c :: u), v. simpl. rewrite Hc. repeat split; auto.
      intros [|c' u'] v' Heq Hlen; simpl in *.
      * by subst v'.
      * injection Heq as -> Heq. apply (Hmin u'); [done|lia].
Qed.

Lemma star_lazy_complete a k u v :
  forallb (cls_ok a) u = true → is_Some (k v) → is_Some (star_lazy a k (u ++ v)).
Proof.
  intros Hu Hk. induction u as [|c u IH]; simpl in *.
  - destruct v; simpl; destruct Hk as [x ->]; eauto.
  - apply andb_true_iff in Hu as [Hc Hu].
    destruct (k (c :: u ++ v)); [eauto|]. rewrite Hc. auto.
Qed.

Lemma star_greedy_ge a k s : is_Some (k s) → is_Some (star_greedy a k s).
Proof.
  intros Hk. destruct s as [|c s]; simpl; [done|].
  destruct (cls_ok a c); [|done].
  destruct (star_greedy a k s); eauto.
Qed.

Lemma star_greedy_complete a k u v :
  forallb (cls_ok a) u = true → is_Some (k v) → is_Some (star_greedy a k (u ++ v)).
Proof.
  intros Hu Hk. induction u as [|c u IH]; simpl in *.
  - by apply star_greedy_ge.
  - apply andb_true_iff in Hu as [Hc Hu]. rewrite Hc.
    destruct (IH Hu) as [x ->]. eauto.
Qed.

Lemma star_greedy_None a k u v :
  star_greedy a k (u ++ v) = None → forallb (cls_ok a) u = true → k v = None.
Proof.
  intros HN Hu. destruct (k v) eqn:E; [|done].
  destruct (star_greedy_complete a k u v Hu) as [x Hx]; [by rewrite E|].
  congruence.
Qed.

Lemma star_greedy_spec a k s x :
  star_greedy a k s = Some x →
  ∃ u v, s = u ++ v ∧ forallb (cls_ok a) u = true ∧ k v = Some x
         ∧ ∀ u' v', s = u' ++ v' → forallb (cls_ok a) u' = true →
                    (length u < length u')%nat → k v' = None.
Proof.
  induction s as [|c s IH]; simpl.
  - intros H. exists [], []. repeat split; auto.
    intros [|] ? ?; simpl; [lia|done].
  - destruct (cls_ok a c) eqn:Hc.
    + destruct (star_greedy a k s) eqn:E.
      * intros [= ->]. destruct (IH eq_refl) as (u & v & -> & Hu & Hk & Hmax).
        exists (c :: u), v. simpl. rewrite Hc. repeat split; auto.
        intros [|c' u'] v' Heq Hu' Hlen; simpl in *; [lia|].
        injection Heq as -> Heq. apply andb_true_iff in Hu' as [_ Hu'].
        apply (Hmax u'); [done|done|lia].
      * intros H. exists [], (c :: s). repeat split; auto.
        intros [|c' u'] v' Heq Hu' Hlen; simpl in *; [lia|].
        injection Heq as -> ->. apply andb_true_iff in Hu' as [_ Hu'].
        by apply (star_greedy_None a k u' v').
    + intros H. exists [], (c :: s). repeat split; auto.
      intros [|c' u'] v' Heq Hu' Hlen; simpl in *; [lia|].
      injection Heq as -> ->. by rewrite Hc in Hu'.
Qed.

(** Whatever the matcher returns comes from the continuation, called
    after a text the pattern matches. *)
Lemma rmatch_sound r (k : text → caps → option A) s c x :
  rmatch r k s c = Some x →
  ∃ u v c', s = u ++ v ∧ lang r u v ∧ k v c' = Some x.
Proof.
  revert k s c. induction r as [| l | lower l | g a | a | r1 IH1 r2 IH2
                               | r1 IH1 r2 IH2 | n r IH |]; intros k s c; simpl.
  - intros H. by exists [], s, c.
  - destruct (strip_prefix l s) as [s'|] eqn:E; [|done].
    intros H. apply strip_prefix_Some in E as ->. by exists l, s', c.
  - destruct (strip_prefix_i lower l s) as [s'|] eqn:E; [|done].
    intros H. apply strip_prefix_i_Some in E as (u & -> & Hl & E).
    by exists u, s', c.
  - destruct g; intros H.
    + apply star_greedy_spec in H as (u & v & -> & Hu & Hk & _). by exists u, v, c.
    + apply star_lazy_spec in H as (u & v & -> & Hu & Hk & _). by exists u, v, c.
  - destruct s as [|y s]; [done|]. destruct (cls_ok a y) eqn:Hy; [|done].
    intros H. apply star_greedy_spec in H as (u & v & -> & Hu & Hk & _).
    exists (y :: u), v, c. simpl. rewrite Hy. auto.
  - intros H. apply IH1 in H as (u1 & v1 & c1 & -> & H1 & H).
    apply IH2 in H as (u2 & v & c2 & -> & H2 & H).
    exists (u1 ++ u2), v, c2. rewrite <- (assoc_L (++)). eauto 10.
  - destruct (rmatch r1 k s c) eqn:E.
    + intros [= ->]. apply IH1 in E as (u & v & c' & -> & H1 & H). eauto 10.
    + intros H. apply IH2 in H as (u & v & c' & -> & H1 & H). eauto 10.
  - intros H. apply IH in H as (u & v & c' & -> & H1 & H). eauto 10.
  - destruct (at_end s) eqn:E; [|done]. intros H. by exists [], s, c.
Qed.

(** If the pattern matches a prefix after which the continuation
    cannot fail, the matcher does not fail. *)
Lemma rmatch_complete r (k : text → caps → option A) u v c :
  lang r u v → (∀ c', is_Some (k v c')) → is_Some (rmatch r k (u ++ v) c).
Proof.
  revert k u v c. induction r as [| l | lower l | g a | a | r1 IH1 r2 IH2
                                 | r1 IH1 r2 IH2 | n r IH |]; intros k u v c; simpl.
  - intros -> Hk. apply Hk.
  - intros -> Hk. rewrite strip_prefix_app. apply Hk.
  - intros [-> _] Hk. apply Hk.
  - intros Hu Hk. destruct g.
    + by apply star_greedy_complete.
    + by apply star_lazy_complete.
  - intros [Hne Hu] Hk. destruct u as [|y u]; [done|]. simpl in *.
    apply andb_true_iff in Hu as [-> Hu]. by apply star_greedy_complete.
  - intros (u1 & u2 & -> & H1 & H2) Hk. rewrite <- (assoc_L (++)).
    apply IH1; [done|]. intros c'. by apply IH2.
  - intros [H|H] Hk.
    + destruct (IH1 k u v c H Hk) as [x ->]. eauto.
    + destruct (rmatch r1 k (u ++ v) c); [eauto|]. by apply IH2.
  - intros H Hk. apply IH; [done|]. intros c'. apply Hk.
  - intros [-> E] Hk. simpl. rewrite E. apply Hk.
Qed.
End Engine.

(** ** Groups *)

Section Groups.
Context {A : Type}.

(** A pattern without groups hands the groups on unchanged. *)
Lemma rmatch_flat r (k : text → caps → option A) s c x :
  groups r = 0%nat → rmatch r k s c = Some x →
  ∃ u v, s = u ++ v ∧ lang r u v ∧ k v c = Some x.
Proof.
  revert k s c. induction r as [| l | lower l | g a | a | r1 IH1 r2 IH2
                               | r1 IH1 r2 IH2 | n r IH |]; intros k s c; simpl.
  - intros _ H. by exists [], s.
  - intros _. destruct (strip_prefix l s) as [s'|] eqn:E; [|done].
    intros H. apply strip_prefix_Some in E as ->. by exists l, s'.
  - intros _. destruct (strip_prefix_i lower l s) as [s'|] eqn:E; [|done].
    intros H. apply strip_prefix_i_Some in E as (u & -> & Hl & E).
    by exists u, s'.
  - intros _. destruct g; intros H.
    + apply star_greedy_spec in H as (u & v & -> & Hu & Hk & _). by exists u, v.
    + apply star_lazy_spec in H as (u & v & -> & Hu & Hk & _). by exists u, v.
  - intros _. destruct s as [|y s]; [done|]. destruct (cls_ok a y) eqn:Hy; [|done].
    intros H. apply star_greedy_spec in H as (u & v & -> & Hu & Hk & _).
    exists (y :: u), v. simpl. rewrite Hy. auto.
  - intros Hg H. apply IH1 in H as (u1 & v1 & -> & H1 & H); [|lia].
    apply IH2 in H as (u2 & v & -> & H2 & H); [|lia].
    exists (u1 ++ u2), v. rewrite <- (assoc_L (++)). eauto 10.
  - intros Hg. destruct (rmatch r1 k s c) eqn:E.
    + intros [= ->]. apply IH1 in E as (u & v & -> & H1 & H); [|lia]. eauto 10.
    + intros H. apply IH2 in H as (u & v & -> & H1 & H); [|lia]. eauto 10.
  - done.
  - intros _. destruct (at_end s) eqn:E; [|done]. intros H. by exists [], s.
Qed.

Lemma take_matched (u v : text) : take (length (u ++ v) - length v) (u ++ v) = u.
Proof.
  rewrite length_app, Nat.add_sub. by rewrite take_app_length.
Qed.

(** A group around a pattern without groups records what it matched. *)
Lemma rmatch_grp n r (k : text → caps → option A) s c x :
  groups r = 0%nat → rmatch (Grp n r) k s c = Some x →
  ∃ u v, s = u ++ v ∧ lang r u v ∧ k v (<[n := u]> c) = Some x.
Proof.
  intros Hg H. simpl in H. apply rmatch_flat in H as (u & v & -> & Hl & H); [|done].
  rewrite take_matched in H. eauto.
Qed.

(** A lazy group is as short as the rest of the pattern allows. *)
Lemma rmatch_grp_lazy n a (k : text → caps → option A) s c x :
  rmatch (Grp n (Star false a)) k s c = Some x →
  ∃ u v, s = u ++ v ∧ forallb (cls_ok a) u = true ∧ k v (<[n := u]> c) = Some x
         ∧ ∀ u' v', s = u' ++ v' → (length u' < length u)%nat →
                    k v' (<[n := u']> c) = None.
Proof.
  simpl. intros H. apply star_lazy_spec in H as (u & v & -> & Hu & H & Hmin).
  rewrite take_matched in H. exists u, v. repeat split; auto.
  intros u' v' Heq Hlen. specialize (Hmin u' v' Heq Hlen).
  rewrite Heq in Hmin. by rewrite take_matched in Hmin.
Qed.

(** A greedy run of blanks inside a group is as long as the rest of the
    pattern allows. *)
Lemma rmatch_grp_lit_greedy n l a (k : text → caps → option A) s c x :
  rmatch (Grp n (Seq (Lit l) (Star true a))) k s c = Some x →
  ∃ w v, s = l ++ w ++ v ∧ forallb (cls_ok a) w = true
         ∧ k v (<[n := l ++ w]> c) = Some x
         ∧ ∀ w' v', w ++ v = w' ++ v' → forallb (cls_ok a) w' = true →
                    (length w < length w')%nat →
                    k v' (<[n := l ++ w']> c) = None.
Proof.
  simpl. destruct (strip_prefix l s) as [s'|] eqn:E; [|done].
  apply strip_prefix_Some in E as ->.
  intros H. apply star_greedy_spec in H as (w & v & -> & Hw & H & Hmax).
  rewrite (assoc_L (++)), take_matched in H. exists w, v. repeat split; auto.
  intros w' v' Heq Hw' Hlen. specialize (Hmax w' v' Heq Hw' Hlen).
  rewrite Heq, (assoc_L (++)) in Hmax. by rewrite take_matched in Hmax.
Qed.

(** The same facts for the head of a sequence. *)
Lemma rmatch_seq_flat r R (k : text → caps → option A) s c x :
  groups r = 0%nat → rmatch (Seq r R) k s c = Some x →
  ∃ u v, s = u ++ v ∧ lang r u v ∧ rmatch R k v c = Some x.
Proof. intros Hg H. by apply (rmatch_flat r (rmatch R k)) in H. Qed.

Lemma rmatch_seq_grp_lazy n a R (k : text → caps → option A) s c x :
  rmatch (Seq (Grp n (Star false a)) R) k s c = Some x →
  ∃ u v, s = u ++ v ∧ forallb (cls_ok a) u = true
         ∧ rmatch R k v (<[n := u]> c) = Some x
         ∧ ∀ u' v', s = u' ++ v' → (length u' < length u)%nat →
                    rmatch R k v' (<[n := u']> c) = None.
Proof. intros H. by apply (rmatch_grp_lazy n a (rmatch R k)) in H. Qed.

Lemma rmatch_seq_grp_lit_greedy n l a R (k : text → caps → option A) s c x :
  rmatch (Seq (Grp n (Seq (Lit l) (Star true a))) R) k s c = Some x →
  ∃ w v, s = l ++ w ++ v ∧ forallb (cls_ok a) w = true
         ∧ rmatch R k v (<[n := l ++ w]> c) = Some x
         ∧ ∀ w' v', w ++ v = w' ++ v' → forallb (cls_ok a) w' = true →
                    (length w < length w')%nat →
                    rmatch R k v' (<[n := l ++ w']> c) = None.
Proof. intros H. by apply (rmatch_grp_lit_greedy n l a (rmatch R k)) in H. Qed.

Lemma rmatch_seq_complete r R (k : text → caps → option A) u v c :
  lang r u v → (∀ c', is_Some (rmatch R k v c')) →
  is_Some (rmatch (Seq r R) k (u ++ v) c).
Proof. intros Hl HR. by apply (rmatch_complete r (rmatch R k)). Qed.
End Groups.

(** ** [re.search] *)

Lemma match_here_false r s :
  match_here r false s
  = rmatch r (λ s' c, Some (<[0%nat := take (length s - length s') s]> c, s')) s ∅.
Proof. done. Qed.

Lemma rmatch_Eps_accept s0 s c x :
  rmatch Eps (accept false s0) s c = Some x →
  x = (<[0%nat := take (length s0 - length s) s0]> c, s).
Proof. by intros [= <-]. Qed.

Lemma group_insert c n v : group (<[n := v]> c) n = v.
Proof. unfold group. by rewrite lookup_insert_eq. Qed.

Lemma group_insert_ne c n n' v : n ≠ n' → group (<[n := v]> c) n' = group c n'.
Proof. intros H. unfold group. by rewrite lookup_insert_ne. Qed.

Ltac group_simpl :=
  repeat first [ rewrite group_insert | rewrite group_insert_ne by lia ].

Lemma accept_false_total s0 : total (accept false s0).
Proof. intros s c. unfold accept. simpl. eauto. Qed.

Lemma search_adv_nil r adv :
  search_adv r adv []
  = match match_here r adv [] with
    | Some (c, s') => Some (Found [] c s')
    | None => None
    end.
Proof. done. Qed.

Lemma search_adv_cons r adv x s :
  search_adv r adv (x :: s)
  = match match_here r adv (x :: s) with
    | Some (c, s') => Some (Found [] c s')
    | None => shift x (search_adv r false s)
    end.
Proof. done. Qed.

(** The match found by a search: nothing matches further left. *)
Lemma search_Some r s f :
  search r s = Some f →
  ∃ s1, s = f_pre f ++ s1
        ∧ match_here r false s1 = Some (f_caps f, f_rest f)
        ∧ ∀ a b, f_pre f = a ++ b → b ≠ [] → match_here r false (b ++ s1) = None.
Proof.
  unfold search. revert f. induction s as [|x s IH]; intros f; simpl.
  - destruct (match_here r false []) as [[c s']|] eqn:E; [|done].
    intros [= <-]. exists []. simpl. repeat split; auto.
    intros a b Hab. by destruct a, b.
  - destruct (match_here r false (x :: s)) as [[c s']|] eqn:E.
    + intros [= <-]. exists (x :: s). simpl. repeat split; auto.
      intros a b Hab. by destruct a, b.
    + destruct (search_adv r false s) as [f'|] eqn:E'; [|done].
      intros [= <-]. simpl.
      destruct (IH f' eq_refl) as (s1 & -> & Hm & Hleft).
      exists s1. repeat split; auto.
      intros [|y a] b Hab Hb; simpl in Hab.
      * by subst b.
      * injection Hab as -> Hab. by apply (Hleft a b).
Qed.

Lemma search_None r s a b : search r s = None → s = a ++ b → match_here r false b = None.
Proof.
  unfold search. intros H ->. induction a as [|x a IH]; simpl in H.
  - destruct b; simpl in H; destruct (match_here r false _) as [[]|]; done.
  - destruct (match_here r false (x :: a ++ b)) as [[]|]; [done|].
    destruct (search_adv r false (a ++ b)); [done|]. by apply IH.
Qed.

Lemma search_intro r pre s1 c rest :
  (∀ a b, pre = a ++ b → b ≠ [] → match_here r false (b ++ s1) = None) →
  match_here r false s1 = Some (c, rest) →
  search r (pre ++ s1) = Some (Found pre c rest).
Proof.
  unfold search. intros Hleft Hm. induction pre as [|x pre IH]; simpl.
  - destruct s1; simpl; by rewrite Hm.
  - pose proof (Hleft [] (x :: pre) eq_refl ltac:(done)) as H0.
    simpl in H0. rewrite H0. rewrite IH; [done|].
    intros a b -> Hb. by apply (Hleft (x :: a) b).
Qed.

Lemma search_is_Some r a b :
  is_Some (match_here r false b) → is_Some (search r (a ++ b)).
Proof.
  intros H. destruct (search r (a ++ b)) eqn:E; [eauto|].
  rewrite (search_None r _ a b E eq_refl) in H. by destruct H.
Qed.

(** ** [re.sub] *)

(** The shape of what [search_adv] finds: group 0 is the matched text,
    and an empty match is not accepted where [must_advance] forbids it. *)
Lemma match_here_shape r adv s c rest :
  match_here r adv s = Some (c, rest) →
  s = group c 0 ++ rest ∧ (adv = true → group c 0 ≠ []).
Proof.
  unfold match_here. intros H.
  apply rmatch_sound in H as (u & v & c' & -> & _ & H).
  unfold accept in H.
  destruct (adv && (length v =? length (u ++ v))%nat) eqn:E; [done|].
  injection H as <- <-. unfold group. rewrite lookup_insert_eq. simpl.
  rewrite take_matched. split; [done|].
  intros -> Hu. subst u. simpl in E. by rewrite Nat.eqb_refl in E.
Qed.

Lemma search_adv_shape r adv s f :
  search_adv r adv s = Some f →
  s = f_pre f ++ group (f_caps f) 0 ++ f_rest f
  ∧ (adv = true → f_pre f = [] → group (f_caps f) 0 ≠ []).
Proof.
  revert adv f. induction s as [|x s IH]; intros adv f; simpl.
  - destruct (match_here r adv []) as [[c s']|] eqn:E; [|done].
    intros [= <-]. simpl. apply match_here_shape in E as [E1 E2]. auto.
  - destruct (match_here r adv (x :: s)) as [[c s']|] eqn:E.
    + intros [= <-]. simpl. apply match_here_shape in E as [E1 E2]. auto.
    + destruct (search_adv r false s) as [f'|] eqn:E'; [|done].
      intros [= <-]. simpl. destruct (IH _ _ E') as [-> _]. done.
Qed.

(** The fuel of [sub_loop] never runs out: each round either consumes a
    character or raises [must_advance]. *)
Lemma sub_loop_fuel r tpl n1 n2 (adv : bool) (s : text) :
  (2 * length s + (if adv then 1 else 2) ≤ n1)%nat →
  (2 * length s + (if adv then 1 else 2) ≤ n2)%nat →
  sub_loop n1 r tpl adv s = sub_loop n2 r tpl adv s.
Proof.
  revert n2 adv s. induction n1 as [|n1 IH]; intros n2 adv s H1 H2.
  { destruct adv; lia. }
  destruct n2 as [|n2]; [destruct adv; lia|]. simpl.
  destruct (search_adv r adv s) as [f|] eqn:E; [|done].
  do 2 f_equal. apply search_adv_shape in E as [E Hadv].
  assert (length s = length (f_pre f) + length (group (f_caps f) 0)
                     + length (f_rest f))%nat as Hlen.
  { rewrite E at 1. rewrite !length_app. lia. }
  destruct (group (f_caps f) 0) as [|y w] eqn:Ew; simpl in *.
  - destruct adv.
    + destruct (f_pre f) as [|z pre]; [by destruct Hadv|]. simpl in *.
      apply IH; simpl; lia.
    + apply IH; simpl; lia.
  - destruct adv; apply IH; simpl; lia.
Qed.

(** *** Templates *)

Lemma parse_template_plain g v s :
  BSL ∉ v →
  parse_template g (v ++ s)
  = match parse_template g s with
    | Some tpl => Some (lits v ++ tpl)
    | None => None
    end.
Proof.
  intros Hv. induction v as [|c v IH]; simpl.
  - by destruct (parse_template g s).
  - apply not_elem_of_cons in Hv as [Hc Hv].
    assert ((c =? BSL) = false) as -> by (apply N.eqb_neq; congruence).
    simpl. rewrite (IH Hv). by destruct (parse_template g s).
Qed.

Lemma expand_app tpl1 tpl2 c : expand (tpl1 ++ tpl2) c = expand tpl1 c ++ expand tpl2 c.
Proof. unfold expand. by rewrite flat_map_app. Qed.

Lemma expand_lits v c : expand (lits v) c = v.
Proof.
  unfold expand, lits. induction v as [|x v IH]; simpl; [done|]. by rewrite IH.
Qed.

Lemma expand_cons_grp n tpl c : expand (TGrp n :: tpl) c = group c n ++ expand tpl c.
Proof. done. Qed.

Lemma parse_template_repl m :
  plain_values m → parse_template 19 (repl m) = Some (update_template m).
Proof.
  intros (Ha & Hd & Hs & Hr & Ht). unfold repl, update_template.
  change (parse_template 19 (py "\g<1>" ++ ?s))
    with (group_ref 19 1 (parse_template 19 s)).
  rewrite (parse_template_plain _ _ _ Ha).
  change (parse_template 19 (py "\g<3>\g<4>\g<5>" ++ ?s))
    with (group_ref 19 3 (group_ref 19 4 (group_ref 19 5 (parse_template 19 s)))).
  rewrite (parse_template_plain _ _ _ Hd).
  change (parse_template 19 (py "\g<7>\g<8>\g<9>" ++ ?s))
    with (group_ref 19 7 (group_ref 19 8 (group_ref 19 9 (parse_template 19 s)))).
  rewrite (parse_template_plain _ _ _ Hs).
  change (parse_template 19 (py "\g<11>\g<12>\g<13>" ++ ?s))
    with (group_ref 19 11 (group_ref 19 12 (group_ref 19 13 (parse_template 19 s)))).
  rewrite (parse_template_plain _ _ _ Hr).
  change (parse_template 19 (py "\g<15>\g<16>\g<17>" ++ ?s))
    with (group_ref 19 15 (group_ref 19 16 (group_ref 19 17 (parse_template 19 s)))).
  rewrite (parse_template_plain _ _ _ Ht).
  reflexivity.
Qed.

Lemma groups_update_regex : groups update_regex = 19%nat.
Proof. reflexivity. Qed.

(** ** The header that [update_regex] matches *)

Lemma rmatch_seq_grp {A : Type} n r R (k : text → caps → option A) s c x :
  groups r = 0%nat → rmatch (Grp n r ⋯ R)%re k s c = Some x →
  ∃ u v, s = u ++ v ∧ lang r u v ∧ rmatch R k v (<[n := u]> c) = Some x.
Proof. intros Hg H. by apply (rmatch_grp n r (rmatch R k)) in H. Qed.

(** The groups of a match of [update_regex] tile the matched text. *)
Lemma update_match_groups s c rest :
  match_here update_regex false s = Some (c, rest) →
  s = header c ++ rest ∧ group c 0 = header c ∧ group c 0 ≠ [].
Proof.
  unfold match_here, update_regex. intros H.
  apply rmatch_seq_grp in H as (g1 & v1 & -> & L1 & H); [|done].
  apply rmatch_seq_grp in H as (g2 & v2 & -> & L2 & H); [|done].
  apply rmatch_seq_grp in H as (g3 & v3 & -> & L3 & H); [|done].
  apply rmatch_seq_grp in H as (g4 & v4 & -> & L4 & H); [|done].
  apply rmatch_seq_grp in H as (g5 & v5 & -> & L5 & H); [|done].
  apply rmatch_seq_grp in H as (g6 & v6 & -> & L6 & H); [|done].
  apply rmatch_seq_grp in H as (g7 & v7 & -> & L7 & H); [|done].
  apply rmatch_seq_grp in H as (g8 & v8 & -> & L8 & H); [|done].
  apply rmatch_seq_grp in H as (g9 & v9 & -> & L9 & H); [|done].
  apply rmatch_seq_grp in H as (g10 & v10 & -> & L10 & H); [|done].
  apply rmatch_seq_grp in H as (g11 & v11 & -> & L11 & H); [|done].
  apply rmatch_seq_grp in H as (g12 & v12 & -> & L12 & H); [|done].
  apply rmatch_seq_grp in H as (g13 & v13 & -> & L13 & H); [|done].
  apply rmatch_seq_grp in H as (g14 & v14 & -> & L14 & H); [|done].
  apply rmatch_seq_grp in H as (g15 & v15 & -> & L15 & H); [|done].
  apply rmatch_seq_grp in H as (g16 & v16 & -> & L16 & H); [|done].
  apply rmatch_seq_grp in H as (g17 & v17 & -> & L17 & H); [|done].
  apply rmatch_seq_grp in H as (g18 & v18 & -> & L18 & H); [|done].
  apply rmatch_seq_grp in H as (g19 & v19 & -> & L19 & H); [|done].
  apply rmatch_Eps_accept in H. injection H as Hc <-.
  assert (group c 1 = g1) as G1 by (rewrite Hc; by group_simpl).
  assert (group c 2 = g2) as G2 by (rewrite Hc; by group_simpl).
  assert (group c 3 = g3) as G3 by (rewrite Hc; by group_simpl).
  assert (group c 4 = g4) as G4 by (rewrite Hc; by group_simpl).
  assert (group c 5 = g5) as G5 by (rewrite Hc; by group_simpl).
  assert (group c 6 = g6) as G6 by (rewrite Hc; by group_simpl).
  assert (group c 7 = g7) as G7 by (rewrite Hc; by group_simpl).
  assert (group c 8 = g8) as G8 by (rewrite Hc; by group_simpl).
  assert (group c 9 = g9) as G9 by (rewrite Hc; by group_simpl).
  assert (group c 10 = g10) as G10 by (rewrite Hc; by group_simpl).
  assert (group c 11 = g11) as G11 by (rewrite Hc; by group_simpl).
  assert (group c 12 = g12) as G12 by (rewrite Hc; by group_simpl).
  assert (group c 13 = g13) as G13 by (rewrite Hc; by group_simpl).
  assert (group c 14 = g14) as G14 by (rewrite Hc; by group_simpl).
  assert (group c 15 = g15) as G15 by (rewrite Hc; by group_simpl).
  assert (group c 16 = g16) as G16 by (rewrite Hc; by group_simpl).
  assert (group c 17 = g17) as G17 by (rewrite Hc; by group_simpl).
  assert (group c 18 = g18) as G18 by (rewrite Hc; by group_simpl).
  assert (group c 19 = g19) as G19 by (rewrite Hc; by group_simpl).
  assert (group c 0 = g1 ++ g2 ++ g3 ++ g4 ++ g5 ++ g6 ++ g7 ++ g8 ++ g9 ++ g10
          ++ g11 ++ g12 ++ g13 ++ g14 ++ g15 ++ g16 ++ g17 ++ g18 ++ g19) as G0.
  { rewrite Hc, group_insert.
    rewrite !(assoc_L (++)). rewrite take_matched. by rewrite <- !(assoc_L (++)). }
  unfold header, header_of.
  rewrite G0, G1, G2, G3, G4, G5, G6, G7, G8, G9, G10, G11, G12, G13, G14,
    G15, G16, G17, G18, G19.
  rewrite <- !(assoc_L (++)). repeat split; [done..|].
  destruct L1 as (l & w & -> & -> & _). done.
Qed.

Lemma sub_loop_S n r tpl adv s :
  sub_loop (S n) r tpl adv s
  = match search_adv r adv s with
    | None => s
    | Some f =>
        f_pre f ++ expand tpl (f_caps f)
          ++ sub_loop n r tpl (is_nil (group (f_caps f) 0)) (f_rest f)
    end.
Proof. done. Qed.

Lemma expand_update_template m c :
  expand (update_template m) c
  = header_of c (get m "author") (get m "date") (get m "status")
      (get m "reviewers") (get m "topic").
Proof.
  unfold update_template, header_of.
  repeat first [ rewrite expand_cons_grp | rewrite expand_app | rewrite expand_lits ].
  unfold expand. simpl. by rewrite (right_id_L [] (++)).
Qed.

(** One round of the substitution loop on a text with a header. *)
Lemma update_unfold t m f :
  search update_regex t = Some f → plain_values m →
  t = f_pre f ++ header (f_caps f) ++ f_rest f
  ∧ ∃ rest',
      update_metadata_in_markdown (f_rest f) m = Some rest'
      ∧ update_metadata_in_markdown t m
        = Some (f_pre f
                ++ header_of (f_caps f) (get m "author") (get m "date")
                     (get m "status") (get m "reviewers") (get m "topic")
                ++ rest').
Proof.
  intros Hs Hm.
  destruct (search_Some _ _ _ Hs) as (s1 & Ht & Hhere & _).
  apply update_match_groups in Hhere as (Hs1 & H0 & Hne).
  split; [by rewrite Ht, Hs1|].
  unfold update_metadata_in_markdown, re_sub.
  rewrite groups_update_regex, (parse_template_repl m Hm).
  eexists. split; [reflexivity|]. f_equal.
  rewrite (sub_loop_fuel _ _ _ (S (2 * length t + 1)) false t) by (simpl; lia).
  rewrite sub_loop_S. unfold search in Hs. rewrite Hs.
  rewrite expand_update_template. do 2 f_equal.
  destruct (group (f_caps f) 0) eqn:E; [done|]. simpl is_nil.
  apply sub_loop_fuel; simpl; [|lia].
  rewrite Ht, Hs1, <- H0, !length_app. simpl. lia.
Qed.

(** Without a header the text comes back as it is. *)
Lemma update_no_header t m :
  search update_regex t = None → plain_values m →
  update_metadata_in_markdown t m = Some t.
Proof.
  intros Hs Hm. unfold update_metadata_in_markdown, re_sub.
  rewrite groups_update_regex, (parse_template_repl m Hm). f_equal.
  rewrite (sub_loop_fuel _ _ _ (S (2 * length t + 1)) false t) by (simpl; lia).
  rewrite sub_loop_S. unfold search in Hs. by rewrite Hs.
Qed.

(** ** The two patterns, field by field *)

Lemma metadata_regex_fields :
  metadata_regex
  = pfield (py "**Author:** ") 1 (Star false CAny ⋯
    pfield (py "**Date:** ") 2 (Star false CAny ⋯
    pfield (py "**Status:** ") 3 (Star false CAny ⋯
    pfield (py "**Reviewers:** ") 4 (Star false CAny ⋯
    pfield (py "**Topic:** ") 5 Eps))))%re.
Proof. reflexivity. Qed.

Lemma update_regex_fields :
  update_regex
  = ufield (py "**Author:**") 1 (Grp 4 (Star false CAny) ⋯
    ufield (py "**Date:**") 5 (Grp 8 (Star false CAny) ⋯
    ufield (py "**Status:**") 9 (Grp 12 (Star false CAny) ⋯
    ufield (py "**Reviewers:**") 13 (Grp 16 (Star false CAny) ⋯
    ufield (py "**Topic:**") 17 Eps))))%re.
Proof. reflexivity. Qed.


(** ** One field of the parser *)

Lemma NL_is_space c : cls_ok NL c = true → is_space c = true.
Proof.
  simpl. rewrite !orb_true_iff. intros [H|[H|H]]; [| |done];
    apply N.eqb_eq in H; by subst c.
Qed.

Lemma forallb_split {X : Type} (p : X → bool) (v : list X) :
  forallb p v = false → ∃ a x b, v = a ++ x :: b ∧ p x = false.
Proof.
  induction v as [|y v IH]; simpl; [done|].
  destruct (p y) eqn:E; simpl.
  - intros H. destruct (IH H) as (a & x & b & -> & Hx). by exists (y :: a), x, b.
  - intros _. by exists [], y, v.
Qed.

Lemma forallb_any u : forallb (cls_ok CAny) u = true.
Proof. by induction u. Qed.

Section Fields.
Context {A : Type}.
Implicit Types (k : text → caps → option A) (R : regex).

Lemma rmatch_total_caps r k s c c' :
  total k → is_Some (rmatch r k s c) → is_Some (rmatch r k s c').
Proof.
  intros Hk [x H]. apply rmatch_sound in H as (u & v & c'' & -> & Hl & _).
  apply rmatch_complete; [done|]. intros ?. apply Hk.
Qed.

Lemma absorbs_any R k s c x :
  absorbs R k → rmatch R k s c = Some x → ∀ c', is_Some (rmatch R k s c').
Proof. intros HR H c'. apply (HR [] s c c'). eauto. Qed.

Lemma absorbs_Eps k : total k → absorbs Eps k.
Proof. intros Hk z s c c' _. simpl. apply Hk. Qed.

Lemma absorbs_filler R k : total k → absorbs (Star false CAny ⋯ R)%re k.
Proof.
  intros Hk z s c c' [x H].
  apply rmatch_sound in H as (u & v & c'' & -> & (u1 & u2 & -> & H1 & H2) & _).
  replace (z ++ (u1 ++ u2) ++ v) with (((z ++ u1) ++ u2) ++ v)
    by (by rewrite <- !(assoc_L (++))).
  apply rmatch_complete; [|intros ?; apply Hk].
  exists (z ++ u1), u2. split; [done|]. split; [apply forallb_any|done].
Qed.

Lemma absorbs_filler_grp n R k :
  total k → absorbs (Grp n (Star false CAny) ⋯ R)%re k.
Proof.
  intros Hk z s c c' [x H].
  apply rmatch_sound in H as (u & v & c'' & -> & (u1 & u2 & -> & H1 & H2) & _).
  replace (z ++ (u1 ++ u2) ++ v) with (((z ++ u1) ++ u2) ++ v)
    by (by rewrite <- !(assoc_L (++))).
  apply rmatch_complete; [|intros ?; apply Hk].
  exists (z ++ u1), u2. split; [done|]. split; [apply forallb_any|done].
Qed.

(** The end of a line followed by the rest of the pattern. *)
Lemma eol_ok R k e rest c :
  eol e → (∀ c', is_Some (rmatch R k rest c')) →
  is_Some (rmatch (Star true CSpace ⋯ Plus NL ⋯ R)%re k (e ++ rest) c).
Proof.
  intros (w & n & -> & Hw & Hn & Hnl) HR. rewrite <- (assoc_L (++)).
  apply rmatch_seq_complete; [done|]. intros c1.
  apply rmatch_seq_complete; [done|]. done.
Qed.

Lemma eol_inv R k s c x :
  rmatch (Star true CSpace ⋯ Plus NL ⋯ R)%re k s c = Some x →
  ∃ e s', s = e ++ s' ∧ eol e ∧ rmatch R k s' c = Some x.
Proof.
  intros H. apply rmatch_seq_flat in H as (w & s1 & -> & Hw & H); [|done].
  apply rmatch_seq_flat in H as (n & s' & -> & [Hn Hnl] & H); [|done].
  exists (w ++ n), s'. rewrite <- (assoc_L (++)). repeat split; auto.
  by exists w, n.
Qed.

(** What the parser's field segment matches, with the laziness of
    the value group. *)
Lemma pfield_raw L n R k s c x :
  rmatch (pfield L n R) k s c = Some x →
  ∃ v e s', s = L ++ v ++ e ++ s' ∧ eol e
            ∧ rmatch R k s' (<[n := v]> c) = Some x
            ∧ ∀ v' s'', v ++ e ++ s' = v' ++ s'' → (length v' < length v)%nat →
                rmatch (Star true CSpace ⋯ Plus NL ⋯ R)%re k s'' (<[n := v']> c)
                = None.
Proof.
  intros H. unfold pfield in H.
  apply rmatch_seq_flat in H as (l & s0 & -> & -> & H); [|done].
  apply rmatch_seq_grp_lazy in H as (v & s1 & -> & _ & H & Hmin).
  destruct (eol_inv _ _ _ _ _ H) as (e & s' & -> & He & HRx).
  exists v, e, s'. repeat split; auto.
Qed.

(** A lazy value before the end of a line holds no line break and
    does not end with a blank. *)
Lemma lazy_value_clean R k n c v e s' x :
  absorbs R k → eol e →
  rmatch R k s' x = Some c →
  (∀ v' s'', v ++ e ++ s' = v' ++ s'' → (length v' < length v)%nat →
     ¬ is_Some (rmatch (Star true CSpace ⋯ Plus NL ⋯ R)%re k s'' (<[n := v']> (∅ : caps)))) →
  nl_free v ∧ rtrim v.
Proof.
  intros HR He HRx Hmin. split.
  - unfold nl_free. destruct (forallb _ v) eqn:E; [done|].
    apply forallb_split in E as (a & y & b & -> & Hy).
    apply negb_false_iff in Hy. exfalso.
    apply (Hmin a (y :: b ++ e ++ s')).
    + by rewrite <- (assoc_L (++)).
    + rewrite length_app. simpl. lia.
    + apply (rmatch_seq_complete (Star true CSpace) _ _ [] (y :: b ++ e ++ s'));
        [done|]. intros c1.
      apply (rmatch_seq_complete (Plus NL) _ _ [y] (b ++ e ++ s'));
        [split; [done|]; unfold forallb; by rewrite Hy|].
      intros c2. rewrite (assoc_L (++)). apply (HR (b ++ e) s' x c2). eauto.
  - intros a y ->. destruct (is_space y) eqn:Hy; [|done]. exfalso.
    destruct He as (w & nl & -> & Hw & Hn & Hnl).
    apply (Hmin a ((y :: w) ++ nl ++ s')).
    + rewrite <- !(assoc_L (++)). done.
    + rewrite length_app. simpl. lia.
    + apply rmatch_seq_complete;
        [unfold lang; cbn [forallb]; unfold cls_ok at 1; by rewrite Hy|].
      intros c1. apply rmatch_seq_complete; [done|].
      intros c2. apply (HR [] s' x c2). eauto.
Qed.

Lemma pfield_inv L n R k s c x :
  total k → absorbs R k →
  rmatch (pfield L n R) k s c = Some x →
  ∃ v e s', s = L ++ v ++ e ++ s' ∧ nl_free v ∧ rtrim v ∧ eol e
            ∧ rmatch R k s' (<[n := v]> c) = Some x.
Proof.
  intros Hk HR H. apply pfield_raw in H as (v & e & s' & -> & He & H & Hmin).
  exists v, e, s'.
  destruct (lazy_value_clean R k n x v e s' _ HR He H) as [Hn Hr]; [|done].
  intros v' s'' Heq Hlen Hsome.
  apply (rmatch_total_caps _ _ _ _ (<[n := v']> c) Hk) in Hsome.
  rewrite (Hmin v' s'' Heq Hlen) in Hsome. by destruct Hsome.
Qed.

Lemma filler_inv R k s c x :
  rmatch (Star false CAny ⋯ R)%re k s c = Some x →
  ∃ z s', s = z ++ s' ∧ rmatch R k s' c = Some x
          ∧ ∀ z' s'', s = z' ++ s'' → (length z' < length z)%nat →
                      rmatch R k s'' c = None.
Proof.
  intros H. change (star_lazy CAny (λ s', rmatch R k s' c) s = Some x) in H.
  apply star_lazy_spec in H as (z & s' & -> & _ & H & Hmin).
  eauto 10.
Qed.

Lemma pfield_ok L n R k v e rest c :
  eol e → (∀ c', is_Some (rmatch R k rest c')) →
  is_Some (rmatch (pfield L n R) k (L ++ v ++ e ++ rest) c).
Proof.
  intros He HR. unfold pfield.
  apply rmatch_seq_complete; [done|]. intros c1.
  apply rmatch_seq_complete; [apply forallb_any|].
  intros c2. by apply eol_ok.
Qed.
End Fields.

(** ** [str.strip] *)

Lemma lstrip_spec s : ∃ w, s = w ++ lstrip s ∧ blank w ∧ ltrim (lstrip s).
Proof.
  induction s as [|c s (w & IH & Hw & Hl)]; simpl.
  - exists []. repeat split; auto. intros ? ? [=].
  - destruct (is_space c) eqn:E.
    + exists (c :: w). simpl. rewrite <- IH. unfold blank. simpl. rewrite E. auto.
    + exists []. repeat split; auto. intros ? ? [= <- <-]. done.
Qed.

Lemma blank_rev w : blank w → blank (rev w).
Proof.
  unfold blank. rewrite !forallb_forall. intros H x Hx. apply H.
  by apply in_rev.
Qed.

Lemma rstrip_spec s : ∃ w, s = rstrip s ++ w ∧ blank w ∧ rtrim (rstrip s).
Proof.
  unfold rstrip. destruct (lstrip_spec (rev s)) as (w & E & Hw & Hl).
  exists (rev w). repeat split.
  - rewrite <- rev_app_distr, <- E. by rewrite rev_involutive.
  - by apply blank_rev.
  - intros a c Ha. apply (f_equal (@rev N)) in Ha.
    rewrite rev_involutive, rev_app_distr in Ha. simpl in Ha. by apply (Hl _ _ Ha).
Qed.

Lemma strip_spec s :
  ∃ w w', s = w ++ strip s ++ w' ∧ blank w ∧ blank w'
          ∧ ltrim (strip s) ∧ rtrim (strip s).
Proof.
  unfold strip. destruct (lstrip_spec s) as (w & E & Hw & Hl).
  destruct (rstrip_spec (lstrip s)) as (w' & E' & Hw' & Hr).
  exists w, w'. repeat split; auto.
  - by rewrite <- E', <- E.
  - intros c b Hc. rewrite Hc in E'. simpl in E'. by apply (Hl _ _ E').
Qed.

Lemma lstrip_id v : ltrim v → lstrip v = v.
Proof. destruct v as [|c b]; simpl; [done|]. intros H. by rewrite (H c b). Qed.

Lemma strip_id v : ltrim v → rtrim v → strip v = v.
Proof.
  intros Hl Hr. unfold strip, rstrip. rewrite (lstrip_id v Hl).
  rewrite lstrip_id; [apply rev_involutive|].
  intros c b Hc. apply (Hr (rev b) c).
  apply (f_equal (@rev N)) in Hc. rewrite rev_involutive in Hc. by rewrite Hc.
Qed.

Lemma nl_free_app u v : nl_free (u ++ v) ↔ nl_free u ∧ nl_free v.
Proof. unfold nl_free. rewrite forallb_app. apply andb_true_iff. Qed.

Lemma nl_free_strip v : nl_free v → nl_free (strip v).
Proof.
  destruct (strip_spec v) as (w & w' & E & _). rewrite E at 1.
  rewrite !nl_free_app. tauto.
Qed.

Lemma nl_free_elem v : nl_free v ↔ (CR ∉ v) ∧ (LF ∉ v).
Proof.
  unfold nl_free. induction v as [|c v IH]; simpl.
  - split; [|done]. intros _. split; apply not_elem_of_nil.
  - rewrite andb_true_iff, IH, !not_elem_of_cons, negb_true_iff, !orb_false_iff.
    rewrite !N.eqb_neq. unfold CR, LF. intuition congruence.
Qed.

(** ** One field of the updater *)

Lemma app_eq_le {X : Type} (a b c d : list X) :
  a ++ b = c ++ d → (length a ≤ length c)%nat → ∃ r, c = a ++ r ∧ b = r ++ d.
Proof.
  revert c. induction a as [|x a IH]; intros c H Hl; simpl in *.
  - by exists c.
  - destruct c as [|y c]; simpl in *; [lia|].
    injection H as -> H. destruct (IH c H) as (r & -> & ->); [lia|]. by exists r.
Qed.

Lemma app_eq_len {X : Type} (a b c d : list X) :
  a ++ b = c ++ d → length a = length c → a = c ∧ b = d.
Proof.
  intros H Hl. destruct (app_eq_le a b c d H) as (r & -> & ->); [lia|].
  rewrite length_app in Hl. destruct r; simpl in *; [|lia].
  by rewrite (right_id_L [] (++)).
Qed.

Lemma eol_blank e : eol e → blank e.
Proof.
  intros (w & n & -> & Hw & _ & Hn). unfold blank. rewrite forallb_app, Hw.
  simpl. rewrite forallb_forall in *. intros x Hx. apply NL_is_space. by apply Hn.
Qed.

Lemma blank_app u v : blank (u ++ v) ↔ blank u ∧ blank v.
Proof. unfold blank. rewrite forallb_app. apply andb_true_iff. Qed.

(** A blank text cannot reach into a label. *)
Lemma blank_before_label y s x L rest :
  blank y → starts_nonblank L → y ++ s = x ++ L ++ rest →
  (length y ≤ length x)%nat.
Proof.
  intros Hy (c & L' & -> & Hc) Heq.
  destruct (decide (length y ≤ length x)%nat) as [|Hn]; [done|]. exfalso.
  symmetry in Heq.
  destruct (app_eq_le x ((c :: L') ++ rest) y s Heq) as (r & -> & Hr); [lia|].
  destruct r as [|z r].
  - rewrite (right_id_L [] (++)) in Hn. lia.
  - simpl in Hr. injection Hr as <- _.
    apply blank_app in Hy as [_ Hy]. unfold blank in Hy. simpl in Hy.
    by rewrite Hc in Hy.
Qed.

Section UFields.
Context {A : Type}.
Implicit Types (k : text → caps → option A) (R : regex).

(** Patterns with the same language succeed together. *)
Lemma is_Some_lang r r' k s c c' :
  total k → (∀ u v, lang r u v → lang r' u v) →
  is_Some (rmatch r k s c) → is_Some (rmatch r' k s c').
Proof.
  intros Hk Hl [x H]. apply rmatch_sound in H as (u & v & c'' & -> & H & _).
  apply rmatch_complete; [by apply Hl|]. intros ?. apply Hk.
Qed.

Lemma ufield_ok L n R k w v e rest c :
  blank w → eol e → (∀ c', is_Some (rmatch R k rest c')) →
  is_Some (rmatch (ufield L n R) k (L ++ w ++ v ++ e ++ rest) c).
Proof.
  intros Hw He HR. unfold ufield.
  rewrite (assoc_L (++) L w).
  apply rmatch_seq_complete; [by exists L, w|]. intros c1.
  apply rmatch_seq_complete; [apply forallb_any|]. intros c2.
  apply rmatch_seq_complete; [|done].
  destruct He as (w' & n' & -> & Hw' & Hn & Hnl). by exists w', n'.
Qed.

(** What the updater's field segment matches: the blanks after the
    label are all taken, the value holds no line break and has no
    blank at either end. *)
Lemma ufield_inv L n R k s c x :
  total k → absorbs R k →
  rmatch (ufield L n R) k s c = Some x →
  ∃ w v e s', s = L ++ w ++ v ++ e ++ s' ∧ blank w
              ∧ nl_free v ∧ rtrim v ∧ ltrim v ∧ eol e
              ∧ rmatch R k s'
                  (<[S (S n) := e]> (<[S n := v]> (<[n := L ++ w]> c)))
                = Some x.
Proof.
  intros Hk HR H. unfold ufield in H.
  apply rmatch_seq_grp_lit_greedy in H as (w & s0 & -> & Hw & H & Hmax).
  apply rmatch_seq_grp_lazy in H as (v & s1 & -> & _ & H & Hmin).
  apply rmatch_seq_grp in H as (e & s' & -> & He & H); [|done].
  assert (eol e) as He'.
  { destruct He as (w' & n' & -> & Hw' & Hn & Hnl). by exists w', n'. }
  assert (∀ c', is_Some (rmatch R k s' c')) as HRs.
  { intros c'. apply (HR [] s' (<[S (S n) := e]> (<[S n := v]> (<[n := L ++ w]> c))) c').
    eauto. }
  exists w, v, e, s'.
  destruct (lazy_value_clean R k (S n) x v e s' _ HR He' H) as [Hn Hr].
  { intros v' s'' Heq Hlen Hsome.
    apply (is_Some_lang _ (Grp (S (S n)) (Star true CSpace ⋯ Plus NL) ⋯ R)%re
             _ _ _ (<[S n := v']> (<[n := L ++ w]> c)) Hk) in Hsome.
    - rewrite (Hmin v' s'' Heq Hlen) in Hsome. by destruct Hsome.
    - intros u0 v0 (u1 & u2 & -> & H1 & u3 & u4 & -> & H3 & H4).
      exists (u1 ++ u3), u4. split; [by rewrite <- (assoc_L (++))|].
      split; [by exists u1, u3|done]. }
  repeat split; auto.
  intros y b ->. destruct (is_space y) eqn:Hy; [|done]. exfalso.
  assert (is_Some (rmatch (Grp (S n) (Star false CAny) ⋯
                           Grp (S (S n)) (Star true CSpace ⋯ Plus NL) ⋯ R)%re k
                     (b ++ e ++ s') (<[n := L ++ (w ++ [y])]> c))) as [x' Hx'].
  { apply rmatch_seq_complete; [apply forallb_any|]. intros c1.
    apply rmatch_seq_complete; [done|]. done. }
  rewrite (Hmax (w ++ [y]) (b ++ e ++ s')) in Hx'; [done| | |].
  - rewrite <- !(assoc_L (++)). done.
  - rewrite forallb_app, Hw. simpl. by rewrite Hy.
  - rewrite length_app. simpl. lia.
Qed.
End UFields.

Lemma is_Some_total {A B : Type} r (k : text → caps → option A)
    (k' : text → caps → option B) s c c' :
  total k' → is_Some (rmatch r k s c) → is_Some (rmatch r k' s c').
Proof.
  intros Hk [x H]. apply rmatch_sound in H as (u & v & c'' & -> & H & _).
  apply rmatch_complete; [done|]. intros ?. apply Hk.
Qed.

(** An occurrence of the label before its place, spelt out. *)
Lemma label_shift L e0 f p m1 m2 :
  p ++ L ++ m1 = (e0 ++ f) ++ L ++ m2 → (length p < length (e0 ++ f))%nat →
  blank e0 → starts_nonblank L →
  ∃ f' r b, f = f' ++ r ∧ r ≠ [] ∧ r ++ L = L ++ b.
Proof.
  intros Heq Hlen He HL. rewrite <- (assoc_L (++)) in Heq.
  destruct (decide (length e0 ≤ length p)%nat) as [Hle|Hgt].
  - symmetry in Heq.
    destruct (app_eq_le _ _ _ _ Heq Hle) as (f' & -> & Hf).
    rewrite !length_app in Hlen.
    destruct (app_eq_le f' (L ++ m1) f (L ++ m2)) as (r & -> & Hr); [done|lia|].
    rewrite (assoc_L (++)) in Hr.
    destruct (app_eq_le L m1 (r ++ L) m2 Hr) as (b & Hb & _);
      [rewrite length_app; lia|].
    exists f', r, b. repeat split; auto. intros ->.
    rewrite length_app in Hlen. simpl in Hlen. lia.
  - exfalso.
    assert (length (p ++ L) ≤ length e0 ∨ length e0 < length (p ++ L))%nat
      as [Hc|Hc] by lia.
    + pose proof (blank_before_label e0 (f ++ L ++ m2) p L m1 He HL) as Hb.
      rewrite Heq in Hb. specialize (Hb eq_refl). lia.
    + pose proof (blank_before_label e0 (f ++ L ++ m2) p L m1 He HL) as Hb.
      rewrite Heq in Hb. specialize (Hb eq_refl). lia.
Qed.

Section UFiller.
Context {A : Type}.
Implicit Types (k : text → caps → option A) (R : regex).

(** The filler before a label is as short as possible, so the label
    does not occur in it. *)
Lemma ufiller_inv n L n' R k s c x e0 :
  total k → absorbs R k → blank e0 → starts_nonblank L →
  rmatch (Grp n (Star false CAny) ⋯ ufield L n' R)%re k s c = Some x →
  ∃ f s', s = f ++ s' ∧ first_at L (e0 ++ f)
          ∧ rmatch (ufield L n' R) k s' (<[n := f]> c) = Some x.
Proof.
  intros Hk HR He HL H.
  apply rmatch_seq_grp_lazy in H as (f & s' & -> & _ & H & Hmin).
  exists f, s'. repeat split; auto.
  intros p m1 m2 Heq.
  destruct (decide (length (e0 ++ f) ≤ length p)%nat) as [|Hn]; [done|]. exfalso.
  destruct (label_shift L e0 f p m1 m2 Heq) as (f' & r & b & -> & Hr & Hb);
    [lia|done..|].
  destruct (ufield_inv _ _ _ _ _ _ _ Hk HR H)
    as (w & v & e & s'' & -> & Hw & _ & _ & _ & Hel & HRx).
  assert (is_Some (rmatch (ufield L n' R) k (r ++ L ++ w ++ v ++ e ++ s'')
                     (<[n := f']> c))) as [x' Hx'].
  { rewrite (assoc_L (++) r L), Hb, <- (assoc_L (++)).
    replace (b ++ w ++ v ++ e ++ s'') with ([] ++ (b ++ w ++ v) ++ e ++ s'')
      by (by rewrite <- !(assoc_L (++))).
    apply ufield_ok; [done|done|].
    eapply absorbs_any; eassumption. }
  rewrite (Hmin f' (r ++ L ++ w ++ v ++ e ++ s'')) in Hx'; [done| |].
  - by rewrite <- (assoc_L (++)).
  - rewrite length_app. destruct r; [done|]. simpl. lia.
Qed.
End UFiller.

Lemma starts_nonblank_star L : starts_nonblank (42 :: L).
Proof. by exists 42, L. Qed.

(** Every match of the updater's pattern has the shape [header_ok]. *)
Lemma update_match_ok s c rest :
  match_here update_regex false s = Some (c, rest) → header_ok c.
Proof.
  unfold match_here. rewrite update_regex_fields. intros H.
  pose proof (accept_false_total s) as Hk.
  apply ufield_inv in H as (w1 & v1 & e1 & s1 & _ & W1 & N1 & R1 & L1 & E1 & H);
    [|done|by apply absorbs_filler_grp].
  apply (ufiller_inv _ _ _ _ _ _ _ _ e1) in H as (f2 & t2 & _ & F2 & H);
    [|done|by apply absorbs_filler_grp|by apply eol_blank|apply starts_nonblank_star].
  apply ufield_inv in H as (w2 & v2 & e2 & s2 & _ & W2 & N2 & R2 & L2 & E2 & H);
    [|done|by apply absorbs_filler_grp].
  apply (ufiller_inv _ _ _ _ _ _ _ _ e2) in H as (f3 & t3 & _ & F3 & H);
    [|done|by apply absorbs_filler_grp|by apply eol_blank|apply starts_nonblank_star].
  apply ufield_inv in H as (w3 & v3 & e3 & s3 & _ & W3 & N3 & R3 & L3 & E3 & H);
    [|done|by apply absorbs_filler_grp].
  apply (ufiller_inv _ _ _ _ _ _ _ _ e3) in H as (f4 & t4 & _ & F4 & H);
    [|done|by apply absorbs_filler_grp|by apply eol_blank|apply starts_nonblank_star].
  apply ufield_inv in H as (w4 & v4 & e4 & s4 & _ & W4 & N4 & R4 & L4 & E4 & H);
    [|done|by apply absorbs_filler_grp].
  apply (ufiller_inv _ _ _ _ _ _ _ _ e4) in H as (f5 & t5 & _ & F5 & H);
    [|done|by apply absorbs_Eps|by apply eol_blank|apply starts_nonblank_star].
  apply ufield_inv in H as (w5 & v5 & e5 & s5 & _ & W5 & N5 & R5 & L5 & E5 & H);
    [|done|by apply absorbs_Eps].
  apply rmatch_Eps_accept in H. injection H as Hc _.
  assert (group c 1 = py "**Author:**" ++ w1) as G1 by (rewrite Hc; by group_simpl).
  assert (group c 2 = v1) as G2 by (rewrite Hc; by group_simpl).
  assert (group c 3 = e1) as G3 by (rewrite Hc; by group_simpl).
  assert (group c 4 = f2) as G4 by (rewrite Hc; by group_simpl).
  assert (group c 5 = py "**Date:**" ++ w2) as G5 by (rewrite Hc; by group_simpl).
  assert (group c 6 = v2) as G6 by (rewrite Hc; by group_simpl).
  assert (group c 7 = e2) as G7 by (rewrite Hc; by group_simpl).
  assert (group c 8 = f3) as G8 by (rewrite Hc; by group_simpl).
  assert (group c 9 = py "**Status:**" ++ w3) as G9 by (rewrite Hc; by group_simpl).
  assert (group c 10 = v3) as G10 by (rewrite Hc; by group_simpl).
  assert (group c 11 = e3) as G11 by (rewrite Hc; by group_simpl).
  assert (group c 12 = f4) as G12 by (rewrite Hc; by group_simpl).
  assert (group c 13 = py "**Reviewers:**" ++ w4) as G13 by (rewrite Hc; by group_simpl).
  assert (group c 14 = v4) as G14 by (rewrite Hc; by group_simpl).
  assert (group c 15 = e4) as G15 by (rewrite Hc; by group_simpl).
  assert (group c 16 = f5) as G16 by (rewrite Hc; by group_simpl).
  assert (group c 17 = py "**Topic:**" ++ w5) as G17 by (rewrite Hc; by group_simpl).
  assert (group c 18 = v5) as G18 by (rewrite Hc; by group_simpl).
  assert (group c 19 = e5) as G19 by (rewrite Hc; by group_simpl).
  unfold header_ok, field_ok.
  rewrite G1, G2, G3, G4, G5, G6, G7, G8, G9, G10, G11, G12, G13, G14, G15,
    G16, G17, G18, G19.
  repeat split; eauto.
Qed.

(** ** The parser on a text of known shape *)

Lemma update_search_first_at t f :
  search update_regex t = Some f → first_at (py "**Author:**") (f_pre f).
Proof.
  intros Hs. apply search_Some in Hs as (s1 & _ & Hm & Hleft).
  intros p m1 m2 Heq.
  destruct (decide (length (f_pre f) ≤ length p)%nat) as [|Hn]; [done|]. exfalso.
  destruct (label_shift (py "**Author:**") [] (f_pre f) p m1 m2 Heq)
    as (f' & r & b & Hf & Hr & Hb); [simpl; lia|done|apply starts_nonblank_star|].
  unfold match_here in Hm. rewrite update_regex_fields in Hm.
  apply ufield_inv in Hm as (w & v & e & s'' & -> & Hw & _ & _ & _ & He & HRx);
    [|apply accept_false_total|apply absorbs_filler_grp, accept_false_total].
  specialize (Hleft f' r Hf Hr).
  assert (is_Some (match_here update_regex false
                     (r ++ py "**Author:**" ++ w ++ v ++ e ++ s''))) as [x' Hx'];
    [|by rewrite Hleft in Hx'].
  unfold match_here. rewrite update_regex_fields.
  rewrite (assoc_L (++) r), Hb, <- (assoc_L (++)).
  replace (b ++ w ++ v ++ e ++ s'') with ([] ++ (b ++ w ++ v) ++ e ++ s'')
    by (by rewrite <- !(assoc_L (++))).
  apply ufield_ok; [done|done|]. intros c'.
  eapply is_Some_total; [apply accept_false_total|eauto].
Qed.

Lemma nonempty_last {X : Type} (r : list X) : r ≠ [] → ∃ r0 c, r = r0 ++ [c].
Proof.
  intros H. destruct (exists_last H) as (r0 & c & ->). by exists r0, c.
Qed.

Section Shape.
Context {A : Type}.
Implicit Types (k : text → caps → option A) (R : regex).

(** On a text with a clean value, the value group takes exactly the
    value. *)
Lemma pfield_on_value L n R k v e rest c x :
  nl_free v → rtrim v → eol e →
  (∀ c', is_Some (rmatch R k rest c')) →
  rmatch (pfield L n R) k (L ++ v ++ e ++ rest) c = Some x →
  ∃ y s', blank y ∧ y ++ s' = e ++ rest
          ∧ rmatch R k s' (<[n := v]> c) = Some x.
Proof.
  intros Hn Hr He HR H.
  apply pfield_raw in H as (v' & e' & s' & Heq & He' & H & Hmin).
  apply app_inv_head in Heq.
  assert (length v' = length v) as Hlen.
  { destruct (lt_eq_lt_dec (length v') (length v)) as [[Hlt|]|Hgt]; [|done|].
    - exfalso. symmetry in Heq.
      destruct (app_eq_le v' (e' ++ s') v (e ++ rest) Heq) as (r & -> & Hr');
        [lia|].
      assert (r ≠ []) as Hne.
      { intros ->. rewrite length_app in Hlt. simpl in Hlt. lia. }
      destruct He' as (w & nl & -> & Hw & Hnl & Hnls).
      rewrite <- (assoc_L (++)) in Hr'.
      destruct (decide (length r ≤ length w)%nat) as [Hle|Hgt'].
      + symmetry in Hr'.
        destruct (app_eq_le r (e ++ rest) w (nl ++ s') Hr' Hle) as (r2 & -> & _).
        destruct (nonempty_last r Hne) as (r0 & y & ->).
        rewrite !forallb_app in Hw. simpl in Hw.
        rewrite (Hr (v' ++ r0) y) in Hw; [|by rewrite <- (assoc_L (++))].
        rewrite !andb_false_r in Hw. simpl in Hw. done.
      + destruct (app_eq_le w (nl ++ s') r (e ++ rest) Hr') as (r2 & -> & Hr2);
          [lia|].
        destruct nl as [|y nl]; [done|]. destruct r2 as [|y' r2].
        { rewrite (right_id_L [] (++)) in Hgt'. lia. }
        simpl in Hr2. injection Hr2 as -> _.
        simpl in Hnls. apply andb_true_iff in Hnls as [Hy _].
        apply nl_free_app in Hn as [_ Hn]. apply nl_free_app in Hn as [_ Hn].
        unfold nl_free in Hn. simpl in Hn. simpl in Hy. rewrite Hy in Hn. done.
    - exfalso.
      pose proof (eol_ok R k e rest (<[n := v]> c) He HR) as [x' Hx'].
      rewrite (Hmin v (e ++ rest)) in Hx'; [done|by symmetry|done]. }
  symmetry in Heq. destruct (app_eq_len _ _ _ _ Heq Hlen) as [-> Heq'].
  exists e', s'. split; [by apply eol_blank|]. done.
Qed.

(** The filler stops at the first label, which is where the shape has
    it. *)
Lemma filler_on_label L n R k y s x0 rest c x :
  blank y → starts_nonblank L → first_at L x0 →
  y ++ s = x0 ++ L ++ rest →
  is_Some (rmatch (pfield L n R) k (L ++ rest) c) →
  rmatch (Star false CAny ⋯ pfield L n R)%re k s c = Some x →
  rmatch (pfield L n R) k (L ++ rest) c = Some x.
Proof.
  intros Hy HL Hfirst Heq Hok H.
  apply filler_inv in H as (z & s1 & -> & H & Hmin).
  pose proof (blank_before_label y (z ++ s1) x0 L rest Hy HL Heq) as Hle.
  destruct (app_eq_le y (z ++ s1) x0 (L ++ rest) Heq Hle) as (r & -> & Hr).
  destruct (pfield_raw _ _ _ _ _ _ _ H) as (v' & e' & s' & -> & _).
  pose proof (Hfirst (y ++ z) (v' ++ e' ++ s') rest) as Hf.
  rewrite <- !(assoc_L (++)) in Hf. rewrite Hr in Hf. specialize (Hf eq_refl).
  rewrite !length_app in Hf.
  destruct (lt_eq_lt_dec (length r) (length z)) as [[Hlt|Heqlen]|Hgt]; [|clear Hf|lia].
  - destruct Hok as [x' Hx']. rewrite (Hmin r (L ++ rest)) in Hx'; done.
  - symmetry in Hr.
    destruct (app_eq_len _ _ _ _ Hr Heqlen) as [_ ->]. done.
Qed.

Lemma chain_ok L n R k f v e rest :
  eol e → (∀ c', is_Some (rmatch R k rest c')) →
  ∀ c', is_Some (rmatch (Star false CAny ⋯ pfield L n R)%re k
                   (f ++ L ++ v ++ e ++ rest) c').
Proof.
  intros He HR c'. apply rmatch_seq_complete; [apply forallb_any|].
  intros c1. by apply pfield_ok.
Qed.

(** Filler and field together. *)
Lemma chain_step L n R k y s x0 v e rest c x :
  blank y → starts_nonblank L → first_at L x0 →
  nl_free v → rtrim v → eol e →
  (∀ c', is_Some (rmatch R k rest c')) →
  y ++ s = x0 ++ L ++ v ++ e ++ rest →
  rmatch (Star false CAny ⋯ pfield L n R)%re k s c = Some x →
  ∃ y' s', blank y' ∧ y' ++ s' = e ++ rest
           ∧ rmatch R k s' (<[n := v]> c) = Some x.
Proof.
  intros Hy HL Hfirst Hn Hr He HR Heq H.
  apply (filler_on_label L n R k y s x0 (v ++ e ++ rest)) in H; auto.
  - by apply pfield_on_value in H.
  - by apply pfield_ok.
Qed.
End Shape.

Lemma first_at_snoc L x y : first_at L x → first_at (L ++ [y]) x.
Proof.
  intros H p m1 m2 Heq. apply (H p (y :: m1) (y :: m2)).
  by rewrite <- !(assoc_L (++)) in Heq.
Qed.

(** The parser on a header that the updater has matched, with any clean
    values in the five value places: it finds the header at the same
    place and returns those values. *)
Lemma parse_on_header pre c v1 v2 v3 v4 v5 post :
  header_ok c → tight_labels c → first_at (py "**Author:**") pre →
  clean v1 → clean v2 → clean v3 → clean v4 → clean v5 →
  ∃ f, search metadata_regex (pre ++ header_of c v1 v2 v3 v4 v5 ++ post) = Some f
       ∧ f_pre f = pre
       ∧ group (f_caps f) 1 = v1 ∧ group (f_caps f) 2 = v2
       ∧ group (f_caps f) 3 = v3 ∧ group (f_caps f) 4 = v4
       ∧ group (f_caps f) 5 = v5.
Proof.
  intros ((_ & _ & _ & _ & E1) & FD & (_ & _ & _ & _ & E2) & FS
          & (_ & _ & _ & _ & E3) & FR & (_ & _ & _ & _ & E4) & FT
          & (_ & _ & _ & _ & E5)) (T1 & T2 & T3 & T4 & T5)
         FA [N1 R1] [N2 R2] [N3 R3] [N4 R4] [N5 R5].
  unfold header_of. rewrite T1, T2, T3, T4, T5. clear T1 T2 T3 T4 T5.
  generalize dependent (group c 3). intros e1 E1 FD.
  generalize dependent (group c 4). intros f2 FD.
  generalize dependent (group c 7). intros e2 E2 FS.
  generalize dependent (group c 8). intros f3 FS.
  generalize dependent (group c 11). intros e3 E3 FR.
  generalize dependent (group c 12). intros f4 FR.
  generalize dependent (group c 15). intros e4 E4 FT.
  generalize dependent (group c 16). intros f5 FT.
  generalize dependent (group c 19). intros e5 E5.
  rewrite <- !(assoc_L (++)).
  apply (first_at_snoc _ _ SP) in FA, FD, FS, FR, FT.
  change (py "**Author:**" ++ [SP]) with (py "**Author:** ") in FA.
  change (py "**Date:**" ++ [SP]) with (py "**Date:** ") in FD.
  change (py "**Status:**" ++ [SP]) with (py "**Status:** ") in FS.
  change (py "**Reviewers:**" ++ [SP]) with (py "**Reviewers:** ") in FR.
  change (py "**Topic:**" ++ [SP]) with (py "**Topic:** ") in FT.
  assert (∀ k : text → caps → option (caps * text), total k →
            ∀ c', is_Some (rmatch Eps k post c')) as O5
    by (intros k Hk c'; apply Hk).
  assert (∀ k : text → caps → option (caps * text), total k →
            ∀ c', is_Some (rmatch (Star false CAny ⋯ pfield (py "**Topic:** ") 5 Eps)%re k
                             (f5 ++ py "**Topic:** " ++ v5 ++ e5 ++ post) c')) as O4
    by (intros k Hk; apply chain_ok; [done|by apply O5]).
  assert (∀ k : text → caps → option (caps * text), total k →
            ∀ c', is_Some (rmatch (Star false CAny ⋯ pfield (py "**Reviewers:** ") 4 (Star false CAny ⋯ pfield (py "**Topic:** ") 5 Eps)%re)%re k
                             (f4 ++ py "**Reviewers:** " ++ v4 ++ e4 ++ f5 ++ py "**Topic:** " ++ v5 ++ e5 ++ post) c')) as O3
    by (intros k Hk; apply chain_ok; [done|by apply O4]).
  assert (∀ k : text → caps → option (caps * text), total k →
            ∀ c', is_Some (rmatch (Star false CAny ⋯ pfield (py "**Status:** ") 3 (Star false CAny ⋯ pfield (py "**Reviewers:** ") 4 (Star false CAny ⋯ pfield (py "**Topic:** ") 5 Eps)%re)%re)%re k
                             (f3 ++ py "**Status:** " ++ v3 ++ e3 ++ f4 ++ py "**Reviewers:** " ++ v4 ++ e4 ++ f5 ++ py "**Topic:** " ++ v5 ++ e5 ++ post) c')) as O2
    by (intros k Hk; apply chain_ok; [done|by apply O3]).
  assert (∀ k : text → caps → option (caps * text), total k →
            ∀ c', is_Some (rmatch (Star false CAny ⋯ pfield (py "**Date:** ") 2 (Star false CAny ⋯ pfield (py "**Status:** ") 3 (Star false CAny ⋯ pfield (py "**Reviewers:** ") 4 (Star false CAny ⋯ pfield (py "**Topic:** ") 5 Eps)%re)%re)%re)%re k
                             (f2 ++ py "**Date:** " ++ v2 ++ e2 ++ f3 ++ py "**Status:** " ++ v3 ++ e3 ++ f4 ++ py "**Reviewers:** " ++ v4 ++ e4 ++ f5 ++ py "**Topic:** " ++ v5 ++ e5 ++ post) c')) as O1
    by (intros k Hk; apply chain_ok; [done|by apply O2]).
  set (s1 := py "**Author:** " ++ v1 ++ e1 ++ f2 ++ py "**Date:** " ++ v2 ++ e2 ++ f3 ++ py "**Status:** " ++ v3 ++ e3 ++ f4 ++ py "**Reviewers:** " ++ v4 ++ e4 ++ f5 ++ py "**Topic:** " ++ v5 ++ e5 ++ post).
  pose proof (accept_false_total s1) as Hk.
  assert (is_Some (match_here metadata_regex false s1)) as [[c' rest'] Hm].
  { unfold match_here. rewrite metadata_regex_fields.
    apply pfield_ok; [done|]. by apply O1. }
  exists (Found pre c' rest'). split.
  { apply search_intro; [|done]. intros a b Hab Hb.
    destruct (match_here metadata_regex false (b ++ s1)) as [x0|] eqn:E; [|done].
    exfalso. unfold match_here in E. rewrite metadata_regex_fields in E.
    unfold pfield in E.
    apply rmatch_seq_flat in E as (l & s0 & Heq & -> & _); [|done].
    pose proof (FA a s0 (v1 ++ e1 ++ f2 ++ py "**Date:** " ++ v2 ++ e2 ++ f3 ++ py "**Status:** " ++ v3 ++ e3 ++ f4 ++ py "**Reviewers:** " ++ v4 ++ e4 ++ f5 ++ py "**Topic:** " ++ v5 ++ e5 ++ post)) as Hf.
    rewrite <- Heq, (assoc_L (++) a b), <- Hab in Hf. specialize (Hf eq_refl).
    rewrite Hab, length_app in Hf. destruct b; [done|]. simpl in Hf. lia. }
  split; [done|]. simpl.
  unfold match_here in Hm. rewrite metadata_regex_fields in Hm.
  apply pfield_on_value in Hm as (y1 & t1 & B1 & Q1 & Hm);
    [|done|done|done|by apply O1].
  rewrite (assoc_L (++) e1 f2) in Q1.
  apply (chain_step _ _ _ _ y1 t1 (e1 ++ f2) v2 e2 (f3 ++ py "**Status:** " ++ v3 ++ e3 ++ f4 ++ py "**Reviewers:** " ++ v4 ++ e4 ++ f5 ++ py "**Topic:** " ++ v5 ++ e5 ++ post))
    in Hm as (y2 & t2 & B2 & Q2 & Hm);
    [|done|apply starts_nonblank_star|done|done|done|done|by apply O2|done].
  rewrite (assoc_L (++) e2 f3) in Q2.
  apply (chain_step _ _ _ _ y2 t2 (e2 ++ f3) v3 e3 (f4 ++ py "**Reviewers:** " ++ v4 ++ e4 ++ f5 ++ py "**Topic:** " ++ v5 ++ e5 ++ post))
    in Hm as (y3 & t3 & B3 & Q3 & Hm);
    [|done|apply starts_nonblank_star|done|done|done|done|by apply O3|done].
  rewrite (assoc_L (++) e3 f4) in Q3.
  apply (chain_step _ _ _ _ y3 t3 (e3 ++ f4) v4 e4 (f5 ++ py "**Topic:** " ++ v5 ++ e5 ++ post))
    in Hm as (y4 & t4 & B4 & Q4 & Hm);
    [|done|apply starts_nonblank_star|done|done|done|done|by apply O4|done].
  rewrite (assoc_L (++) e4 f5) in Q4.
  apply (chain_step _ _ _ _ y4 t4 (e4 ++ f5) v5 e5 (post))
    in Hm as (y5 & t5 & B5 & Q5 & Hm);
    [|done|apply starts_nonblank_star|done|done|done|done|by apply O5|done].
  apply rmatch_Eps_accept in Hm. injection Hm as -> _.
  repeat split; by group_simpl.
Qed.

(** ** The parser on a text of known layout *)

Lemma get_metadata a d s r tp :
  get (metadata a d s r tp) "author" = a
  ∧ get (metadata a d s r tp) "date" = d
  ∧ get (metadata a d s r tp) "status" = s
  ∧ get (metadata a d s r tp) "reviewers" = r
  ∧ get (metadata a d s r tp) "topic" = tp.
Proof. unfold get, metadata. repeat split; by simplify_map_eq. Qed.

Lemma extract_found t f :
  search metadata_regex t = Some f →
  extract_metadata_from_markdown t
  = metadata (strip (group (f_caps f) 1)) (strip (group (f_caps f) 2))
      (strip (group (f_caps f) 3)) (strip (group (f_caps f) 4))
      (strip (group (f_caps f) 5)).
Proof. unfold extract_metadata_from_markdown. by intros ->. Qed.

Lemma plain_value_clean v : plain_value v → clean v.
Proof.
  intros (_ & Hc & Hl & _ & Hr). split; [|done]. by apply nl_free_elem.
Qed.

(** The parser on a text that is laid out: it finds the header at its
    place and reads the five values. *)
Lemma parse_on_layout pre v1 e1 f2 v2 e2 f3 v3 e3 f4 v4 e4 f5 v5 e5 post :
  first_at (py "**Author:** ") pre → layout_ok e1 f2 e2 f3 e3 f4 e4 f5 e5 →
  clean v1 → clean v2 → clean v3 → clean v4 → clean v5 →
  ∃ f, search metadata_regex
         (pre ++ laid_out v1 e1 f2 v2 e2 f3 v3 e3 f4 v4 e4 f5 v5 e5 ++ post)
       = Some f
       ∧ f_pre f = pre
       ∧ group (f_caps f) 1 = v1 ∧ group (f_caps f) 2 = v2
       ∧ group (f_caps f) 3 = v3 ∧ group (f_caps f) 4 = v4
       ∧ group (f_caps f) 5 = v5.
Proof.
  intros FA (E1 & FD & E2 & FS & E3 & FR & E4 & FT & E5)
         [N1 R1] [N2 R2] [N3 R3] [N4 R4] [N5 R5].
  unfold laid_out. rewrite <- !(assoc_L (++)).
  assert (∀ k : text → caps → option (caps * text), total k →
            ∀ c', is_Some (rmatch Eps k post c')) as O5
    by (intros k Hk c'; apply Hk).
  assert (∀ k : text → caps → option (caps * text), total k →
            ∀ c', is_Some (rmatch (Star false CAny ⋯ pfield (py "**Topic:** ") 5 Eps)%re k
                             (f5 ++ py "**Topic:** " ++ v5 ++ e5 ++ post) c')) as O4
    by (intros k Hk; apply chain_ok; [done|by apply O5]).
  assert (∀ k : text → caps → option (caps * text), total k →
            ∀ c', is_Some (rmatch (Star false CAny ⋯ pfield (py "**Reviewers:** ") 4 (Star false CAny ⋯ pfield (py "**Topic:** ") 5 Eps)%re)%re k
                             (f4 ++ py "**Reviewers:** " ++ v4 ++ e4 ++ f5 ++ py "**Topic:** " ++ v5 ++ e5 ++ post) c')) as O3
    by (intros k Hk; apply chain_ok; [done|by apply O4]).
  assert (∀ k : text → caps → option (caps * text), total k →
            ∀ c', is_Some (rmatch (Star false CAny ⋯ pfield (py "**Status:** ") 3 (Star false CAny ⋯ pfield (py "**Reviewers:** ") 4 (Star false CAny ⋯ pfield (py "**Topic:** ") 5 Eps)%re)%re)%re k
                             (f3 ++ py "**Status:** " ++ v3 ++ e3 ++ f4 ++ py "**Reviewers:** " ++ v4 ++ e4 ++ f5 ++ py "**Topic:** " ++ v5 ++ e5 ++ post) c')) as O2
    by (intros k Hk; apply chain_ok; [done|by apply O3]).
  assert (∀ k : text → caps → option (caps * text), total k →
            ∀ c', is_Some (rmatch (Star false CAny ⋯ pfield (py "**Date:** ") 2 (Star false CAny ⋯ pfield (py "**Status:** ") 3 (Star false CAny ⋯ pfield (py "**Reviewers:** ") 4 (Star false CAny ⋯ pfield (py "**Topic:** ") 5 Eps)%re)%re)%re)%re k
                             (f2 ++ py "**Date:** " ++ v2 ++ e2 ++ f3 ++ py "**Status:** " ++ v3 ++ e3 ++ f4 ++ py "**Reviewers:** " ++ v4 ++ e4 ++ f5 ++ py "**Topic:** " ++ v5 ++ e5 ++ post) c')) as O1
    by (intros k Hk; apply chain_ok; [done|by apply O2]).
  set (s1 := py "**Author:** " ++ v1 ++ e1 ++ f2 ++ py "**Date:** " ++ v2 ++ e2 ++ f3 ++ py "**Status:** " ++ v3 ++ e3 ++ f4 ++ py "**Reviewers:** " ++ v4 ++ e4 ++ f5 ++ py "**Topic:** " ++ v5 ++ e5 ++ post).
  pose proof (accept_false_total s1) as Hk.
  assert (is_Some (match_here metadata_regex false s1)) as [[c' rest'] Hm].
  { unfold match_here. rewrite metadata_regex_fields.
    apply pfield_ok; [done|]. by apply O1. }
  exists (Found pre c' rest'). split.
  { apply search_intro; [|done]. intros a b Hab Hb.
    destruct (match_here metadata_regex false (b ++ s1)) as [x0|] eqn:E; [|done].
    exfalso. unfold match_here in E. rewrite metadata_regex_fields in E.
    unfold pfield in E.
    apply rmatch_seq_flat in E as (l & s0 & Heq & -> & _); [|done].
    pose proof (FA a s0 (v1 ++ e1 ++ f2 ++ py "**Date:** " ++ v2 ++ e2 ++ f3 ++ py "**Status:** " ++ v3 ++ e3 ++ f4 ++ py "**Reviewers:** " ++ v4 ++ e4 ++ f5 ++ py "**Topic:** " ++ v5 ++ e5 ++ post)) as Hf.
    rewrite <- Heq, (assoc_L (++) a b), <- Hab in Hf. specialize (Hf eq_refl).
    rewrite Hab, length_app in Hf. destruct b; [done|]. simpl in Hf. lia. }
  split; [done|]. simpl.
  unfold match_here in Hm. rewrite metadata_regex_fields in Hm.
  apply pfield_on_value in Hm as (y1 & t1 & B1 & Q1 & Hm);
    [|done|done|done|by apply O1].
  rewrite (assoc_L (++) e1 f2) in Q1.
  apply (chain_step _ _ _ _ y1 t1 (e1 ++ f2) v2 e2 (f3 ++ py "**Status:** " ++ v3 ++ e3 ++ f4 ++ py "**Reviewers:** " ++ v4 ++ e4 ++ f5 ++ py "**Topic:** " ++ v5 ++ e5 ++ post))
    in Hm as (y2 & t2 & B2 & Q2 & Hm);
    [|done|apply starts_nonblank_star|done|done|done|done|by apply O2|done].
  rewrite (assoc_L (++) e2 f3) in Q2.
  apply (chain_step _ _ _ _ y2 t2 (e2 ++ f3) v3 e3 (f4 ++ py "**Reviewers:** " ++ v4 ++ e4 ++ f5 ++ py "**Topic:** " ++ v5 ++ e5 ++ post))
    in Hm as (y3 & t3 & B3 & Q3 & Hm);
    [|done|apply starts_nonblank_star|done|done|done|done|by apply O3|done].
  rewrite (assoc_L (++) e3 f4) in Q3.
  apply (chain_step _ _ _ _ y3 t3 (e3 ++ f4) v4 e4 (f5 ++ py "**Topic:** " ++ v5 ++ e5 ++ post))
    in Hm as (y4 & t4 & B4 & Q4 & Hm);
    [|done|apply starts_nonblank_star|done|done|done|done|by apply O4|done].
  rewrite (assoc_L (++) e4 f5) in Q4.
  apply (chain_step _ _ _ _ y4 t4 (e4 ++ f5) v5 e5 (post))
    in Hm as (y5 & t5 & B5 & Q5 & Hm);
    [|done|apply starts_nonblank_star|done|done|done|done|by apply O5|done].
  apply rmatch_Eps_accept in Hm. injection Hm as -> _.
  repeat split; by group_simpl.
Qed.

(** ** The parser on a header of the updater *)

Lemma lstrip_blank_app w s : blank w → lstrip (w ++ s) = lstrip s.
Proof.
  induction w as [|c w IH]; [done|]. unfold blank. simpl.
  intros [Hc Hw]%andb_true_iff. rewrite Hc. by apply IH.
Qed.

(** Blanks of the same line in front of a value belong to the value as
    the parser reads it, and to the end of the line when the value is
    empty; stripped, the value is the same. *)
Lemma respace w v e :
  blank w → nl_free w → clean v → ltrim v → eol e →
  ∃ v' b, (∀ T, w ++ v ++ e ++ T = v' ++ b ++ e ++ T) ∧ clean v' ∧ blank b ∧ eol (b ++ e)
          ∧ strip v' = v.
Proof.
  intros Hw Hn [Nv Rv] Lv He. destruct (decide (v = [])) as [->|Hv].
  - exists [], w. split; [done|]. split; [split; [done|by intros [] c H]|].
    split; [done|]. split; [|done].
    destruct He as (x & n & -> & Hx & Hne & Hnl).
    exists (w ++ x), n. rewrite <- (assoc_L (++)). repeat split; auto.
    by apply blank_app.
  - exists (w ++ v), []. split; [by intros T; rewrite <- (assoc_L (++))|].
    split; [split|split; [done|split; [done|]]].
    + by apply nl_free_app.
    + intros a c Heq. apply nonempty_last in Hv as (v0 & c' & ->).
      rewrite (assoc_L (++)) in Heq. apply app_inj_tail in Heq as [_ <-].
      by apply (Rv v0 c').
    + unfold strip. rewrite (lstrip_blank_app _ _ Hw), (lstrip_id _ Lv).
      fold (strip v). rewrite <- (lstrip_id _ Lv) at 1. fold (strip v).
      by apply strip_id.
Qed.

Lemma first_at_blank_prefix b x L :
  blank b → starts_nonblank L → first_at L x → first_at L (b ++ x).
Proof.
  intros Hb HL Hx p m1 m2 Heq. rewrite <- (assoc_L (++)) in Heq.
  symmetry in Heq.
  pose proof (blank_before_label b (x ++ L ++ m2) p L m1 Hb HL Heq) as Hle.
  destruct (app_eq_le b (x ++ L ++ m2) p (L ++ m1) Heq Hle) as (r & -> & Hr).
  rewrite !length_app. specialize (Hx r m1 m2 (eq_sym Hr)). lia.
Qed.

(** A label group that is spaced holds the label, the space and blanks. *)
Lemma spaced_blank L lab :
  (∃ w, lab = L ++ w ∧ blank w) → spaced L lab →
  ∃ w, lab = (L ++ [SP]) ++ w ∧ blank w ∧ nl_free w.
Proof.
  intros (w0 & E0 & Hb) (w & E & Hn). exists w.
  rewrite <- (assoc_L (++)). split; [done|]. split; [|done].
  rewrite E in E0. apply app_inv_head in E0. rewrite <- E0 in Hb.
  by apply blank_app with (u := [SP]) in Hb as [_ Hb].
Qed.

(** The parser on a header that the updater has matched and whose
    labels are spaced, with clean values that start with no blank in
    the five value places: it returns those values. *)
Lemma parse_on_spaced_header pre c v1 v2 v3 v4 v5 post :
  header_ok c → spaced_labels c → first_at (py "**Author:**") pre →
  clean v1 → ltrim v1 → clean v2 → ltrim v2 → clean v3 → ltrim v3 →
  clean v4 → ltrim v4 → clean v5 → ltrim v5 →
  extract_metadata_from_markdown (pre ++ header_of c v1 v2 v3 v4 v5 ++ post)
  = metadata v1 v2 v3 v4 v5.
Proof.
  intros ((W1 & _ & _ & _ & E1) & FD & (W2 & _ & _ & _ & E2) & FS
          & (W3 & _ & _ & _ & E3) & FR & (W4 & _ & _ & _ & E4) & FT
          & (W5 & _ & _ & _ & E5)) (S1 & S2 & S3 & S4 & S5)
         FA C1 L1 C2 L2 C3 L3 C4 L4 C5 L5.
  destruct (spaced_blank _ _ W1 S1) as (w1 & G1 & B1 & N1).
  destruct (spaced_blank _ _ W2 S2) as (w2 & G2 & B2 & N2).
  destruct (spaced_blank _ _ W3 S3) as (w3 & G3 & B3 & N3).
  destruct (spaced_blank _ _ W4 S4) as (w4 & G4 & B4 & N4).
  destruct (spaced_blank _ _ W5 S5) as (w5 & G5 & B5 & N5).
  unfold header_of. rewrite G1, G2, G3, G4, G5.
  clear W1 W2 W3 W4 W5 S1 S2 S3 S4 S5 G1 G2 G3 G4 G5.
  generalize dependent (group c 3). intros e1 E1 FD.
  generalize dependent (group c 4). intros f2 FD.
  generalize dependent (group c 7). intros e2 E2 FS.
  generalize dependent (group c 8). intros f3 FS.
  generalize dependent (group c 11). intros e3 E3 FR.
  generalize dependent (group c 12). intros f4 FR.
  generalize dependent (group c 15). intros e4 E4 FT.
  generalize dependent (group c 16). intros f5 FT.
  generalize dependent (group c 19). intros e5 E5.
  destruct (respace w1 v1 e1 B1 N1 C1 L1 E1) as (u1 & b1 & Q1 & K1 & Bb1 & Eb1 & T1).
  destruct (respace w2 v2 e2 B2 N2 C2 L2 E2) as (u2 & b2 & Q2 & K2 & Bb2 & Eb2 & T2).
  destruct (respace w3 v3 e3 B3 N3 C3 L3 E3) as (u3 & b3 & Q3 & K3 & Bb3 & Eb3 & T3).
  destruct (respace w4 v4 e4 B4 N4 C4 L4 E4) as (u4 & b4 & Q4 & K4 & Bb4 & Eb4 & T4).
  destruct (respace w5 v5 e5 B5 N5 C5 L5 E5) as (u5 & b5 & Q5 & K5 & Bb5 & Eb5 & T5).
  apply (first_at_snoc _ _ SP) in FA, FD, FS, FR, FT.
  apply (first_at_blank_prefix b1) in FD; [|done|apply starts_nonblank_star].
  apply (first_at_blank_prefix b2) in FS; [|done|apply starts_nonblank_star].
  apply (first_at_blank_prefix b3) in FR; [|done|apply starts_nonblank_star].
  apply (first_at_blank_prefix b4) in FT; [|done|apply starts_nonblank_star].
  rewrite (assoc_L (++) b1) in FD. rewrite (assoc_L (++) b2) in FS.
  rewrite (assoc_L (++) b3) in FR. rewrite (assoc_L (++) b4) in FT.
  assert (layout_ok (b1 ++ e1) f2 (b2 ++ e2) f3 (b3 ++ e3) f4 (b4 ++ e4) f5
            (b5 ++ e5)) as HL.
  { unfold layout_ok. tauto. }
  destruct (parse_on_layout pre u1 (b1 ++ e1) f2 u2 (b2 ++ e2) f3 u3 (b3 ++ e3)
              f4 u4 (b4 ++ e4) f5 u5 (b5 ++ e5) post FA HL K1 K2 K3 K4 K5)
    as (f & Hs & _ & H1 & H2 & H3 & H4 & H5).
  assert (pre ++ (((py "**Author:**" ++ [SP]) ++ w1) ++ v1 ++ e1 ++ f2
                  ++ ((py "**Date:**" ++ [SP]) ++ w2) ++ v2 ++ e2 ++ f3
                  ++ ((py "**Status:**" ++ [SP]) ++ w3) ++ v3 ++ e3 ++ f4
                  ++ ((py "**Reviewers:**" ++ [SP]) ++ w4) ++ v4 ++ e4 ++ f5
                  ++ ((py "**Topic:**" ++ [SP]) ++ w5) ++ v5 ++ e5) ++ post
          = pre ++ laid_out u1 (b1 ++ e1) f2 u2 (b2 ++ e2) f3 u3 (b3 ++ e3) f4
                     u4 (b4 ++ e4) f5 u5 (b5 ++ e5) ++ post) as ->.
  { unfold laid_out. f_equal. rewrite <- !(assoc_L (++)).
    rewrite Q1, Q2, Q3, Q4, Q5. reflexivity. }
  rewrite (extract_found _ _ Hs), H1, H2, H3, H4, H5.
  by rewrite T1, T2, T3, T4, T5.
Qed.

(** ** The parser's values *)

Lemma parse_match_values s c rest :
  match_here metadata_regex false s = Some (c, rest) →
  ∀ i, i ∈ [1; 2; 3; 4; 5]%nat → nl_free (group c i) ∧ rtrim (group c i).
Proof.
  unfold match_here. rewrite metadata_regex_fields. intros H.
  pose proof (accept_false_total s) as Hk.
  apply pfield_inv in H as (v1 & e1 & s1 & _ & N1 & T1 & _ & H);
    [|done|by apply absorbs_filler].
  apply filler_inv in H as (z1 & s1' & _ & H & _).
  apply pfield_inv in H as (v2 & e2 & s2 & _ & N2 & T2 & _ & H);
    [|done|by apply absorbs_filler].
  apply filler_inv in H as (z2 & s2' & _ & H & _).
  apply pfield_inv in H as (v3 & e3 & s3 & _ & N3 & T3 & _ & H);
    [|done|by apply absorbs_filler].
  apply filler_inv in H as (z3 & s3' & _ & H & _).
  apply pfield_inv in H as (v4 & e4 & s4 & _ & N4 & T4 & _ & H);
    [|done|by apply absorbs_filler].
  apply filler_inv in H as (z4 & s4' & _ & H & _).
  apply pfield_inv in H as (v5 & e5 & s5 & _ & N5 & T5 & _ & H);
    [|done|by apply absorbs_Eps].
  apply rmatch_Eps_accept in H. injection H as -> _.
  intros i Hi.
  repeat (apply elem_of_cons in Hi as [->|Hi]); [..|by apply elem_of_nil in Hi];
    by group_simpl.
Qed.

Lemma extract_lookup md_text key v :
  extract_metadata_from_markdown md_text !! key = Some v →
  ∃ f i, search metadata_regex md_text = Some f ∧ i ∈ [1; 2; 3; 4; 5]%nat
         ∧ v = strip (group (f_caps f) i).
Proof.
  unfold extract_metadata_from_markdown.
  destruct (search metadata_regex md_text) as [f|]; [|by rewrite lookup_empty].
  intros H. exists f.
  repeat (apply lookup_insert_Some in H as [[_ <-]|[_ H]];
          [eexists; split; [done|]; split; [|done]; set_solver|]).
  by rewrite lookup_empty in H.
Qed.

(** C9.  Every value that [extract_metadata_from_markdown] returns is a
    single line, without carriage return or line feed, and has no blank
    at either end. *)
Theorem extracted_values_single_line md_text key v :
  extract_metadata_from_markdown md_text !! key = Some v →
  (CR ∉ v) ∧ (LF ∉ v) ∧ ltrim v ∧ rtrim v ∧ strip v = v.
Proof.
  intros H. apply extract_lookup in H as (f & i & Hs & Hi & ->).
  apply search_Some in Hs as (s1 & _ & Hm & _).
  destruct (parse_match_values _ _ _ Hm i Hi) as [Hn _].
  destruct (strip_spec (group (f_caps f) i)) as (w & w' & _ & _ & _ & Hl & Hr).
  rewrite (assoc (∧)). split; [|by auto using strip_id].
  apply nl_free_elem. by apply nl_free_strip.
Qed.

Lemma extracted_values_single_line_witness :
  (CR ∉ py "Jane") ∧ (LF ∉ py "Jane") ∧ ltrim (py "Jane") ∧ rtrim (py "Jane")
  ∧ strip (py "Jane") = py "Jane".
Proof.
  apply (extracted_values_single_line sample "author"). vm_compute. reflexivity.
Defined.

(** ** The updater's frame *)

Lemma plain_values_sample : plain_values sample_metadata.
Proof. repeat split; apply (bool_decide_unpack _); by vm_compute. Qed.

(** C4, as amended.  On a text with a header and for values without a
    backslash, the update leaves everything before the header as it is,
    rewrites inside the header the five value groups and nothing else,
    and treats the text after the header in the same way; where that
    text holds no further header it is left as it is. *)
Theorem update_rewrites_value_spans t m f :
  search update_regex t = Some f → plain_values m →
  t = f_pre f ++ header (f_caps f) ++ f_rest f
  ∧ ∃ rest',
      update_metadata_in_markdown (f_rest f) m = Some rest'
      ∧ update_metadata_in_markdown t m
        = Some (f_pre f
                ++ header_of (f_caps f) (get m "author") (get m "date")
                     (get m "status") (get m "reviewers") (get m "topic")
                ++ rest')
      ∧ (search update_regex (f_rest f) = None → rest' = f_rest f).
Proof.
  intros Hs Hm. destruct (update_unfold t m f Hs Hm) as (Ht & rest' & Hr & Hu).
  split; [done|]. exists rest'. repeat split; auto.
  intros Hn. rewrite (update_no_header _ _ Hn Hm) in Hr. congruence.
Qed.

Lemma update_rewrites_value_spans_witness :
  sample = f_pre sample_found ++ header (f_caps sample_found) ++ f_rest sample_found
  ∧ ∃ rest',
      update_metadata_in_markdown (f_rest sample_found) sample_metadata = Some rest'
      ∧ update_metadata_in_markdown sample sample_metadata
        = Some (f_pre sample_found
                ++ header_of (f_caps sample_found) (py "Ann") (py "2025-05-05")
                     (py "Accepted") (py "Cy, Di") (py "Y")
                ++ rest')
      ∧ (search update_regex (f_rest sample_found) = None
         → rest' = f_rest sample_found).
Proof.
  apply (update_rewrites_value_spans sample sample_metadata sample_found).
  - vm_compute. reflexivity.
  - exact plain_values_sample.
Defined.

(** C4 as the specification words it fails: [re.sub] replaces every
    match, so a second header after the first one is rewritten too. *)
Lemma update_rewrites_later_headers :
  ¬ (∀ t m f, search update_regex t = Some f →
       update_metadata_in_markdown t m
       = Some (f_pre f
               ++ header_of (f_caps f) (get m "author") (get m "date")
                    (get m "status") (get m "reviewers") (get m "topic")
               ++ f_rest f)).
Proof.
  intros H.
  specialize (H sample_twice sample_metadata
                (default (Found [] ∅ []) (search update_regex sample_twice))).
  assert (search update_regex sample_twice
          = Some (default (Found [] ∅ []) (search update_regex sample_twice))) as E
    by (vm_compute; reflexivity).
  specialize (H E). vm_compute in H. discriminate H.
Qed.

(** ** Missing keys *)





(** The update of the scenario's header with the author and the topic
    only: the three other values are gone. *)
Lemma partial_update_blanks_the_rest :
  update_metadata_in_markdown sample sample_partial
  = Some (line "**Author:** Ann" ++ line "**Date:** " ++ line "**Status:** "
          ++ line "**Reviewers:** " ++ line "**Topic:** Y").
Proof. vm_compute. reflexivity. Qed.


(** ** The two patterns side by side *)









(** ** Round trips *)

Lemma plain_value_b_ok v : plain_value_b v = true → plain_value v.
Proof.
  unfold plain_value_b, plain_value. rewrite !andb_true_iff.
  intros [[Hall Hhd] Hlast].
  assert (∀ x, x ∈ v → x ≠ BSL ∧ x ≠ CR ∧ x ≠ LF) as Hx.
  { intros x Hin. rewrite forallb_forall in Hall.
    apply list_elem_of_In in Hin. specialize (Hall x Hin).
    rewrite !andb_true_iff, !negb_true_iff, !N.eqb_neq in Hall. tauto. }
  repeat split.
  - intros Hin. by destruct (Hx _ Hin) as (? & ? & ?).
  - intros Hin. by destruct (Hx _ Hin) as (? & ? & ?).
  - intros Hin. by destruct (Hx _ Hin) as (? & ? & ?).
  - intros c b ->. by apply negb_true_iff in Hhd.
  - intros a c ->. rewrite last_snoc in Hlast. by apply negb_true_iff in Hlast.
Qed.

Lemma tight_labels_sample : tight_labels (f_caps sample_found).
Proof. by vm_compute. Qed.

Lemma spaced_labels_wide : spaced_labels (f_caps wide_found).
Proof.
  unfold spaced_labels, spaced.
  refine (conj (ex_intro _ [SP] _) (conj (ex_intro _ [9] _)
         (conj (ex_intro _ [] _) (conj (ex_intro _ [SP; SP] _)
               (ex_intro _ [] _))))); by vm_compute.
Qed.

(** C1, as amended.  If in the header that the updater matches every
    label is followed by a space and then, up to the value, by blanks
    of the same line only, and the five new values hold no backslash
    and no line break and have no blank at either end, then the update
    succeeds and parsing its result returns the five values. *)
Theorem parse_after_update t f a d s r tp :
  search update_regex t = Some f → spaced_labels (f_caps f) →
  plain_value a → plain_value d → plain_value s → plain_value r →
  plain_value tp →
  ∃ t', update_metadata_in_markdown t (metadata a d s r tp) = Some t'
        ∧ extract_metadata_from_markdown t' = metadata a d s r tp.
Proof.
  intros Hs Ht Pa Pd Ps Pr Ptp.
  destruct (get_metadata a d s r tp) as (Ga & Gd & Gs & Gr & Gtp).
  assert (plain_values (metadata a d s r tp)) as Hm.
  { unfold plain_values. rewrite Ga, Gd, Gs, Gr, Gtp.
    unfold plain_value in *. tauto. }
  destruct (update_unfold t _ f Hs Hm) as (_ & rest' & _ & Hu).
  rewrite Ga, Gd, Gs, Gr, Gtp in Hu.
  eexists. split; [exact Hu|].
  pose proof (update_search_first_at t f Hs) as FA.
  destruct (search_Some _ _ _ Hs) as (s1 & _ & Hhere & _).
  apply update_match_ok in Hhere.
  apply parse_on_spaced_header; try done;
    try (by apply plain_value_clean); unfold plain_value in *; tauto.
Qed.

(** C2, as amended.  If in the header that the updater matches every
    label is followed by a space and then, up to the value, by blanks
    of the same line only, and the five values in the text hold no
    backslash, then writing the parsed values back returns the text as
    it was exactly when it leaves the text after that header as it
    was; this is so whenever no second header follows. *)
Theorem update_with_parsed_values t f :
  search update_regex t = Some f → spaced_labels (f_caps f) →
  (BSL ∉ group (f_caps f) 2) → (BSL ∉ group (f_caps f) 6) →
  (BSL ∉ group (f_caps f) 10) → (BSL ∉ group (f_caps f) 14) →
  (BSL ∉ group (f_caps f) 18) →
  (update_metadata_in_markdown t (extract_metadata_from_markdown t) = Some t
   ↔ update_metadata_in_markdown (f_rest f) (extract_metadata_from_markdown t)
     = Some (f_rest f))
  ∧ (search update_regex (f_rest f) = None →
     update_metadata_in_markdown t (extract_metadata_from_markdown t) = Some t).
Proof.
  intros Hs Ht B1 B2 B3 B4 B5.
  pose proof (update_search_first_at t f Hs) as FA.
  destruct (search_Some _ _ _ Hs) as (s1 & _ & Hhere & _).
  apply update_match_ok in Hhere.
  pose proof Hhere as ((_ & N1 & R1 & L1 & _) & _ & (_ & N2 & R2 & L2 & _) & _
                       & (_ & N3 & R3 & L3 & _) & _ & (_ & N4 & R4 & L4 & _) & _
                       & (_ & N5 & R5 & L5 & _)).
  set (m := metadata (group (f_caps f) 2) (group (f_caps f) 6)
              (group (f_caps f) 10) (group (f_caps f) 14) (group (f_caps f) 18)).
  destruct (get_metadata (group (f_caps f) 2) (group (f_caps f) 6)
              (group (f_caps f) 10) (group (f_caps f) 14) (group (f_caps f) 18))
    as (Ga & Gd & Gs & Gr & Gtp). fold m in Ga, Gd, Gs, Gr, Gtp.
  assert (plain_values m) as Hm.
  { unfold plain_values. by rewrite Ga, Gd, Gs, Gr, Gtp. }
  destruct (update_unfold t m f Hs Hm) as (Htx & rest' & Hr & Hu).
  rewrite Ga, Gd, Gs, Gr, Gtp in Hu. fold (header (f_caps f)) in Hu.
  assert (extract_metadata_from_markdown t = m) as ->.
  { rewrite Htx at 1. unfold header. by apply parse_on_spaced_header. }
  assert (update_metadata_in_markdown t m = Some t
          ↔ update_metadata_in_markdown (f_rest f) m = Some (f_rest f)) as Hiff.
  { rewrite Hu, Hr. split.
    - intros [= Heq]. rewrite Htx in Heq.
      do 2 apply app_inv_head in Heq. by rewrite Heq.
    - intros [= ->]. by rewrite <- Htx. }
  split; [done|]. intros Hn. apply Hiff. by apply update_no_header.
Qed.

Lemma parse_after_update_witness :
  ∃ t', update_metadata_in_markdown sample_wide sample_metadata = Some t'
        ∧ extract_metadata_from_markdown t' = sample_metadata.
Proof.
  apply (parse_after_update sample_wide wide_found (py "Ann") (py "2025-05-05")
           (py "Accepted") (py "Cy, Di") (py "Y")).
  - vm_compute. reflexivity.
  - exact spaced_labels_wide.
  - apply plain_value_b_ok. vm_compute. reflexivity.
  - apply plain_value_b_ok. vm_compute. reflexivity.
  - apply plain_value_b_ok. vm_compute. reflexivity.
  - apply plain_value_b_ok. vm_compute. reflexivity.
  - apply plain_value_b_ok. vm_compute. reflexivity.
Defined.

Lemma update_with_parsed_values_witness :
  (update_metadata_in_markdown sample_wide
     (extract_metadata_from_markdown sample_wide) = Some sample_wide
   ↔ update_metadata_in_markdown (f_rest wide_found)
       (extract_metadata_from_markdown sample_wide)
     = Some (f_rest wide_found))
  ∧ (search update_regex (f_rest wide_found) = None →
     update_metadata_in_markdown sample_wide
       (extract_metadata_from_markdown sample_wide) = Some sample_wide).
Proof.
  apply (update_with_parsed_values sample_wide wide_found).
  - vm_compute. reflexivity.
  - exact spaced_labels_wide.
  - apply (bool_decide_unpack _). by vm_compute.
  - apply (bool_decide_unpack _). by vm_compute.
  - apply (bool_decide_unpack _). by vm_compute.
  - apply (bool_decide_unpack _). by vm_compute.
  - apply (bool_decide_unpack _). by vm_compute.
Defined.

(** The header with the wide labels comes back byte for byte, and so
    does a text with two headers that hold the same values. *)
Lemma wide_and_twice_come_back :
  update_metadata_in_markdown sample_wide
    (extract_metadata_from_markdown sample_wide) = Some sample_wide
  ∧ update_metadata_in_markdown sample_twice
      (extract_metadata_from_markdown sample_twice) = Some sample_twice.
Proof. split; vm_compute; reflexivity. Qed.

(** C1 as the specification words it fails: the parser strips blanks,
    so a value that ends with a blank does not come back.  The other
    three parts show why the amended statement has its conditions: with
    values as it wants them the round trip still fails behind a label
    that has no blank after it (the parser reads the next author line),
    and behind a label whose blank is followed by a line break (the
    parser reads an empty author); and on a header as it wants it a
    value with a backslash makes the update raise. *)
Lemma parse_after_update_fails :
  ¬ (∀ t a d s r tp, search metadata_regex t ≠ None →
       ∃ t', update_metadata_in_markdown t (metadata a d s r tp) = Some t'
             ∧ extract_metadata_from_markdown t' = metadata a d s r tp)
  ∧ ¬ (∀ t a d s r tp, search metadata_regex t ≠ None →
         plain_value a → plain_value d → plain_value s → plain_value r →
         plain_value tp →
         ∃ t', update_metadata_in_markdown t (metadata a d s r tp) = Some t'
               ∧ extract_metadata_from_markdown t' = metadata a d s r tp)
  ∧ ¬ (∀ t f a d s r tp, search update_regex t = Some f →
         space_after_labels (f_caps f) →
         plain_value a → plain_value d → plain_value s → plain_value r →
         plain_value tp →
         ∃ t', update_metadata_in_markdown t (metadata a d s r tp) = Some t'
               ∧ extract_metadata_from_markdown t' = metadata a d s r tp)
  ∧ ¬ (∀ t f a d s r tp, search update_regex t = Some f →
         spaced_labels (f_caps f) →
         clean a ∧ ltrim a → clean d ∧ ltrim d → clean s ∧ ltrim s →
         clean r ∧ ltrim r → clean tp ∧ ltrim tp →
         ∃ t', update_metadata_in_markdown t (metadata a d s r tp) = Some t'
               ∧ extract_metadata_from_markdown t' = metadata a d s r tp).
Proof.
  assert (∀ v, nl_free v →
               match last v with Some c => is_space c | None => false end
               = false →
               match v with c :: _ => is_space c | [] => false end = false →
               clean v ∧ ltrim v) as Hc.
  { intros v Hn Hl Hh. split; [split; [done|]|].
    - intros a c ->. by rewrite last_snoc in Hl.
    - by intros c b ->. }
  split; [|split; [|split]]; intros H.
  - destruct (H sample (py "Jane ") (py "2024-01-01") (py "Draft") (py "Bob")
                (py "X")) as (t' & Hu & He).
    { vm_compute. discriminate. }
    vm_compute in Hu. injection Hu as <-.
    apply (f_equal (λ m : gmap string text, m !! "author")) in He.
    vm_compute in He. discriminate He.
  - destruct (H sample_after_note (py "Ann") (py "2025-05-05") (py "Accepted")
                (py "Cy, Di") (py "Y")) as (t' & Hu & He);
      try (apply plain_value_b_ok; vm_compute; reflexivity).
    { vm_compute. discriminate. }
    vm_compute in Hu. injection Hu as <-.
    apply (f_equal (λ m : gmap string text, m !! "author")) in He.
    vm_compute in He. discriminate He.
  - destruct (H sample_broken
                (default (Found [] ∅ []) (search update_regex sample_broken))
                (py "Ann") (py "2025-05-05") (py "Accepted")
                (py "Cy, Di") (py "Y")) as (t' & Hu & He);
      try (apply plain_value_b_ok; vm_compute; reflexivity).
    { vm_compute. reflexivity. }
    { unfold space_after_labels.
      refine (conj (ex_intro _ [LF] _) (conj (ex_intro _ [] _)
             (conj (ex_intro _ [] _) (conj (ex_intro _ [] _)
                   (ex_intro _ [] _))))); by vm_compute. }
    vm_compute in Hu. injection Hu as <-.
    apply (f_equal (λ m : gmap string text, m !! "author")) in He.
    vm_compute in He. discriminate He.
  - destruct (H sample sample_found (py "C:\docs") (py "2025-05-05")
                (py "Accepted") (py "Cy, Di") (py "Y")) as (t' & Hu & He);
      try (apply Hc; vm_compute; reflexivity).
    { vm_compute. reflexivity. }
    { unfold spaced_labels, spaced.
      refine (conj (ex_intro _ [] _) (conj (ex_intro _ [] _)
             (conj (ex_intro _ [] _) (conj (ex_intro _ [] _)
                   (ex_intro _ [] _))))); by vm_compute. }
    vm_compute in Hu. discriminate Hu.
Qed.

(** C2 as the specification words it fails: the parser reads the first
    header, the updater writes its values into every header.  The
    other three parts show why the amended statement has its
    conditions: without a second header the text still changes behind
    a label that has no blank after it (the values of the next author
    line are written in), and behind a label whose blank is followed
    by a line break (an empty author is written in); and on a single
    header as it wants it a value with a backslash makes the update
    raise. *)
Lemma update_with_parsed_values_fails :
  ¬ (∀ t, search metadata_regex t ≠ None →
       update_metadata_in_markdown t (extract_metadata_from_markdown t) = Some t)
  ∧ ¬ (∀ t f, search metadata_regex t ≠ None →
         search update_regex t = Some f →
         search update_regex (f_rest f) = None →
         (BSL ∉ group (f_caps f) 2) → (BSL ∉ group (f_caps f) 6) →
         (BSL ∉ group (f_caps f) 10) → (BSL ∉ group (f_caps f) 14) →
         (BSL ∉ group (f_caps f) 18) →
         update_metadata_in_markdown t (extract_metadata_from_markdown t)
         = Some t)
  ∧ ¬ (∀ t f, search update_regex t = Some f →
         space_after_labels (f_caps f) →
         search update_regex (f_rest f) = None →
         (BSL ∉ group (f_caps f) 2) → (BSL ∉ group (f_caps f) 6) →
         (BSL ∉ group (f_caps f) 10) → (BSL ∉ group (f_caps f) 14) →
         (BSL ∉ group (f_caps f) 18) →
         update_metadata_in_markdown t (extract_metadata_from_markdown t)
         = Some t)
  ∧ ¬ (∀ t f, search update_regex t = Some f → spaced_labels (f_caps f) →
         search update_regex (f_rest f) = None →
         update_metadata_in_markdown t (extract_metadata_from_markdown t)
         = Some t).
Proof.
  split; [|split; [|split]]; intros H.
  - specialize (H sample_pair).
    assert (search metadata_regex sample_pair ≠ None) as Hs
      by (vm_compute; discriminate).
    specialize (H Hs). vm_compute in H. discriminate H.
  - specialize (H sample_after_note
                  (default (Found [] ∅ []) (search update_regex sample_after_note))).
    assert (update_metadata_in_markdown sample_after_note
              (extract_metadata_from_markdown sample_after_note)
            = Some sample_after_note) as E.
    { apply H; try (apply (bool_decide_unpack _); by vm_compute);
        vm_compute; (reflexivity || discriminate). }
    vm_compute in E. discriminate E.
  - specialize (H sample_broken
                  (default (Found [] ∅ []) (search update_regex sample_broken))).
    assert (update_metadata_in_markdown sample_broken
              (extract_metadata_from_markdown sample_broken)
            = Some sample_broken) as E.
    { apply H; try (apply (bool_decide_unpack _); by vm_compute);
        try (vm_compute; reflexivity).
      unfold space_after_labels.
      refine (conj (ex_intro _ [LF] _) (conj (ex_intro _ [] _)
             (conj (ex_intro _ [] _) (conj (ex_intro _ [] _)
                   (ex_intro _ [] _))))); by vm_compute. }
    vm_compute in E. discriminate E.
  - specialize (H sample_path
                  (default (Found [] ∅ []) (search update_regex sample_path))).
    assert (update_metadata_in_markdown sample_path
              (extract_metadata_from_markdown sample_path)
            = Some sample_path) as E.
    { apply H.
      - vm_compute. reflexivity.
      - unfold spaced_labels, spaced.
        refine (conj (ex_intro _ [] _) (conj (ex_intro _ [] _)
               (conj (ex_intro _ [] _) (conj (ex_intro _ [] _)
                     (ex_intro _ [] _))))); by vm_compute.
      - vm_compute. reflexivity. }
    vm_compute in E. discriminate E.
Qed.

(** ** The fenced block *)

Lemma rstrip_snoc u y : is_space y = true → rstrip (u ++ [y]) = rstrip u.
Proof. unfold rstrip. rewrite rev_app_distr. simpl. by intros ->. Qed.

Lemma lstrip_snoc u y :
  is_space y = true →
  lstrip (u ++ [y]) = lstrip u ++ [y] ∨ (lstrip (u ++ [y]) = [] ∧ lstrip u = []).
Proof.
  intros Hy. induction u as [|c u IH]; simpl.
  - rewrite Hy. by right.
  - destruct (is_space c); [done|]. by left.
Qed.

Lemma strip_snoc_blank u y : is_space y = true → strip (u ++ [y]) = strip u.
Proof.
  intros Hy. unfold strip.
  destruct (lstrip_snoc u y Hy) as [-> | [-> ->]]; [by apply rstrip_snoc|done].
Qed.

(** The lazy group stops where [until_close] stops, or one line feed
    earlier when the reply ends with a line feed: [$] matches before it. *)
Lemma until_close_spec u v :
  (∀ u' v', u ++ v = u' ++ v' → (length u' < length u)%nat →
            strip_prefix fence v' = None) →
  is_Some (strip_prefix fence v) ∨ at_end v = true →
  until_close (u ++ v) = u ∨ until_close (u ++ v) = u ++ [LF].
Proof.
  intros Hmin Hv. induction u as [|c u IH]; simpl.
  - destruct Hv as [[s' Hs]|Hv].
    + left. destruct v; simpl in *; by rewrite ?Hs.
    + destruct v as [|y [|z v]]; simpl in *; [by left| |done].
      apply N.eqb_eq in Hv as ->. by right.
  - pose proof (Hmin [] (c :: u ++ v) eq_refl) as H0. simpl in H0.
    change (until_close (c :: u ++ v))
      with (match strip_prefix fence (c :: u ++ v) with
            | Some _ => []
            | None => c :: until_close (u ++ v)
            end).
    rewrite H0 by lia.
    destruct IH as [-> | ->]; [|by left|by right].
    intros u' v' Heq Hlen. apply (Hmin (c :: u') v'); simpl; [by rewrite Heq|lia].
Qed.

Lemma rmatch_seq_lit {A : Type} l R (k : text → caps → option A) s c :
  rmatch (Lit l ⋯ R)%re k s c
  = match strip_prefix l s with
    | Some s' => rmatch R k s' c
    | None => None
    end.
Proof. simpl. by destruct (strip_prefix l s). Qed.

Lemma rmatch_seq_liti {A : Type} lower l R (k : text → caps → option A) s c :
  rmatch (LitI lower l ⋯ R)%re k s c
  = match strip_prefix_i lower l s with
    | Some s' => rmatch R k s' c
    | None => None
    end.
Proof. simpl. by destruct (strip_prefix_i lower l s). Qed.

Section MermaidProofs.
Variable lower : N → N.

Lemma mermaid_tail {A : Type} (k : text → caps → option A) body c x :
  total k →
  rmatch (Grp 1 (Star false CAny) ⋯ Grp 2 (Alt (Lit fence) Eos) ⋯ Eps)%re
    k body c = Some x →
  ∃ u g2 rest,
    k rest (<[2%nat := g2]> (<[1%nat := u]> c)) = Some x
    ∧ (until_close body = u ∨ until_close body = u ++ [LF]).
Proof.
  intros Hk H.
  apply rmatch_seq_grp_lazy in H as (u & v & -> & _ & H & Hmin).
  apply rmatch_seq_grp in H as (g2 & rest & -> & Hl & H); [|done].
  exists u, g2, rest. split; [done|].
  apply until_close_spec.
  - intros u' v' Heq Hlen. specialize (Hmin u' v' Heq Hlen).
    destruct (strip_prefix fence v') as [s'|] eqn:E; [|done]. exfalso.
    apply strip_prefix_Some in E as ->.
    assert (is_Some (rmatch (Grp 2 (Alt (Lit fence) Eos) ⋯ Eps)%re k
                       (fence ++ s') (<[1%nat := u']> c))) as [x' Hx'].
    { apply rmatch_seq_complete; [by left|]. intros c'. apply Hk. }
    by rewrite Hmin in Hx'.
  - destruct Hl as [-> | [-> He]]; [left|by right].
    rewrite strip_prefix_app. eauto.
Qed.

Lemma match_here_mermaid s :
  match opens lower s with
  | Some body =>
      ∃ c rest, match_here (mermaid_regex lower) false s = Some (c, rest)
                ∧ strip (group c 1) = strip (until_close body)
  | None => match_here (mermaid_regex lower) false s = None
  end.
Proof.
  unfold opens, match_here, mermaid_regex. rewrite rmatch_seq_lit.
  destruct (strip_prefix fence s) as [s1|]; [|done].
  rewrite rmatch_seq_liti.
  destruct (strip_prefix_i lower mermaid_letters s1) as [body|]; [|done].
  pose proof (accept_false_total s) as Hk.
  assert (is_Some (rmatch (Grp 1 (Star false CAny) ⋯
                           Grp 2 (Alt (Lit fence) Eos) ⋯ Eps)%re
                     (accept false s) body ∅)) as [[c rest] H].
  { rewrite <- (right_id_L [] (++) body).
    apply rmatch_seq_complete; [apply forallb_any|]. intros c1.
    apply (rmatch_seq_complete _ _ _ [] []); [by right|]. intros c2. apply Hk. }
  exists c, rest. split; [done|].
  apply mermaid_tail in H as (u & g2 & rest' & H & Hu); [|done].
  unfold accept in H. simpl in H. injection H as <- _.
  rewrite group_insert_ne, group_insert_ne, group_insert by lia.
  destruct Hu as [-> | ->]; [done|]. by rewrite strip_snoc_blank.
Qed.

Lemma search_mermaid s :
  match find_fence lower s with
  | Some body =>
      ∃ f, search (mermaid_regex lower) s = Some f
           ∧ strip (group (f_caps f) 1) = strip (until_close body)
  | None => search (mermaid_regex lower) s = None
  end.
Proof.
  unfold search. induction s as [|x s IH].
  - pose proof (match_here_mermaid []) as H. rewrite search_adv_nil.
    change (find_fence lower []) with
      (match opens lower [] with Some body => Some body | None => None end).
    destruct (opens lower []) as [body|].
    + destruct H as (c & rest & -> & Hc). by exists (Found [] c rest).
    + by rewrite H.
  - pose proof (match_here_mermaid (x :: s)) as H.
    change (find_fence lower (x :: s))
      with (match opens lower (x :: s) with
            | Some body => Some body
            | None => find_fence lower s
            end).
    rewrite search_adv_cons.
    destruct (opens lower (x :: s)) as [body|].
    + destruct H as (c & rest & -> & Hc). by exists (Found [] c rest).
    + rewrite H. destruct (find_fence lower s) as [body|].
      * destruct IH as (f & -> & Hf). by eexists.
      * by rewrite IH.
Qed.

Lemma extract_mermaid_code_block response :
  extract_mermaid_code lower response = mermaid_block lower response.
Proof.
  unfold extract_mermaid_code, mermaid_block.
  pose proof (search_mermaid response) as H.
  destruct (find_fence lower response) as [body|].
  - by destruct H as (f & -> & Hf).
  - by rewrite H.
Qed.
End MermaidProofs.


(** ** UTF-8 decoding *)

Ltac lia_div := zify; Z.to_euclidean_division_equations; lia.

Ltac split_tests :=
  repeat match goal with
    | |- context [?a <? ?b] => destruct (N.ltb_spec a b)
    | |- context [?a <=? ?b] => destruct (N.leb_spec a b)
    | |- context [?a =? ?b] => destruct (N.eqb_spec a b)
    end.

Lemma shiftl_6 x : N.shiftl x 6 = x * 64.
Proof. by rewrite N.shiftl_mul_pow2. Qed.
Lemma shiftl_12 x : N.shiftl x 12 = x * 4096.
Proof. by rewrite N.shiftl_mul_pow2. Qed.
Lemma shiftl_18 x : N.shiftl x 18 = x * 262144.
Proof. by rewrite N.shiftl_mul_pow2. Qed.

Lemma is_cont_range b : is_cont b = true ↔ 128 ≤ b < 192.
Proof. unfold is_cont. rewrite andb_true_iff, N.leb_le, N.ltb_lt. done. Qed.

Lemma encode_2 ch ch2 :
  194 ≤ ch < 224 → 128 ≤ ch2 < 192 →
  utf8_encode_char (N.shiftl ch 6 + ch2 - 12416) = [ch; ch2].
Proof.
  intros H1 H2. rewrite shiftl_6. unfold utf8_encode_char.
  split_tests; try lia. f_equal; [|f_equal]; lia_div.
Qed.

Lemma encode_3 ch ch2 ch3 :
  224 ≤ ch < 240 → 128 ≤ ch2 < 192 → 128 ≤ ch3 < 192 →
  (ch = 224 → 160 ≤ ch2) →
  utf8_encode_char (N.shiftl ch 12 + N.shiftl ch2 6 + ch3 - 925824)
  = [ch; ch2; ch3].
Proof.
  intros H1 H2 H3 H4. rewrite shiftl_6, shiftl_12. unfold utf8_encode_char.
  split_tests; try lia. f_equal; [|f_equal; [|f_equal]]; lia_div.
Qed.

Lemma encode_4 ch ch2 ch3 ch4 :
  240 ≤ ch < 245 → 128 ≤ ch2 < 192 → 128 ≤ ch3 < 192 → 128 ≤ ch4 < 192 →
  (ch = 240 → 144 ≤ ch2) →
  utf8_encode_char (N.shiftl ch 18 + N.shiftl ch2 12 + N.shiftl ch3 6 + ch4
                    - 63447168)
  = [ch; ch2; ch3; ch4].
Proof.
  intros H1 H2 H3 H4 H5. rewrite shiftl_6, shiftl_12, shiftl_18.
  unfold utf8_encode_char.
  split_tests; try lia. f_equal; [|f_equal; [|f_equal; [|f_equal]]]; lia_div.
Qed.

Lemma utf8_encode_cons c s : utf8_encode (c :: s) = utf8_encode_char c ++ utf8_encode s.
Proof. done. Qed.

Lemma encode_1 ch : ch < 128 → utf8_encode_char ch = [ch].
Proof. intros H. unfold utf8_encode_char. split_tests; (done || lia). Qed.

(** With [errors="ignore"] the decoder never raises, and what it returns
    is the text whose encoding is left when the invalid bytes are
    deleted from the input. *)
Lemma utf8_ignore_spec b :
  ∃ s, utf8_decode Ignore b = Some s ∧ utf8_encode s `sublist_of` b.
Proof.
  induction b as [b IH] using (induction_ltof1 _ (@length N)). unfold ltof in IH.
  destruct b as [|ch s1]; [exists []; split; [done|constructor]|].
  assert (∀ pre b', pre ++ b' = ch :: s1 → pre ≠ [] →
            ∃ s, utf8_decode Ignore b' = Some s
                 ∧ utf8_encode s `sublist_of` (ch :: s1)) as Hdrop.
  { intros pre b' Hpre Hne. destruct (IH b') as (s & Hs & Hsub).
    - rewrite <- Hpre, length_app. destruct pre; [done|]. simpl. lia.
    - exists s. split; [done|]. rewrite <- Hpre. by apply sublist_inserts_l. }
  assert (∀ pre b' c, pre ++ b' = ch :: s1 → utf8_encode_char c = pre → pre ≠ [] →
            ∃ s, cons c <$> utf8_decode Ignore b' = Some s
                 ∧ utf8_encode s `sublist_of` (ch :: s1)) as Hkeep.
  { intros pre b' c Hpre Hc Hne. destruct (IH b') as (s & Hs & Hsub).
    - rewrite <- Hpre, length_app. destruct pre; [done|]. simpl. lia.
    - exists (c :: s). rewrite Hs. split; [done|].
      rewrite utf8_encode_cons, Hc, <- Hpre. by apply sublist_app. }
  assert (∃ s, Some [] = Some s ∧ utf8_encode s `sublist_of` (ch :: s1)) as Hend.
  { exists []. split; [done|]. apply sublist_nil_l. }
  change (utf8_decode Ignore (ch :: s1)) with
    (if ch <? 128 then cons ch <$> utf8_decode Ignore s1
     else if ch <? 194 then utf8_decode Ignore s1
     else if ch <? 224 then
       match s1 with
       | [] => Some []
       | ch2 :: s2 =>
           if is_cont ch2 then
             cons (N.shiftl ch 6 + ch2 - 12416) <$> utf8_decode Ignore s2
           else utf8_decode Ignore s1
       end
     else if ch <? 240 then
       match s1 with
       | [] => Some []
       | ch2 :: s2 =>
           if negb (is_cont ch2) || (if ch2 <? 160 then ch =? 224 else ch =? 237)
           then utf8_decode Ignore s1
           else
             match s2 with
             | [] => Some []
             | ch3 :: s3 =>
                 if is_cont ch3 then
                   cons (N.shiftl ch 12 + N.shiftl ch2 6 + ch3 - 925824)
                     <$> utf8_decode Ignore s3
                 else utf8_decode Ignore s2
             end
       end
     else if ch <? 245 then
       match s1 with
       | [] => Some []
       | ch2 :: s2 =>
           if negb (is_cont ch2) || (if ch2 <? 144 then ch =? 240 else ch =? 244)
           then utf8_decode Ignore s1
           else
             match s2 with
             | [] => Some []
             | ch3 :: s3 =>
                 if negb (is_cont ch3) then utf8_decode Ignore s2
                 else
                   match s3 with
                   | [] => Some []
                   | ch4 :: s4 =>
                       if is_cont ch4 then
                         cons (N.shiftl ch 18 + N.shiftl ch2 12
                               + N.shiftl ch3 6 + ch4 - 63447168)
                           <$> utf8_decode Ignore s4
                       else utf8_decode Ignore s3
                   end
             end
       end
     else utf8_decode Ignore s1).
  destruct (N.ltb_spec ch 128) as [H128|H128].
  { apply (Hkeep [ch] s1); [done|by apply encode_1|done]. }
  destruct (N.ltb_spec ch 194) as [H194|H194].
  { by apply (Hdrop [ch] s1). }
  destruct (N.ltb_spec ch 224) as [H224|H224].
  { destruct s1 as [|ch2 s2]; [done|].
    destruct (is_cont ch2) eqn:C2; [|by apply (Hdrop [ch])].
    apply is_cont_range in C2.
    apply (Hkeep [ch; ch2] s2); [done|by apply encode_2|done]. }
  destruct (N.ltb_spec ch 240) as [H240|H240].
  { destruct s1 as [|ch2 s2]; [done|].
    destruct (is_cont ch2) eqn:C2; [|by apply (Hdrop [ch])].
    apply is_cont_range in C2. cbn [negb orb].
    destruct (if ch2 <? 160 then ch =? 224 else ch =? 237) eqn:T;
      [by apply (Hdrop [ch])|].
    destruct s2 as [|ch3 s3]; [done|].
    destruct (is_cont ch3) eqn:C3; [|by apply (Hdrop [ch; ch2])].
    apply is_cont_range in C3.
    apply (Hkeep [ch; ch2; ch3] s3); [done| |done].
    apply encode_3; try done. intros ->.
    destruct (N.ltb_spec ch2 160); [done|lia]. }
  destruct (N.ltb_spec ch 245) as [H245|H245]; [|by apply (Hdrop [ch])].
  destruct s1 as [|ch2 s2]; [done|].
  destruct (is_cont ch2) eqn:C2; [|by apply (Hdrop [ch])].
  apply is_cont_range in C2. cbn [negb orb].
  destruct (if ch2 <? 144 then ch =? 240 else ch =? 244) eqn:T;
    [by apply (Hdrop [ch])|].
  destruct s2 as [|ch3 s3]; [done|].
  destruct (is_cont ch3) eqn:C3; [|by apply (Hdrop [ch; ch2])].
  apply is_cont_range in C3. cbn [negb].
  destruct s3 as [|ch4 s4]; [done|].
  destruct (is_cont ch4) eqn:C4; [|by apply (Hdrop [ch; ch2; ch3])].
  apply is_cont_range in C4.
  apply (Hkeep [ch; ch2; ch3; ch4] s4); [done| |done].
  apply encode_4; try done. intros ->.
  destruct (N.ltb_spec ch2 144); [done|lia].
Qed.

Lemma utf8_decode_unfold e ch s1 :
  utf8_decode e (ch :: s1)
  = if ch <? 128 then cons ch <$> utf8_decode e s1
    else if ch <? 194 then on_error e (utf8_decode e s1)
    else if ch <? 224 then
      match s1 with
      | [] => on_error e (Some [])
      | ch2 :: s2 =>
          if is_cont ch2 then
            cons (N.shiftl ch 6 + ch2 - 12416) <$> utf8_decode e s2
          else on_error e (utf8_decode e s1)
      end
    else if ch <? 240 then
      match s1 with
      | [] => on_error e (Some [])
      | ch2 :: s2 =>
          if negb (is_cont ch2) || (if ch2 <? 160 then ch =? 224 else ch =? 237)
          then on_error e (utf8_decode e s1)
          else
            match s2 with
            | [] => on_error e (Some [])
            | ch3 :: s3 =>
                if is_cont ch3 then
                  cons (N.shiftl ch 12 + N.shiftl ch2 6 + ch3 - 925824)
                    <$> utf8_decode e s3
                else on_error e (utf8_decode e s2)
            end
      end
    else if ch <? 245 then
      match s1 with
      | [] => on_error e (Some [])
      | ch2 :: s2 =>
          if negb (is_cont ch2) || (if ch2 <? 144 then ch =? 240 else ch =? 244)
          then on_error e (utf8_decode e s1)
          else
            match s2 with
            | [] => on_error e (Some [])
            | ch3 :: s3 =>
                if negb (is_cont ch3) then on_error e (utf8_decode e s2)
                else
                  match s3 with
                  | [] => on_error e (Some [])
                  | ch4 :: s4 =>
                      if is_cont ch4 then
                        cons (N.shiftl ch 18 + N.shiftl ch2 12
                              + N.shiftl ch3 6 + ch4 - 63447168)
                          <$> utf8_decode e s4
                      else on_error e (utf8_decode e s3)
                  end
            end
      end
    else on_error e (utf8_decode e s1).
Proof. done. Qed.

Ltac ltb_false a b :=
  replace (a <? b) with false by (symmetry; apply N.ltb_ge; lia_div).
Ltac ltb_true a b :=
  replace (a <? b) with true by (symmetry; apply N.ltb_lt; lia_div).
Ltac cont_true a :=
  replace (is_cont a) with true by (symmetry; apply is_cont_range; lia_div).

(** Decoding reads back one encoded scalar value, whatever the error
    handler. *)
Lemma decode_encode_char e c rest :
  is_scalar c →
  utf8_decode e (utf8_encode_char c ++ rest) = cons c <$> utf8_decode e rest.
Proof.
  intros Hc. unfold is_scalar in Hc. unfold utf8_encode_char.
  destruct (N.ltb_spec c 128) as [H1|H1].
  { simpl app. rewrite utf8_decode_unfold. by ltb_true c 128. }
  destruct (N.ltb_spec c 2048) as [H2|H2].
  { simpl app. rewrite utf8_decode_unfold. cbv beta iota.
    ltb_false (192 + c / 64) 128. ltb_false (192 + c / 64) 194.
    ltb_true (192 + c / 64) 224. cont_true (128 + c mod 64).
    do 2 f_equal. rewrite shiftl_6. lia_div. }
  destruct (N.ltb_spec c 65536) as [H3|H3].
  { simpl app. rewrite utf8_decode_unfold. cbv beta iota.
    ltb_false (224 + c / 4096) 128. ltb_false (224 + c / 4096) 194.
    ltb_false (224 + c / 4096) 224. ltb_true (224 + c / 4096) 240.
    cont_true (128 + (c / 64) mod 64). cont_true (128 + c mod 64).
    replace (if 128 + (c / 64) mod 64 <? 160 then 224 + c / 4096 =? 224
             else 224 + c / 4096 =? 237) with false.
    - cbn [negb orb]. do 2 f_equal. rewrite shiftl_6, shiftl_12. lia_div.
    - symmetry. destruct (N.ltb_spec (128 + (c / 64) mod 64) 160);
        apply N.eqb_neq; lia_div. }
  simpl app. rewrite utf8_decode_unfold. cbv beta iota.
  ltb_false (240 + c / 262144) 128. ltb_false (240 + c / 262144) 194.
  ltb_false (240 + c / 262144) 224. ltb_false (240 + c / 262144) 240.
  ltb_true (240 + c / 262144) 245.
  cont_true (128 + (c / 4096) mod 64). cont_true (128 + (c / 64) mod 64).
  cont_true (128 + c mod 64).
  replace (if 128 + (c / 4096) mod 64 <? 144 then 240 + c / 262144 =? 240
           else 240 + c / 262144 =? 244) with false.
  - cbn [negb orb]. do 2 f_equal. rewrite shiftl_6, shiftl_12, shiftl_18. lia_div.
  - symmetry. destruct (N.ltb_spec (128 + (c / 4096) mod 64) 144);
      apply N.eqb_neq; lia_div.
Qed.

Lemma decode_encode e s :
  Forall is_scalar s → utf8_decode e (utf8_encode s) = Some s.
Proof.
  induction 1 as [|c s Hc Hs IH]; [done|].
  rewrite utf8_encode_cons, decode_encode_char, IH; done.
Qed.

Section FilesProofs.
Variable str_lower : text → text.
Variables has_docx has_pypdf2 has_fitz : bool.
Variable docx_paragraphs : list N → option (list text).
Variable pdf_page_texts : list N → option (list text).
Variable docx_images : list N → option (list (list N)).
Variable pdf_images : list N → option (list (list N)).

Local Abbreviation text_of :=
  (extract_text_from_file str_lower has_docx has_pypdf2
     docx_paragraphs pdf_page_texts).
Local Abbreviation images_of :=
  (extract_images_from_file str_lower has_docx has_pypdf2 has_fitz
     docx_images pdf_images).

(** C8, as amended.  For a file name whose lower-cased extension is md
    or txt the bytes are decoded as UTF-8 with [errors="ignore"]: the
    call never raises, invalid byte sequences are dropped and not
    replaced (the result encodes to the input with some bytes
    deleted), and a valid encoding is decoded to the text it encodes. *)
Theorem text_files_decode_ignoring file_bytes file_name :
  extension str_lower file_name ∈ [py "md"; py "txt"] →
  ∃ s, text_of file_bytes file_name = Some s
       ∧ utf8_decode Ignore file_bytes = Some s
       ∧ utf8_encode s `sublist_of` file_bytes
       ∧ (∀ s0, Forall is_scalar s0 → file_bytes = utf8_encode s0 → s = s0).
Proof.
  intros Hext. destruct (utf8_ignore_spec file_bytes) as (s & Hs & Hsub).
  exists s. unfold extract_text_from_file.
  rewrite (bool_decide_eq_true_2 _ Hext). repeat split; auto.
  intros s0 Hs0 ->. rewrite (decode_encode Ignore s0 Hs0) in Hs. congruence.
Qed.

(** What of C5 holds and what does not.  Reading the text never
    raises, and a reader that fails on a docx or pdf file leaves the
    sentinel; reading the images has no handler, so the same failure
    leaves the function as an exception. *)
Theorem image_extraction_raises file_bytes file_name :
  is_Some (text_of file_bytes file_name)
  ∧ (extension str_lower file_name = py "docx" → has_docx = true →
     docx_paragraphs file_bytes = None → docx_images file_bytes = None →
     text_of file_bytes file_name = Some (py "[Could not extract text from DOCX]")
     ∧ images_of file_bytes file_name = None)
  ∧ (extension str_lower file_name = py "pdf" → has_pypdf2 = true →
     has_fitz = true →
     pdf_page_texts file_bytes = None → pdf_images file_bytes = None →
     text_of file_bytes file_name = Some (py "[Could not extract text from PDF]")
     ∧ images_of file_bytes file_name = None).
Proof.
  split; [|split].
  - unfold extract_text_from_file.
    destruct (utf8_ignore_spec file_bytes) as (s & -> & _).
    repeat case_match; eauto.
  - intros Hext Hd Hp Hi.
    unfold extract_text_from_file, extract_images_from_file,
      extract_images_from_docx.
    rewrite Hext, Hd, Hp, Hi. by vm_compute.
  - intros Hext Hd Hf Hp Hi.
    unfold extract_text_from_file, extract_images_from_file,
      extract_images_from_pdf.
    rewrite Hext, Hd, Hf, Hp, Hi. destruct has_docx; by vm_compute.
Qed.
End FilesProofs.

Lemma text_files_decode_ignoring_witness :
  ∃ s, extract_text_from_file ascii_lower true true reader_fails reader_fails
         [65; 255; 66] (py "Notes.MD") = Some s
       ∧ utf8_decode Ignore [65; 255; 66] = Some s
       ∧ utf8_encode s `sublist_of` [65; 255; 66]
       ∧ (∀ s0, Forall is_scalar s0 → [65; 255; 66] = utf8_encode s0 → s = s0).
Proof.
  apply (text_files_decode_ignoring ascii_lower true true reader_fails reader_fails).
  apply (bool_decide_unpack _). by vm_compute.
Defined.

(** C8 as the specification words it fails: an invalid byte is dropped,
    it is not replaced by U+FFFD. *)
Lemma text_files_drop_invalid_bytes :
  ¬ (∀ str_lower has_docx has_pypdf2 docx_paragraphs pdf_page_texts
       file_bytes file_name,
       extension str_lower file_name ∈ [py "md"; py "txt"] →
       extract_text_from_file str_lower has_docx has_pypdf2
         docx_paragraphs pdf_page_texts file_bytes file_name
       = utf8_decode Replace file_bytes).
Proof.
  intros H.
  specialize (H ascii_lower true true reader_fails reader_fails
                [65; 255; 66] (py "notes.md")).
  assert (extension ascii_lower (py "notes.md") ∈ [py "md"; py "txt"]) as Hext
    by (apply (bool_decide_unpack _); by vm_compute).
  specialize (H Hext). vm_compute in H. discriminate H.
Qed.

Lemma image_extraction_raises_witness :
  extract_text_from_file ascii_lower true true reader_fails reader_fails
    [80; 75; 0] (py "report.docx")
  = Some (py "[Could not extract text from DOCX]")
  ∧ extract_images_from_file ascii_lower true true true reader_fails reader_fails
      [80; 75; 0] (py "report.docx") = None.
Proof.
  destruct (image_extraction_raises ascii_lower true true true
              reader_fails reader_fails reader_fails reader_fails
              [80; 75; 0] (py "report.docx")) as (_ & H & _).
  apply H; reflexivity.
Defined.

(** ** The mermaid.live URL *)

Section UrlProofs.
Variable urlparse : text → option url_parts.
Variable parse_qs : text → option (gmap text (list text)).
Variable unquote : text → option text.

Local Abbreviation code_of :=
  (extract_mermaid_from_mermaid_url urlparse parse_qs unquote).

(** C6, as amended.  With a fragment the result is the unquoted
    fragment; without one it is the unquoted first value of the [graph]
    parameter as [parse_qs] returns it, and the unquoted empty string
    when there is no such parameter; when the body of the [try] raises
    the result is the sentinel; and the sentinel is the result in these
    two cases only: the body raises, or it does not raise and the text
    it decodes is the text of the sentinel. *)
Theorem mermaid_url_code_cases url :
  (∀ u code, urlparse url = Some u → fragment u ≠ [] →
     unquote (fragment u) = Some code → code_of url = code)
  ∧ (∀ u qs v l code, urlparse url = Some u → fragment u = [] →
       parse_qs (query u) = Some qs → qs !! py "graph" = Some (v :: l) →
       unquote v = Some code → code_of url = code)
  ∧ (∀ u qs code, urlparse url = Some u → fragment u = [] →
       parse_qs (query u) = Some qs → qs !! py "graph" = None →
       unquote [] = Some code → code_of url = code)
  ∧ (mermaid_url_code urlparse parse_qs unquote url = None →
     code_of url = url_sentinel)
  ∧ (code_of url = url_sentinel →
     mermaid_url_code urlparse parse_qs unquote url = None
     ∨ mermaid_url_code urlparse parse_qs unquote url = Some url_sentinel).
Proof.
  unfold extract_mermaid_from_mermaid_url, mermaid_url_code.
  repeat split.
  - intros u code -> Hf Hu. simpl. by rewrite (bool_decide_eq_true_2 _ Hf), Hu.
  - intros u qs v l code -> Hf Hq Hg Hu. simpl.
    rewrite bool_decide_eq_false_2 by (by intros []).
    rewrite Hq. simpl. rewrite Hg. simpl. by rewrite Hu.
  - intros u qs code -> Hf Hq Hg Hu. simpl.
    rewrite bool_decide_eq_false_2 by (by intros []).
    rewrite Hq. simpl. rewrite Hg. simpl. by rewrite Hu.
  - by intros ->.
  - destruct (urlparse url ≫= _) eqn:E; [|by left]. intros ->. by right.
Qed.
End UrlProofs.

Lemma mermaid_url_code_cases_witness :
  extract_mermaid_from_mermaid_url py_urlparse py_parse_qs py_unquote
    (py "https://mermaid.live/edit#pako:eJyr")
  = py "pako:eJyr".
Proof.
  destruct (mermaid_url_code_cases py_urlparse py_parse_qs py_unquote
              (py "https://mermaid.live/edit#pako:eJyr")) as (H & _).
  apply (H (UrlParts (py "pako:eJyr") [])); [reflexivity|discriminate|reflexivity].
Defined.

(** C6 as the specification words it fails: a URL with neither fragment
    nor [graph] parameter yields the empty string, not the sentinel. *)
Lemma mermaid_url_without_code_is_empty :
  ¬ (∀ urlparse parse_qs unquote url u qs,
       urlparse url = Some u → fragment u = [] →
       parse_qs (query u) = Some qs → qs !! py "graph" = None →
       extract_mermaid_from_mermaid_url urlparse parse_qs unquote url
       = url_sentinel).
Proof.
  intros H.
  specialize (H py_urlparse py_parse_qs py_unquote (py "https://mermaid.live/edit")
                (UrlParts [] []) ∅).
  assert (extract_mermaid_from_mermaid_url py_urlparse py_parse_qs py_unquote
            (py "https://mermaid.live/edit") = []) as E by (vm_compute; reflexivity).
  rewrite E in H. discriminate H; reflexivity.
Qed.

(** The sentinel without an exception: a fragment that spells it. *)
Lemma mermaid_url_sentinel_as_code :
  mermaid_url_code py_urlparse py_parse_qs py_unquote
    (py "https://mermaid.live/edit#%5BCould%20not%20extract%20mermaid%20code%20from%20URL%5D")
  = Some url_sentinel.
Proof. vm_compute. reflexivity. Qed.

(** ** More on reading files *)

Lemma split_on_nosep sep e : sep ∉ e → split_on sep e = [e].
Proof.
  induction e as [|c e IH]; [done|]. intros Hc.
  apply not_elem_of_cons in Hc as [Hc He]. simpl.
  assert ((c =? sep) = false) as -> by (apply N.eqb_neq; congruence).
  by rewrite (IH He).
Qed.

Lemma split_on_last_nodot sep a e :
  sep ∉ e → last (split_on sep (a ++ sep :: e)) = Some e.
Proof.
  intros He.
  assert (∃ h l, split_on sep (a ++ sep :: e) = h :: l ++ [e]) as (h & l & ->).
  { induction a as [|c a (h & l & IH)]; simpl.
    - rewrite N.eqb_refl, (split_on_nosep _ _ He). by exists [], [].
    - rewrite IH. destruct (c =? sep).
      + by exists [], (h :: l).
      + by exists (c :: h), l. }
  by rewrite app_comm_cons, last_snoc.
Qed.

Lemma split_on_app sep p s :
  sep ∉ p → split_on sep (p ++ sep :: s) = p :: split_on sep s.
Proof.
  induction p as [|c p IH]; simpl; intros Hp.
  - by rewrite N.eqb_refl.
  - apply not_elem_of_cons in Hp as [Hc Hp].
    assert ((c =? sep) = false) as -> by (apply N.eqb_neq; congruence).
    by rewrite (IH Hp).
Qed.

Lemma split_on_join sep ps :
  ps ≠ [] → Forall (λ p, sep ∉ p) ps → split_on sep (join [sep] ps) = ps.
Proof.
  intros Hne Hall. induction Hall as [|p ps Hp Hps IH]; [done|].
  destruct ps as [|q ps].
  - simpl. by apply split_on_nosep.
  - change (join [sep] (p :: q :: ps)) with (p ++ sep :: join [sep] (q :: ps)).
    rewrite (split_on_app _ _ _ Hp), IH; done.
Qed.

Section MoreFiles.
Variable str_lower : text → text.
Variables has_docx has_pypdf2 has_fitz : bool.
Variable docx_paragraphs : list N → option (list text).
Variable pdf_page_texts : list N → option (list text).
Variable docx_images : list N → option (list (list N)).
Variable pdf_images : list N → option (list (list N)).

Local Abbreviation text_of :=
  (extract_text_from_file str_lower has_docx has_pypdf2
     docx_paragraphs pdf_page_texts).
Local Abbreviation images_of :=
  (extract_images_from_file str_lower has_docx has_pypdf2 has_fitz
     docx_images pdf_images).

(** X1.  The reader is chosen by the text after the last dot of the
    lower-cased name, and by the whole lower-cased name when it has no
    dot: a file called "md" is read as Markdown. *)
Theorem extension_after_last_dot file_name :
  (∀ a e, str_lower file_name = a ++ [46] ++ e → 46 ∉ e →
          extension str_lower file_name = e)
  ∧ (46 ∉ str_lower file_name →
     extension str_lower file_name = str_lower file_name).
Proof.
  unfold extension. split.
  - intros a e -> He. simpl. by rewrite split_on_last_nodot.
  - intros H. by rewrite split_on_nosep.
Qed.

(** X2.  Outside the two reader branches the bytes are decoded as UTF-8
    with the invalid sequences dropped, whatever the extension; this
    covers a docx or pdf file whose library is missing.  The decoding
    never raises, so the text "[Unsupported file type or unreadable
    content]" of the last handler is never produced by it. *)
Theorem other_files_are_decoded file_bytes file_name :
  (extension str_lower file_name = py "docx" → has_docx = false) →
  (extension str_lower file_name = py "pdf" → has_pypdf2 = false) →
  ∃ s, text_of file_bytes file_name = Some s
       ∧ utf8_decode Ignore file_bytes = Some s
       ∧ utf8_encode s `sublist_of` file_bytes.
Proof.
  intros Hd Hp. destruct (utf8_ignore_spec file_bytes) as (s & Hs & Hsub).
  exists s. split; [|done]. unfold extract_text_from_file. rewrite Hs.
  case_bool_decide; [done|].
  case_bool_decide as E1.
  { rewrite (Hd E1). simpl. by case_bool_decide as E2; [rewrite (Hp E2)|]. }
  simpl. by case_bool_decide as E2; [rewrite (Hp E2)|].
Qed.

(** X3.  The text of a Word file is its paragraphs joined by line
    feeds: when no paragraph holds a line feed, splitting the text at
    the line feeds gives the paragraphs back. *)
Theorem docx_text_splits_into_paragraphs file_bytes file_name paragraphs :
  extension str_lower file_name = py "docx" → has_docx = true →
  docx_paragraphs file_bytes = Some paragraphs →
  paragraphs ≠ [] → Forall (λ p, LF ∉ p) paragraphs →
  ∃ t, text_of file_bytes file_name = Some t ∧ split_on LF t = paragraphs.
Proof.
  intros Hext Hd Hp Hne Hall. exists (join [LF] paragraphs).
  split; [|by apply split_on_join].
  unfold extract_text_from_file. rewrite Hext, Hd, Hp. done.
Qed.

(** X4.  Reading the images raises only where a reader raises: on a
    docx file with python-docx present, or on a pdf file with PyPDF2 and
    fitz present.  Every other call returns a list. *)
Theorem images_raise_only_in_a_reader file_bytes file_name :
  images_of file_bytes file_name = None →
  (extension str_lower file_name = py "docx" ∧ has_docx = true
   ∧ docx_images file_bytes = None)
  ∨ (extension str_lower file_name = py "pdf" ∧ has_pypdf2 = true
     ∧ has_fitz = true ∧ pdf_images file_bytes = None).
Proof.
  unfold extract_images_from_file, extract_images_from_docx,
    extract_images_from_pdf.
  case_bool_decide as E1.
  { destruct has_docx; [|done]. simpl. auto. }
  case_bool_decide as E2.
  { destruct has_pypdf2; [|done]. destruct has_fitz; [|done]. simpl. auto. }
  by case_bool_decide.
Qed.
End MoreFiles.

Lemma extension_after_last_dot_witness :
  extension ascii_lower (py "Notes.v2.MD") = py "md"
  ∧ extension ascii_lower (py "md") = py "md".
Proof.
  destruct (extension_after_last_dot ascii_lower (py "Notes.v2.MD")) as [H _].
  destruct (extension_after_last_dot ascii_lower (py "md")) as [_ H'].
  split.
  - apply (H (py "notes.v2")); [reflexivity|]. apply (bool_decide_unpack _).
    by vm_compute.
  - apply H'. apply (bool_decide_unpack _). by vm_compute.
Defined.

Lemma other_files_are_decoded_witness :
  ∃ s, extract_text_from_file ascii_lower false true reader_fails reader_fails
         [80; 75; 255] (py "report.docx") = Some s
       ∧ utf8_decode Ignore [80; 75; 255] = Some s
       ∧ utf8_encode s `sublist_of` [80; 75; 255].
Proof.
  apply (other_files_are_decoded ascii_lower false true reader_fails reader_fails).
  - reflexivity.
  - vm_compute. discriminate.
Defined.

Lemma docx_text_splits_into_paragraphs_witness :
  ∃ t, extract_text_from_file ascii_lower true true
         (λ _, Some [py "one"; []; py "two"]) reader_fails [80; 75]
         (py "a.docx") = Some t
       ∧ split_on LF t = [py "one"; []; py "two"].
Proof.
  apply (docx_text_splits_into_paragraphs ascii_lower true true
           (λ _, Some [py "one"; []; py "two"]) reader_fails).
  - vm_compute. reflexivity.
  - reflexivity.
  - reflexivity.
  - discriminate.
  - repeat constructor; apply (bool_decide_unpack _); by vm_compute.
Defined.

Lemma images_raise_only_in_a_reader_witness :
  (extension ascii_lower (py "report.docx") = py "docx" ∧ true = true
   ∧ @reader_fails (list (list N)) [80; 75; 0] = None)
  ∨ (extension ascii_lower (py "report.docx") = py "pdf" ∧ true = true
     ∧ true = true ∧ @reader_fails (list (list N)) [80; 75; 0] = None).
Proof.
  apply (images_raise_only_in_a_reader ascii_lower true true true
           reader_fails reader_fails).
  vm_compute. reflexivity.
Defined.

(** ** More on the fenced block *)

Lemma occurs_app l a s b : occurs l s → occurs l (a ++ s ++ b).
Proof.
  intros (x & y & ->). exists (a ++ x), (y ++ b).
  by rewrite <- !(assoc_L (++)).
Qed.

Lemma occurs_strip l s : occurs l (strip s) → occurs l s.
Proof.
  intros H. destruct (strip_spec s) as (w & w' & E & _).
  rewrite E. by apply occurs_app.
Qed.

Lemma occurs_cons l c s : occurs l s → occurs l (c :: s).
Proof. intros (x & y & ->). by exists (c :: x), y. Qed.

Lemma strip_strip s : strip (strip s) = strip s.
Proof.
  destruct (strip_spec s) as (w & w' & _ & _ & _ & Hl & Hr). by apply strip_id.
Qed.

Lemma strip_prefix_more l s s' z :
  strip_prefix l s = Some s' → strip_prefix l (s ++ z) = Some (s' ++ z).
Proof.
  intros H. apply strip_prefix_Some in H as ->.
  by rewrite <- (assoc_L (++)), strip_prefix_app.
Qed.

Lemma strip_prefix_i_more lower l s s' z :
  strip_prefix_i lower l s = Some s' →
  strip_prefix_i lower l (s ++ z) = Some (s' ++ z).
Proof.
  revert s. induction l as [|x l IH]; intros s; simpl.
  - by intros [= ->].
  - destruct s as [|y s]; [done|]. simpl.
    destruct (existsb _ x); [|done]. apply IH.
Qed.

Lemma until_close_prefix s : ∃ rest, s = until_close s ++ rest.
Proof.
  induction s as [|c s (rest & IH)]; [by exists []|].
  change (until_close (c :: s))
    with (match strip_prefix fence (c :: s) with
          | Some _ => []
          | None => c :: until_close s
          end).
  destruct (strip_prefix fence (c :: s)); [by exists (c :: s)|].
  exists rest. simpl. by rewrite <- IH.
Qed.

(** What [until_close] returns holds no fence. *)
Lemma until_close_no_fence s : ¬ occurs fence (until_close s).
Proof.
  induction s as [|c s IH]; intros (a & b & E).
  - by destruct a.
  - change (until_close (c :: s))
      with (match strip_prefix fence (c :: s) with
            | Some _ => []
            | None => c :: until_close s
            end) in E.
    destruct (strip_prefix fence (c :: s)) eqn:E'; [by destruct a|].
    destruct a as [|x a].
    + destruct (until_close_prefix s) as (rest & Hs).
      assert (c :: s = fence ++ b ++ rest) as Hc.
      { rewrite Hs at 1. rewrite app_comm_cons, E.
        by rewrite <- !(assoc_L (++)). }
      by rewrite Hc, strip_prefix_app in E'.
    + injection E as _ E. apply IH. by exists a, b.
Qed.

Section MoreMermaid.
Variable lower : N → N.

Lemma opens_fence s body : opens lower s = Some body → occurs fence s.
Proof.
  unfold opens. destruct (strip_prefix fence s) as [s'|] eqn:E; [|done].
  intros _. apply strip_prefix_Some in E as ->. by exists [], s'.
Qed.

Lemma find_fence_unfold s :
  find_fence lower s
  = match opens lower s with
    | Some body => Some body
    | None => match s with _ :: s' => find_fence lower s' | [] => None end
    end.
Proof. by destruct s. Qed.

Lemma find_fence_no_fence s : ¬ occurs fence s → find_fence lower s = None.
Proof.
  induction s as [|c s IH]; intros Hn; rewrite find_fence_unfold.
  - destruct (opens lower []) eqn:E; [|done].
    destruct Hn. by apply opens_fence in E.
  - destruct (opens lower (c :: s)) eqn:E.
    + destruct Hn. by apply opens_fence in E.
    + apply IH. intros H. apply Hn. by apply occurs_cons.
Qed.

Lemma find_fence_suffix a b :
  find_fence lower (a ++ b) = None → find_fence lower b = None.
Proof.
  induction a as [|c a IH]; [done|]. simpl app. rewrite find_fence_unfold.
  destruct (opens lower (c :: a ++ b)); [done|]. exact IH.
Qed.

Lemma find_fence_prefix b z :
  find_fence lower (b ++ z) = None → find_fence lower b = None.
Proof.
  assert (∀ s, opens lower (s ++ z) = None → opens lower s = None) as Hop.
  { intros s. unfold opens.
    destruct (strip_prefix fence s) as [s'|] eqn:E; [|done].
    rewrite (strip_prefix_more _ _ _ z E).
    destruct (strip_prefix_i lower mermaid_letters s') eqn:E'; [|done].
    by rewrite (strip_prefix_i_more _ _ _ _ z E'). }
  induction b as [|c b IH].
  - simpl app. rewrite (find_fence_unfold z), (find_fence_unfold []).
    destruct (opens lower z) eqn:E; [done|].
    intros _. by rewrite (Hop [] E).
  - simpl app.
    rewrite (find_fence_unfold (c :: b ++ z)), (find_fence_unfold (c :: b)).
    destruct (opens lower (c :: b ++ z)) eqn:E; [done|].
    rewrite (Hop (c :: b) E). exact IH.
Qed.

Lemma find_fence_strip s :
  find_fence lower s = None → find_fence lower (strip s) = None.
Proof.
  destruct (strip_spec s) as (w & w' & E & _). rewrite E at 1.
  intros H. apply find_fence_suffix in H. by apply find_fence_prefix in H.
Qed.

Lemma mermaid_block_no_fence response body :
  find_fence lower response = Some body →
  ¬ occurs fence (mermaid_block lower response).
Proof.
  unfold mermaid_block. intros -> H. apply occurs_strip in H.
  by apply until_close_no_fence in H.
Qed.

(** X5.  Extracting the code from what [extract_mermaid_code] returned
    changes nothing: the result holds no opening fence any more and is
    already stripped. *)
Theorem extract_mermaid_code_idempotent response :
  extract_mermaid_code lower (extract_mermaid_code lower response)
  = extract_mermaid_code lower response.
Proof.
  rewrite !extract_mermaid_code_block.
  destruct (find_fence lower response) as [body|] eqn:E.
  - pose proof (mermaid_block_no_fence _ _ E) as Hn.
    unfold mermaid_block at 1. rewrite (find_fence_no_fence _ Hn).
    unfold mermaid_block. rewrite E. apply strip_strip.
  - unfold mermaid_block. rewrite E, (find_fence_strip _ E). apply strip_strip.
Qed.

(** X6.  The code returned has no blank at either end, and when the
    pattern of [extract_mermaid_code] matches the reply it holds no
    fence of three backquotes. *)
Theorem extracted_code_is_bare response :
  ltrim (extract_mermaid_code lower response)
  ∧ rtrim (extract_mermaid_code lower response)
  ∧ (is_Some (search (mermaid_regex lower) response) →
     ¬ occurs fence (extract_mermaid_code lower response)).
Proof.
  rewrite extract_mermaid_code_block. repeat split.
  - unfold mermaid_block. destruct (find_fence lower response) as [body|].
    + by destruct (strip_spec (until_close body)) as (w & w' & _ & _ & _ & Hl & Hr).
    + by destruct (strip_spec response) as (w & w' & _ & _ & _ & Hl & Hr).
  - unfold mermaid_block. destruct (find_fence lower response) as [body|].
    + by destruct (strip_spec (until_close body)) as (w & w' & _ & _ & _ & Hl & Hr).
    + by destruct (strip_spec response) as (w & w' & _ & _ & _ & Hl & Hr).
  - intros Hs. pose proof (search_mermaid lower response) as H.
    destruct (find_fence lower response) as [body|] eqn:E.
    + by apply (mermaid_block_no_fence _ body).
    + rewrite H in Hs. by destruct Hs.
Qed.
End MoreMermaid.

Lemma extracted_code_is_bare_witness :
  ¬ occurs fence (extract_mermaid_code ascii_tolower sample_reply).
Proof.
  destruct (extracted_code_is_bare ascii_tolower sample_reply) as (_ & _ & H).
  apply H. vm_compute. eauto.
Defined.

(** ** The first block of a reply *)















(** The two readings of that reply. *)
Lemma junk_fence_is_read_as_code :
  extract_mermaid_code ascii_tolower sample_reply_junk
  = py "junk" ++ [LF] ++ py "A"
  ∧ spec_mermaid_block sample_reply_junk = sample_reply_junk
  ∧ spec_mermaid_block sample_reply_upper = py "A-->B".
Proof. repeat split; vm_compute; reflexivity. Qed.

(** ** Where the parsed values come from *)

Lemma parse_match_layout s c rest :
  match_here metadata_regex false s = Some (c, rest) →
  ∃ v1 e1 z1 v2 e2 z2 v3 e3 z3 v4 e4 z4 v5 e5,
    s = py "**Author:** " ++ v1 ++ e1 ++ z1
        ++ py "**Date:** " ++ v2 ++ e2 ++ z2
        ++ py "**Status:** " ++ v3 ++ e3 ++ z3
        ++ py "**Reviewers:** " ++ v4 ++ e4 ++ z4
        ++ py "**Topic:** " ++ v5 ++ e5 ++ rest
    ∧ (eol e1 ∧ eol e2 ∧ eol e3 ∧ eol e4 ∧ eol e5)
    ∧ group c 1 = v1 ∧ group c 2 = v2 ∧ group c 3 = v3
    ∧ group c 4 = v4 ∧ group c 5 = v5.
Proof.
  unfold match_here. rewrite metadata_regex_fields. intros H.
  pose proof (accept_false_total s) as Hk.
  apply pfield_inv in H as (v1 & e1 & s1 & Hs & _ & _ & E1 & H);
    [|done|by apply absorbs_filler].
  apply filler_inv in H as (z1 & s1' & Hs1 & H & _).
  apply pfield_inv in H as (v2 & e2 & s2 & Hs1' & _ & _ & E2 & H);
    [|done|by apply absorbs_filler].
  apply filler_inv in H as (z2 & s2' & Hs2 & H & _).
  apply pfield_inv in H as (v3 & e3 & s3 & Hs2' & _ & _ & E3 & H);
    [|done|by apply absorbs_filler].
  apply filler_inv in H as (z3 & s3' & Hs3 & H & _).
  apply pfield_inv in H as (v4 & e4 & s4 & Hs3' & _ & _ & E4 & H);
    [|done|by apply absorbs_filler].
  apply filler_inv in H as (z4 & s4' & Hs4 & H & _).
  apply pfield_inv in H as (v5 & e5 & s5 & Hs4' & _ & _ & E5 & H);
    [|done|by apply absorbs_Eps].
  apply rmatch_Eps_accept in H. injection H as Hc <-.
  exists v1, e1, z1, v2, e2, z2, v3, e3, z3, v4, e4, z4, v5, e5.
  split; [|split; [done|]].
  - rewrite Hs, Hs1, Hs1', Hs2, Hs2', Hs3, Hs3', Hs4, Hs4'.
    by rewrite <- ?(assoc_L (++)).
  - rewrite Hc. repeat split; by group_simpl.
Qed.

(** A value in its line, with the blanks that [strip] removes. *)
Lemma stripped_in_line (P L v e Q : text) :
  eol e →
  ∃ a w e' b, P ++ L ++ v ++ e ++ Q = a ++ L ++ w ++ strip v ++ e' ++ b
              ∧ blank w ∧ eol e'.
Proof.
  intros He. destruct (strip_spec v) as (w & w' & Hv & Hw & Hw' & _).
  exists P, w, (w' ++ e), Q. split; [|split; [done|]].
  - rewrite Hv at 1. by rewrite <- ?(assoc_L (++)).
  - destruct He as (x & n & -> & Hx & Hn & Hnl).
    exists (w' ++ x), n. rewrite <- (assoc_L (++)). repeat split; auto.
    by apply blank_app.
Qed.

Lemma eol_not_nl_free v e z : eol e → ¬ nl_free (v ++ e ++ z).
Proof.
  intros (w & n & -> & _ & Hn & Hnl) H.
  apply nl_free_app in H as [_ H]. apply nl_free_app in H as [H _].
  apply nl_free_app in H as [_ H].
  destruct n as [|c n]; [done|]. unfold nl_free in H. simpl in *.
  apply andb_true_iff in Hnl as [Hc _]. apply andb_true_iff in H as [H _].
  by rewrite Hc in H.
Qed.

(** X7.  Every value that [extract_metadata_from_markdown] returns
    stands in the text: after the label of its key and some blanks, and
    before the end of a line. *)
Theorem parsed_values_stand_in_text md_text key v :
  extract_metadata_from_markdown md_text !! key = Some v →
  ∃ a w e b, md_text = a ++ label_of key ++ w ++ v ++ e ++ b
             ∧ blank w ∧ eol e.
Proof.
  unfold extract_metadata_from_markdown.
  destruct (search metadata_regex md_text) as [f|] eqn:Hs;
    [|by rewrite lookup_empty].
  apply search_Some in Hs as (s1 & -> & Hm & _).
  apply parse_match_layout in Hm
    as (v1 & e1 & z1 & v2 & e2 & z2 & v3 & e3 & z3 & v4 & e4 & z4 & v5 & e5
        & -> & (E1 & E2 & E3 & E4 & E5) & -> & -> & -> & -> & ->).
  intros H.
  apply lookup_insert_Some in H as [[<- <-]|[_ H]].
  { destruct (stripped_in_line (f_pre f) (py "**Author:** ") v1 e1
                (z1 ++ py "**Date:** " ++ v2 ++ e2 ++ z2
                 ++ py "**Status:** " ++ v3 ++ e3 ++ z3
                 ++ py "**Reviewers:** " ++ v4 ++ e4 ++ z4
                 ++ py "**Topic:** " ++ v5 ++ e5 ++ f_rest f) E1)
      as (a & w & e' & b & Heq & Hw & He').
    exists a, w, e', b. split; [|done].
    etrans; [|exact Heq]. by rewrite <- ?(assoc_L (++)). }
  apply lookup_insert_Some in H as [[<- <-]|[_ H]].
  { destruct (stripped_in_line (f_pre f ++ py "**Author:** " ++ v1 ++ e1 ++ z1)
                (py "**Date:** ") v2 e2
                (z2 ++ py "**Status:** " ++ v3 ++ e3 ++ z3
                 ++ py "**Reviewers:** " ++ v4 ++ e4 ++ z4
                 ++ py "**Topic:** " ++ v5 ++ e5 ++ f_rest f) E2)
      as (a & w & e' & b & Heq & Hw & He').
    exists a, w, e', b. split; [|done].
    etrans; [|exact Heq]. by rewrite <- ?(assoc_L (++)). }
  apply lookup_insert_Some in H as [[<- <-]|[_ H]].
  { destruct (stripped_in_line
                (f_pre f ++ py "**Author:** " ++ v1 ++ e1 ++ z1
                 ++ py "**Date:** " ++ v2 ++ e2 ++ z2)
                (py "**Status:** ") v3 e3
                (z3 ++ py "**Reviewers:** " ++ v4 ++ e4 ++ z4
                 ++ py "**Topic:** " ++ v5 ++ e5 ++ f_rest f) E3)
      as (a & w & e' & b & Heq & Hw & He').
    exists a, w, e', b. split; [|done].
    etrans; [|exact Heq]. by rewrite <- ?(assoc_L (++)). }
  apply lookup_insert_Some in H as [[<- <-]|[_ H]].
  { destruct (stripped_in_line
                (f_pre f ++ py "**Author:** " ++ v1 ++ e1 ++ z1
                 ++ py "**Date:** " ++ v2 ++ e2 ++ z2
                 ++ py "**Status:** " ++ v3 ++ e3 ++ z3)
                (py "**Reviewers:** ") v4 e4
                (z4 ++ py "**Topic:** " ++ v5 ++ e5 ++ f_rest f) E4)
      as (a & w & e' & b & Heq & Hw & He').
    exists a, w, e', b. split; [|done].
    etrans; [|exact Heq]. by rewrite <- ?(assoc_L (++)). }
  apply lookup_insert_Some in H as [[<- <-]|[_ H]].
  { destruct (stripped_in_line
                (f_pre f ++ py "**Author:** " ++ v1 ++ e1 ++ z1
                 ++ py "**Date:** " ++ v2 ++ e2 ++ z2
                 ++ py "**Status:** " ++ v3 ++ e3 ++ z3
                 ++ py "**Reviewers:** " ++ v4 ++ e4 ++ z4)
                (py "**Topic:** ") v5 e5 (f_rest f) E5)
      as (a & w & e' & b & Heq & Hw & He').
    exists a, w, e', b. split; [|done].
    etrans; [|exact Heq]. by rewrite <- ?(assoc_L (++)). }
  by rewrite lookup_empty in H.
Qed.

(** X8.  Metadata is found only in a text where the five labels stand
    in the order Author, Date, Status, Reviewers, Topic, each with a
    line break somewhere before the next label, and the last with a
    line break after it. *)
Theorem metadata_needs_five_labels md_text :
  extract_metadata_from_markdown md_text ≠ ∅ →
  ∃ x0 x1 x2 x3 x4 x5 x6,
    md_text = x0 ++ py "**Author:** " ++ x1 ++ py "**Date:** " ++ x2
              ++ py "**Status:** " ++ x3 ++ py "**Reviewers:** " ++ x4
              ++ py "**Topic:** " ++ x5 ++ x6
    ∧ ¬ nl_free x1 ∧ ¬ nl_free x2 ∧ ¬ nl_free x3 ∧ ¬ nl_free x4
    ∧ ¬ nl_free x5.
Proof.
  unfold extract_metadata_from_markdown.
  destruct (search metadata_regex md_text) as [f|] eqn:Hs; [|done].
  intros _. apply search_Some in Hs as (s1 & -> & Hm & _).
  apply parse_match_layout in Hm
    as (v1 & e1 & z1 & v2 & e2 & z2 & v3 & e3 & z3 & v4 & e4 & z4 & v5 & e5
        & -> & (E1 & E2 & E3 & E4 & E5) & _).
  exists (f_pre f), (v1 ++ e1 ++ z1), (v2 ++ e2 ++ z2), (v3 ++ e3 ++ z3),
    (v4 ++ e4 ++ z4), (v5 ++ e5), (f_rest f).
  split; [by rewrite <- ?(assoc_L (++))|].
  repeat split; try by apply eol_not_nl_free.
  rewrite <- (right_id_L [] (++) e5). by apply eol_not_nl_free.
Qed.

Lemma parsed_values_stand_in_text_witness :
  ∃ a w e b, sample = a ++ label_of "status" ++ w ++ py "Draft" ++ e ++ b
             ∧ blank w ∧ eol e.
Proof.
  apply (parsed_values_stand_in_text sample "status"). vm_compute. reflexivity.
Defined.

Lemma metadata_needs_five_labels_witness :
  ∃ x0 x1 x2 x3 x4 x5 x6,
    sample = x0 ++ py "**Author:** " ++ x1 ++ py "**Date:** " ++ x2
             ++ py "**Status:** " ++ x3 ++ py "**Reviewers:** " ++ x4
             ++ py "**Topic:** " ++ x5 ++ x6
    ∧ ¬ nl_free x1 ∧ ¬ nl_free x2 ∧ ¬ nl_free x3 ∧ ¬ nl_free x4
    ∧ ¬ nl_free x5.
Proof.
  apply (metadata_needs_five_labels sample). vm_compute. discriminate.
Defined.

(** ** Backslashes in the new values *)

Lemma parse_template_unknown_escape g pre c post :
  BSL ∉ pre → is_ascii_letter c = true → escape_of c = None → c ≠ 103 →
  parse_template g (pre ++ BSL :: c :: post) = None.
Proof.
  intros Hpre Hl He Hg. rewrite (parse_template_plain _ _ _ Hpre).
  assert (parse_template g (BSL :: c :: post) = None) as ->; [|done].
  simpl. apply N.eqb_neq in Hg. rewrite Hg.
  assert ((c =? 48) = false) as ->.
  { apply N.eqb_neq. intros ->. done. }
  assert (is_digit c = false) as ->.
  { unfold is_ascii_letter, is_digit in *.
    destruct (N.leb_spec 48 c), (N.leb_spec c 57); try done.
    destruct (N.leb_spec 65 c), (N.leb_spec 97 c); try lia; done. }
  by rewrite He, Hl.
Qed.

(** X9.  A new value in which a backslash is followed by an ASCII
    letter that is neither an escape of the template language nor [g]
    makes [update_metadata_in_markdown] raise on every text, with or
    without a header: [re.sub] compiles the template before it looks at
    the text.  (The values of the other keys hold no backslash.) *)
Theorem update_raises_on_unknown_escape md_text m key pre c post :
  key ∈ ["author"; "date"; "status"; "reviewers"; "topic"]%string →
  get m key = pre ++ BSL :: c :: post → (BSL ∉ pre) →
  is_ascii_letter c = true → escape_of c = None → c ≠ 103 →
  (∀ k, k ∈ ["author"; "date"; "status"; "reviewers"; "topic"]%string →
        k ≠ key → BSL ∉ get m k) →
  update_metadata_in_markdown md_text m = None.
Proof.
  intros Hkey Hv Hpre Hl He Hg Hothers.
  unfold update_metadata_in_markdown, re_sub.
  assert (parse_template (groups update_regex) (repl m) = None) as ->; [|done].
  rewrite groups_update_regex. unfold repl.
  assert (∀ k, k ∈ ["author"; "date"; "status"; "reviewers"; "topic"]%string →
               key ≠ k → ∀ s, parse_template 19 (get m k ++ s)
                 = match parse_template 19 s with
                   | Some tpl => Some (lits (get m k) ++ tpl)
                   | None => None
                   end) as Hplain.
  { intros k Hk Hne s. apply parse_template_plain. by apply Hothers. }
  assert (∀ k, bool_decide
                 (k ∈ ["author"; "date"; "status"; "reviewers"; "topic"]%string)
               → k ∈ ["author"; "date"; "status"; "reviewers"; "topic"]%string)
    as Hin by (intros k; apply bool_decide_unpack).
  assert (∀ s, parse_template 19 (get m key ++ s) = None) as Hbad.
  { intros s. rewrite Hv, <- (assoc_L (++)). simpl.
    by apply parse_template_unknown_escape. }
  change (parse_template 19 (py "\g<1>" ++ ?s))
    with (group_ref 19 1 (parse_template 19 s)).
  destruct (decide (key = "author")) as [->|N1]; [by rewrite Hbad|].
  rewrite Hplain by (done || by apply Hin).
  change (parse_template 19 (py "\g<3>\g<4>\g<5>" ++ ?s))
    with (group_ref 19 3 (group_ref 19 4 (group_ref 19 5 (parse_template 19 s)))).
  destruct (decide (key = "date")) as [->|N2]; [by rewrite Hbad|].
  rewrite Hplain by (done || by apply Hin).
  change (parse_template 19 (py "\g<7>\g<8>\g<9>" ++ ?s))
    with (group_ref 19 7 (group_ref 19 8 (group_ref 19 9 (parse_template 19 s)))).
  destruct (decide (key = "status")) as [->|N3]; [by rewrite Hbad|].
  rewrite Hplain by (done || by apply Hin).
  change (parse_template 19 (py "\g<11>\g<12>\g<13>" ++ ?s))
    with (group_ref 19 11 (group_ref 19 12 (group_ref 19 13 (parse_template 19 s)))).
  destruct (decide (key = "reviewers")) as [->|N4]; [by rewrite Hbad|].
  rewrite Hplain by (done || by apply Hin).
  change (parse_template 19 (py "\g<15>\g<16>\g<17>" ++ ?s))
    with (group_ref 19 15 (group_ref 19 16 (group_ref 19 17 (parse_template 19 s)))).
  destruct (decide (key = "topic")) as [->|N5]; [by rewrite Hbad|].
  repeat (apply elem_of_cons in Hkey as [->|Hkey]; [done|]).
  by apply elem_of_nil in Hkey.
Qed.

Lemma update_raises_on_unknown_escape_witness :
  update_metadata_in_markdown (py "no header here")
    (metadata (py "Ann") (py "2025-05-05") (py "Draft") (py "Bo") (py "C:\docs"))
  = None.
Proof.
  apply (update_raises_on_unknown_escape _ _ "topic" (py "C:") 100 (py "ocs")).
  - apply (bool_decide_unpack _). by vm_compute.
  - reflexivity.
  - apply (bool_decide_unpack _). by vm_compute.
  - reflexivity.
  - reflexivity.
  - done.
  - intros k Hk Hne. apply (bool_decide_unpack _).
    repeat (apply elem_of_cons in Hk as [->|Hk]; [by vm_compute|]).
    by apply elem_of_nil in Hk.
Defined.

(** ** [re.findall] and the fenced blocks *)

Lemma search_adv_Some r adv s f :
  search_adv r adv s = Some f →
  ∃ s1 adv', s = f_pre f ++ s1
             ∧ match_here r adv' s1 = Some (f_caps f, f_rest f).
Proof.
  revert adv f. induction s as [|x s IH]; intros adv f.
  - rewrite search_adv_nil.
    destruct (match_here r adv []) as [[c s']|] eqn:E; [|done].
    intros [= <-]. by exists [], adv.
  - rewrite search_adv_cons.
    destruct (match_here r adv (x :: s)) as [[c s']|] eqn:E.
    + intros [= <-]. by exists (x :: s), adv.
    + destruct (search_adv r false s) as [f'|] eqn:E'; [|done].
      intros [= <-]. destruct (IH _ _ E') as (s1 & adv' & -> & Hm).
      by exists s1, adv'.
Qed.

Lemma findall_loop_S n r adv s :
  findall_loop (S n) r adv s
  = match search_adv r adv s with
    | None => []
    | Some f =>
        group (f_caps f) 1
          :: findall_loop n r (is_nil (group (f_caps f) 0)) (f_rest f)
    end.
Proof. done. Qed.

(** The fuel of [findall_loop] never runs out. *)
Lemma findall_loop_fuel r n1 n2 (adv : bool) (s : text) :
  (2 * length s + (if adv then 1 else 2) ≤ n1)%nat →
  (2 * length s + (if adv then 1 else 2) ≤ n2)%nat →
  findall_loop n1 r adv s = findall_loop n2 r adv s.
Proof.
  revert n2 adv s. induction n1 as [|n1 IH]; intros n2 adv s H1 H2.
  { destruct adv; lia. }
  destruct n2 as [|n2]; [destruct adv; lia|]. rewrite !findall_loop_S.
  destruct (search_adv r adv s) as [f|] eqn:E; [|done].
  f_equal. apply search_adv_shape in E as [E Hadv].
  assert (length s = length (f_pre f) + length (group (f_caps f) 0)
                     + length (f_rest f))%nat as Hlen.
  { rewrite E at 1. rewrite !length_app. lia. }
  destruct (group (f_caps f) 0) as [|y w] eqn:Ew; simpl in *.
  - destruct adv.
    + destruct (f_pre f) as [|z pre]; [by destruct Hadv|]. simpl in *.
      apply IH; simpl; lia.
    + apply IH; simpl; lia.
  - destruct adv; apply IH; simpl; lia.
Qed.

Lemma accept_shorter adv s0 s c :
  (length s < length s0)%nat →
  accept adv s0 s c = Some (<[0%nat := take (length s0 - length s) s0]> c, s).
Proof.
  intros H. unfold accept.
  assert ((length s =? length s0)%nat = false) as ->
    by (apply Nat.eqb_neq; lia).
  by rewrite andb_false_r.
Qed.

(** A match of [block_regex]: the opening line, a content in which the
    closing fence does not occur, the closing fence. *)
Lemma block_match_here adv s c rest :
  match_here block_regex adv s = Some (c, rest) →
  ∃ u, s = block_open ++ u ++ block_close ++ rest
       ∧ group c 1 = u ∧ ¬ occurs block_close u ∧ group c 0 ≠ [].
Proof.
  unfold match_here, block_regex. rewrite rmatch_seq_lit.
  destruct (strip_prefix _ s) as [s1|] eqn:E1; [|done].
  apply strip_prefix_Some in E1. fold block_open in E1.
  intros H. apply rmatch_seq_grp_lazy in H as (u & v & -> & _ & H & Hmin).
  rewrite rmatch_seq_lit in H.
  destruct (strip_prefix (LF :: fence) v) as [s2|] eqn:E2; [|done].
  apply strip_prefix_Some in E2 as ->. fold block_close in *.
  simpl rmatch in H.
  rewrite accept_shorter in H
    by (rewrite E1, !length_app; unfold block_open; simpl; lia).
  injection H as Hc <-.
  exists u. split; [done|]. rewrite <- Hc. group_simpl.
  split; [done|]. split.
  - intros (a & b & ->).
    specialize (Hmin a (block_close ++ b ++ block_close ++ s2)).
    rewrite rmatch_seq_lit in Hmin. fold block_close in Hmin.
    rewrite strip_prefix_app in Hmin. simpl rmatch in Hmin.
    rewrite accept_shorter in Hmin
      by (rewrite E1, !length_app; unfold block_open; simpl; lia).
    discriminate Hmin; [by rewrite <- !(assoc_L (++))|].
    rewrite !length_app. simpl. lia.
  - rewrite E1.
    replace (block_open ++ u ++ block_close ++ s2)
      with ((block_open ++ u ++ block_close) ++ s2)
      by (by rewrite <- !(assoc_L (++))).
    by rewrite take_matched.
Qed.

Lemma close_first_at m : ¬ occurs block_close m → first_at block_close m.
Proof.
  intros Hn p m1 m2 Heq.
  destruct (decide (length m ≤ length p)%nat) as [|Hlt]; [done|]. exfalso.
  destruct (app_eq_le p (block_close ++ m1) m (block_close ++ m2) Heq)
    as (r & -> & Hr); [lia|].
  assert (r ≠ []) as Hne.
  { intros ->. rewrite length_app in Hlt. simpl in Hlt. lia. }
  unfold block_close, fence in Hr. simpl in Hr.
  destruct r as [|c1 [|c2 [|c3 [|c4 r]]]]; simpl in Hr; try done.
  injection Hr as <- <- <- <- _. apply Hn. by exists p, r.
Qed.

Lemma occurs_nil_false (l : text) : l ≠ [] → ¬ occurs l [].
Proof. intros Hl (a & b & E). destruct a, l; done. Qed.

(** [block_regex] on a block that is written out. *)
Lemma block_match_here_intro m rest :
  ¬ occurs block_close m →
  ∃ c, match_here block_regex false (block_open ++ m ++ block_close ++ rest)
       = Some (c, rest)
       ∧ group c 1 = m ∧ group c 0 ≠ [].
Proof.
  intros Hm.
  assert (is_Some (match_here block_regex false
                     (block_open ++ m ++ block_close ++ rest))) as [[c r] H].
  { unfold match_here, block_regex. fold block_open block_close.
    apply rmatch_seq_complete; [done|]. intros c1.
    apply rmatch_seq_complete; [apply forallb_any|]. intros c2.
    apply rmatch_seq_complete; [done|]. intros c3. apply accept_false_total. }
  pose proof H as H'.
  apply block_match_here in H' as (u & Heq & G1 & Hu & G0).
  apply app_inv_head in Heq.
  pose proof (close_first_at m Hm u r rest (eq_sym Heq)) as L1.
  pose proof (close_first_at u Hu m rest r Heq) as L2.
  destruct (app_eq_len _ _ _ _ Heq ltac:(lia)) as [-> Hr].
  apply app_inv_head in Hr as <-. by exists c.
Qed.

Lemma strip_prefix_cons_ne y l x s : y ≠ x → strip_prefix (y :: l) (x :: s) = None.
Proof. intros H. simpl. by destruct (N.eqb_spec y x). Qed.

Lemma block_match_here_backquote s :
  (∀ x s', s = x :: s' → x ≠ 96) → match_here block_regex false s = None.
Proof.
  intros H. unfold match_here, block_regex. rewrite rmatch_seq_lit.
  destruct s as [|x s]; [done|].
  change (fence ++ py "mermaid" ++ [LF]) with (96 :: tail block_open).
  rewrite strip_prefix_cons_ne; [done|]. intros <-. by apply (H 96 s).
Qed.

Lemma search_block_none s : 96 ∉ s → search block_regex s = None.
Proof.
  unfold search. induction s as [|x s IH]; intros Hs.
  - rewrite search_adv_nil. by rewrite block_match_here_backquote.
  - apply not_elem_of_cons in Hs as [Hx Hs]. rewrite search_adv_cons.
    rewrite block_match_here_backquote; [by rewrite IH|].
    by intros ? ? [= <- _].
Qed.

(** One round of [findall] on a block that follows a text without
    backquote. *)
Lemma findall_block_step pre m rest :
  96 ∉ pre → ¬ occurs block_close m →
  findall block_regex (pre ++ block_open ++ m ++ block_close ++ rest)
  = m :: findall block_regex rest.
Proof.
  intros Hpre Hm. unfold findall. rewrite Nat.add_succ_r, findall_loop_S.
  destruct (block_match_here_intro m rest Hm) as (c & Hc & G1 & G0).
  fold (search block_regex (pre ++ block_open ++ m ++ block_close ++ rest)).
  rewrite (search_intro _ pre _ c rest); [|  |exact Hc].
  - cbn [f_caps f_rest]. rewrite G1. f_equal.
    destruct (group c 0); [done|]. cbn [is_nil].
    apply findall_loop_fuel; [|lia]. rewrite !length_app.
    pose proof (eq_refl : length block_close = 4%nat). lia.
  - intros a b -> Hb. apply block_match_here_backquote.
    intros x s' Heq ->. apply Hpre. apply elem_of_app. right.
    destruct b as [|y b]; [done|]. injection Heq as -> _. by left.
Qed.

Lemma findall_block_none s : 96 ∉ s → findall block_regex s = [].
Proof.
  intros Hs. unfold findall. rewrite Nat.add_succ_r, findall_loop_S.
  fold (search block_regex s). by rewrite search_block_none.
Qed.

Lemma findall_loop_sound fuel adv s u :
  u ∈ findall_loop fuel block_regex adv s →
  occurs (block_open ++ u ++ block_close) s ∧ ¬ occurs block_close u.
Proof.
  revert adv s. induction fuel as [|fuel IH]; intros adv s; [by intros ?%elem_of_nil|].
  rewrite findall_loop_S.
  destruct (search_adv block_regex adv s) as [f|] eqn:E; [|by intros ?%elem_of_nil].
  apply search_adv_Some in E as (s1 & adv' & -> & Hm).
  apply block_match_here in Hm as (u' & -> & G1 & Hu' & _).
  intros [->|Hin]%elem_of_cons.
  - split; [|by rewrite G1]. rewrite G1. exists (f_pre f), (f_rest f).
    by rewrite <- !(assoc_L (++)).
  - destruct (IH _ _ Hin) as [(a & b & Hocc) Hu]. split; [|done].
    exists (f_pre f ++ block_open ++ u' ++ block_close ++ a), b.
    rewrite Hocc. by rewrite <- !(assoc_L (++)).
Qed.

Lemma occurs_b_unfold l s :
  occurs_b l s
  = match strip_prefix l s with
    | Some _ => true
    | None => match s with _ :: s' => occurs_b l s' | [] => false end
    end.
Proof. by destruct s. Qed.

Lemma occurs_b_false l s : occurs_b l s = false → ¬ occurs l s.
Proof.
  intros H (a & b & ->). induction a as [|x a IH].
  - rewrite occurs_b_unfold in H. simpl app in H.
    by rewrite strip_prefix_app in H.
  - apply IH. rewrite occurs_b_unfold in H. simpl app in H.
    by destruct (strip_prefix l (x :: a ++ l ++ b)).
Qed.

Lemma decimal_go_no_backquote fuel n acc :
  96 ∉ acc → 96 ∉ decimal_go fuel n acc.
Proof.
  revert n acc. induction fuel as [|fuel IH]; intros n acc Hacc; [done|].
  simpl.
  assert (96 ∉ (48 + n mod 10) :: acc) as H.
  { apply not_elem_of_cons. split; [|done].
    pose proof (N.mod_upper_bound n 10). lia. }
  destruct (n <? 10); [done|]. by apply IH.
Qed.

Lemma diagrams_from_harvested idx pre image_mermaids :
  96 ∉ pre → Forall (λ m, ¬ occurs block_close m) image_mermaids →
  findall block_regex (pre ++ diagrams_from idx image_mermaids) = image_mermaids.
Proof.
  intros Hpre Hall. revert idx pre Hpre.
  induction Hall as [|m ms Hm Hms IH]; intros idx pre Hpre.
  - simpl. rewrite (right_id_L [] (++)). by apply findall_block_none.
  - change (diagrams_from idx (m :: ms))
      with (diagram idx m ++ diagrams_from (S idx) ms).
    unfold diagram.
    replace (pre ++ ([LF] ++ py "#### Diagram " ++ decimal (idx + 1) ++ [LF]
                     ++ fence ++ py "mermaid" ++ [LF] ++ m ++ [LF] ++ fence
                     ++ [LF]) ++ diagrams_from (S idx) ms)
      with ((pre ++ [LF] ++ py "#### Diagram " ++ decimal (idx + 1) ++ [LF])
            ++ block_open ++ m ++ block_close
            ++ ([LF] ++ diagrams_from (S idx) ms)).
    2:{ unfold block_open, block_close.
        rewrite <- !(assoc_L (++)). simpl. by rewrite <- ?(assoc_L (++)). }
    rewrite findall_block_step; [|  |done].
    + f_equal. apply IH. apply (bool_decide_unpack _). by vm_compute.
    + rewrite !not_elem_of_app. split; [done|]. split.
      { apply (bool_decide_unpack _). by vm_compute. }
      split; [|split].
      * apply (bool_decide_unpack _). by vm_compute.
      * by apply decimal_go_no_backquote, not_elem_of_nil.
      * apply (bool_decide_unpack _). by vm_compute.
Qed.

Lemma omap_length_le {X Y : Type} (f : X → option Y) l :
  (length (omap f l) ≤ length l)%nat.
Proof.
  induction l as [|x l IH]; [done|].
  change (omap f (x :: l))
    with (match f x with Some y => y :: omap f l | None => omap f l end).
  destruct (f x); simpl length; lia.
Qed.

Lemma omap_downloaded_nonempty requests_get urls :
  Forall (λ i, i ≠ []) (omap (downloaded requests_get) urls).
Proof.
  apply Forall_forall. intros i (url & _ & H)%list_elem_of_omap.
  unfold downloaded in H.
  destruct (download_image requests_get url) as [[|x b]|]; simpl in H; try done.
  by injection H as <-.
Qed.

Section MoreDiagrams.
Variable str_lower : text → text.
Variables has_docx has_pypdf2 has_fitz : bool.
Variable docx_paragraphs : list N → option (list text).
Variable pdf_page_texts : list N → option (list text).
Variable docx_images : list N → option (list (list N)).
Variable pdf_images : list N → option (list (list N)).
Variable urlparse : text → option url_parts.
Variable parse_qs : text → option (gmap text (list text)).
Variable unquote : text → option text.
Variables image_urls_of drawio_urls_of mermaid_urls_of : text → list text.
Variable requests_get : text → option (bool * list N).

Local Abbreviation links_of :=
  (extract_external_diagram_links image_urls_of drawio_urls_of mermaid_urls_of).
Local Abbreviation images_of :=
  (extract_images_from_file str_lower has_docx has_pypdf2 has_fitz
     docx_images pdf_images).
Local Abbreviation process :=
  (process_document_for_diagrams str_lower has_docx has_pypdf2 has_fitz
     docx_paragraphs pdf_page_texts docx_images pdf_images
     urlparse parse_qs unquote image_urls_of drawio_urls_of mermaid_urls_of
     requests_get).

(** X10.  Every block that [extract_external_diagram_links] returns
    stood in the text between three backquotes, "mermaid" and a line
    feed before it and a line feed and three backquotes after it, and
    it holds no line feed followed by three backquotes (its first line
    may start with three backquotes). *)
Theorem harvested_blocks_are_fenced txt u :
  u ∈ (links_of txt).2 →
  occurs (block_open ++ u ++ block_close) txt ∧ ¬ occurs block_close u.
Proof.
  unfold extract_external_diagram_links, findall. cbn [snd].
  apply findall_loop_sound.
Qed.

(** X11.  The section of numbered diagrams that [markdown_from_ai]
    writes is read back by the link harvester: it finds the codes, in
    order, when no code holds a line that starts with three
    backquotes. *)
Theorem diagrams_are_harvested image_mermaids :
  Forall (λ m, ¬ occurs block_close m) image_mermaids →
  (links_of (diagrams image_mermaids)).2 = image_mermaids.
Proof.
  intros H. unfold extract_external_diagram_links, diagrams. cbn [snd].
  apply (diagrams_from_harvested 0 [] image_mermaids); [|done].
  apply not_elem_of_nil.
Qed.

Lemma extract_text_is_Some file_bytes file_name :
  is_Some (extract_text_from_file str_lower has_docx has_pypdf2
             docx_paragraphs pdf_page_texts file_bytes file_name).
Proof.
  unfold extract_text_from_file.
  destruct (utf8_ignore_spec file_bytes) as (s & -> & _).
  repeat case_match; eauto.
Qed.

(** X12.  [process_document_for_diagrams] raises exactly when reading
    the images of the file raises: the text, the links, the downloads
    and the URL decoding never do. *)
Theorem process_raises_with_the_images file_bytes file_name file_text :
  process file_bytes file_name file_text = None
  ↔ extract_images_from_file str_lower has_docx has_pypdf2 has_fitz
      docx_images pdf_images file_bytes file_name = None.
Proof.
  unfold process_document_for_diagrams.
  destruct (images_of file_bytes file_name) as [images|]; [|done].
  simpl. split; [|done].
  destruct file_text as [t|]; [done|].
  by destruct (extract_text_is_Some file_bytes file_name) as [t ->].
Qed.

Lemma downloaded_spec url img :
  downloaded requests_get url = Some img
  ↔ requests_get url = Some (true, img) ∧ img ≠ [].
Proof.
  unfold downloaded, download_image.
  destruct (requests_get url) as [[[] content]|]; [|by split; [|intros []]..].
  destruct content as [|x content]; simpl.
  - split; [done|]. by intros [[= <-] ?].
  - split; [by intros [= <-]|]. by intros [[= <-] _].
Qed.

(** X13.  The images returned are those of the file, in their order,
    followed by what the image links of the text give, in the order of
    the links: a link gives the content of its response when the
    request does not raise, the response is ok and the content is not
    empty, and nothing otherwise.  The diagrams are the placeholder of
    each draw.io link, the code of each mermaid.live link and each
    fenced block stripped, in this order. *)
Theorem process_keeps_the_file_images file_bytes file_name file_text imgs ds :
  process file_bytes file_name file_text = Some (imgs, ds) →
  ∃ file_images txt,
    images_of file_bytes file_name = Some file_images
    ∧ (file_text = Some txt
       ∨ file_text = None
         ∧ extract_text_from_file str_lower has_docx has_pypdf2
             docx_paragraphs pdf_page_texts file_bytes file_name = Some txt)
    ∧ imgs = file_images ++ omap (downloaded requests_get) (links_of txt).1.1.1
    ∧ (∀ url img, downloaded requests_get url = Some img
                  ↔ requests_get url = Some (true, img) ∧ img ≠ [])
    ∧ Forall (λ i, i ≠ []) (omap (downloaded requests_get) (links_of txt).1.1.1)
    ∧ (length (omap (downloaded requests_get) (links_of txt).1.1.1)
       ≤ length (links_of txt).1.1.1)%nat
    ∧ ds = map extract_mermaid_from_drawio (links_of txt).1.1.2
           ++ map (extract_mermaid_from_mermaid_url urlparse parse_qs unquote)
                (links_of txt).1.2
           ++ map strip (links_of txt).2.
Proof.
  unfold process_document_for_diagrams.
  destruct (images_of file_bytes file_name) as [images|]; [|done]. simpl.
  intros H.
  assert (∃ txt,
            (file_text = Some txt
             ∨ file_text = None
               ∧ extract_text_from_file str_lower has_docx has_pypdf2
                   docx_paragraphs pdf_page_texts file_bytes file_name
                 = Some txt)
            ∧ Some (images ++ omap (downloaded requests_get) (image_urls_of txt),
                    map extract_mermaid_from_drawio (drawio_urls_of txt)
                    ++ map (extract_mermaid_from_mermaid_url urlparse parse_qs
                              unquote) (mermaid_urls_of txt)
                    ++ map strip (findall block_regex txt))
              = Some (imgs, ds)) as (txt & Htxt & Heq).
  { destruct file_text as [t|]; [by exists t; auto|].
    destruct (extract_text_is_Some file_bytes file_name) as [t Ht].
    rewrite Ht in H. exists t. auto. }
  injection Heq as <- <-.
  exists images, txt.
  split; [done|]. split; [done|]. split; [done|].
  split; [apply downloaded_spec|].
  split; [apply omap_downloaded_nonempty|].
  split; [apply omap_length_le|done].
Qed.
End MoreDiagrams.

Lemma harvested_blocks_are_fenced_witness :
  occurs (block_open ++ py "A-->B" ++ block_close)
    (py "see" ++ [LF] ++ block_open ++ py "A-->B" ++ block_close ++ [LF])
  ∧ ¬ occurs block_close (py "A-->B").
Proof.
  apply (harvested_blocks_are_fenced (λ _, []) (λ _, []) (λ _, [])).
  vm_compute. left.
Defined.

Lemma diagrams_are_harvested_witness :
  (extract_external_diagram_links (λ _, []) (λ _, []) (λ _, [])
     (diagrams [py "A-->B"; py "graph TD" ++ [LF] ++ py "`x`"])).2
  = [py "A-->B"; py "graph TD" ++ [LF] ++ py "`x`"].
Proof.
  apply (diagrams_are_harvested (λ _, []) (λ _, []) (λ _, [])).
  repeat constructor; apply occurs_b_false; vm_compute; reflexivity.
Defined.

Lemma process_raises_with_the_images_witness :
  process_document_for_diagrams ascii_lower true true true
    reader_fails reader_fails reader_fails reader_fails
    py_urlparse py_parse_qs py_unquote (λ _, []) (λ _, []) (λ _, [])
    (λ _, None) [80; 75; 0] (py "report.docx") None = None.
Proof.
  apply (process_raises_with_the_images ascii_lower true true true
           reader_fails reader_fails reader_fails reader_fails
           py_urlparse py_parse_qs py_unquote (λ _, []) (λ _, []) (λ _, [])
           (λ _, None)).
  vm_compute. reflexivity.
Defined.

Lemma process_keeps_the_file_images_witness :
  ∃ file_images txt,
    extract_images_from_file ascii_lower true true true reader_fails
      reader_fails [137; 80] (py "shot.PNG") = Some file_images
    ∧ (Some (py "x") = Some txt
       ∨ Some (py "x") = None
         ∧ extract_text_from_file ascii_lower true true reader_fails
             reader_fails [137; 80] (py "shot.PNG") = Some txt)
    ∧ [[137; 80]; [1; 2]]
      = file_images
        ++ omap (downloaded sample_get)
             (extract_external_diagram_links sample_image_links (λ _, [])
                (λ _, []) txt).1.1.1
    ∧ (∀ url img, downloaded sample_get url = Some img
                  ↔ sample_get url = Some (true, img) ∧ img ≠ [])
    ∧ Forall (λ i, i ≠ [])
        (omap (downloaded sample_get)
           (extract_external_diagram_links sample_image_links (λ _, [])
              (λ _, []) txt).1.1.1)
    ∧ (length (omap (downloaded sample_get)
                 (extract_external_diagram_links sample_image_links (λ _, [])
                    (λ _, []) txt).1.1.1)
       ≤ length (extract_external_diagram_links sample_image_links (λ _, [])
                   (λ _, []) txt).1.1.1)%nat
    ∧ ([] : list text)
      = map extract_mermaid_from_drawio
          (extract_external_diagram_links sample_image_links (λ _, [])
             (λ _, []) txt).1.1.2
        ++ map (extract_mermaid_from_mermaid_url py_urlparse py_parse_qs
                  py_unquote)
             (extract_external_diagram_links sample_image_links (λ _, [])
                (λ _, []) txt).1.2
        ++ map strip
             (extract_external_diagram_links sample_image_links (λ _, [])
                (λ _, []) txt).2.
Proof.
  apply (process_keeps_the_file_images ascii_lower true true true
           reader_fails reader_fails reader_fails reader_fails
           py_urlparse py_parse_qs py_unquote
           sample_image_links (λ _, []) (λ _, []) sample_get).
  vm_compute. reflexivity.
Defined.

(** The first line of a harvested block may start with three
    backquotes. *)
Lemma harvested_block_may_start_with_a_fence :
  findall block_regex (block_open ++ fence ++ py "foo" ++ block_close)
  = [fence ++ py "foo"].
Proof. vm_compute. reflexivity. Qed.

(** ** The agent's answer *)

(** Strict decoding goes through a concatenation when the first part
    decodes by itself. *)
Lemma decode_strict_app a x b :
  utf8_decode Strict a = Some x →
  utf8_decode Strict (a ++ b) = (x ++.) <$> utf8_decode Strict b.
Proof.
  revert x. induction a as [a IH] using (induction_ltof1 _ (@length N)).
  unfold ltof in IH. intros x H.
  assert (∀ (c : N) r, (length r < length a)%nat →
            cons c <$> utf8_decode Strict r = Some x →
            cons c <$> utf8_decode Strict (r ++ b)
            = (x ++.) <$> utf8_decode Strict b) as Hstep.
  { intros c r Hr Hc. destruct (utf8_decode Strict r) as [x'|] eqn:E; [|done].
    injection Hc as <-. rewrite (IH r Hr x' E).
    by destruct (utf8_decode Strict b). }
  destruct a as [|ch s1].
  { injection H as <-. simpl. by destruct (utf8_decode Strict b). }
  simpl app. rewrite utf8_decode_unfold in H. rewrite utf8_decode_unfold.
  cbn [on_error] in *.
  destruct (ch <? 128); [apply Hstep; [simpl; lia|done]|].
  destruct (ch <? 194); [done|].
  destruct (ch <? 224).
  { destruct s1 as [|ch2 s2]; [done|]. simpl app; cbv beta iota.
    destruct (is_cont ch2); [|done]. apply Hstep; [simpl; lia|done]. }
  destruct (ch <? 240).
  { destruct s1 as [|ch2 s2]; [done|]. simpl app; cbv beta iota.
    destruct (negb (is_cont ch2) || _); [done|].
    destruct s2 as [|ch3 s3]; [done|]. simpl app; cbv beta iota.
    destruct (is_cont ch3); [|done]. apply Hstep; [simpl; lia|done]. }
  destruct (ch <? 245); [|done].
  destruct s1 as [|ch2 s2]; [done|]. simpl app; cbv beta iota.
  destruct (negb (is_cont ch2) || _); [done|].
  destruct s2 as [|ch3 s3]; [done|]. simpl app; cbv beta iota.
  destruct (negb (is_cont ch3)); [done|].
  destruct s3 as [|ch4 s4]; [done|]. simpl app; cbv beta iota.
  destruct (is_cont ch4); [|done]. apply Hstep; [simpl; lia|done].
Qed.

(** A character of two bytes or more that is cut off does not decode. *)
Lemma decode_strict_cut c a b :
  utf8_encode_char c = a ++ b → a ≠ [] → b ≠ [] → utf8_decode Strict a = None.
Proof.
  unfold utf8_encode_char. intros H Ha Hb.
  destruct (N.ltb_spec c 128) as [H1|H1].
  { destruct a as [|? [|]], b; simplify_eq/=. }
  destruct (N.ltb_spec c 2048) as [H2|H2].
  { destruct a as [|x [|y a]]; [done| |by destruct a, b; simplify_eq/=].
    injection H as <- _. rewrite utf8_decode_unfold.
    ltb_false (192 + c / 64) 128. ltb_false (192 + c / 64) 194.
    by ltb_true (192 + c / 64) 224. }
  destruct (N.ltb_spec c 65536) as [H3|H3].
  { destruct a as [|x [|y [|z a]]]; [done| | |by destruct a, b; simplify_eq/=].
    - injection H as <- _. rewrite utf8_decode_unfold.
      ltb_false (224 + c / 4096) 128. ltb_false (224 + c / 4096) 194.
      ltb_false (224 + c / 4096) 224. by ltb_true (224 + c / 4096) 240.
    - injection H as <- <- _. rewrite utf8_decode_unfold.
      ltb_false (224 + c / 4096) 128. ltb_false (224 + c / 4096) 194.
      ltb_false (224 + c / 4096) 224. ltb_true (224 + c / 4096) 240.
      cbn [on_error]. by destruct (negb _ || _). }
  destruct a as [|x [|y [|z [|w a]]]];
    [done| | | |by destruct a, b; simplify_eq/=].
  - injection H as <- _. rewrite utf8_decode_unfold.
    ltb_false (240 + c / 262144) 128. ltb_false (240 + c / 262144) 194.
    ltb_false (240 + c / 262144) 224. ltb_false (240 + c / 262144) 240.
    by destruct (_ <? 245).
  - injection H as <- <- _. rewrite utf8_decode_unfold.
    ltb_false (240 + c / 262144) 128. ltb_false (240 + c / 262144) 194.
    ltb_false (240 + c / 262144) 224. ltb_false (240 + c / 262144) 240.
    cbn [on_error]. destruct (_ <? 245); [|done]. by destruct (negb _ || _).
  - injection H as <- <- <- _. rewrite utf8_decode_unfold.
    ltb_false (240 + c / 262144) 128. ltb_false (240 + c / 262144) 194.
    ltb_false (240 + c / 262144) 224. ltb_false (240 + c / 262144) 240.
    cbn [on_error]. destruct (_ <? 245); [|done].
    destruct (negb _ || _); [done|]. by destruct (negb _).
Qed.

Lemma decode_encode_app s a :
  Forall is_scalar s →
  utf8_decode Strict (utf8_encode s ++ a) = (s ++.) <$> utf8_decode Strict a.
Proof.
  induction 1 as [|c s Hc Hs IH].
  - simpl. by destruct (utf8_decode Strict a).
  - rewrite utf8_encode_cons, <- (assoc_L (++)), decode_encode_char, IH by done.
    by destruct (utf8_decode Strict a).
Qed.

Lemma completion_ok events output :
  Forall chunk_ok events →
  ∃ t, utf8_decode Strict (concat (omap id events)) = Some t
       ∧ completion events output = inr (output ++ t).
Proof.
  intros H. revert output. induction H as [|e events He Hes IH]; intros output.
  - exists []. by rewrite (right_id_L [] (++)).
  - destruct e as [b|].
    + destruct (He b eq_refl) as [s Hs].
      destruct (IH (output ++ s)) as (t & Ht & Hc). exists (s ++ t).
      change (omap id (Some b :: events)) with (b :: omap id events).
      simpl concat. rewrite (decode_strict_app _ _ _ Hs), Ht.
      split; [done|]. simpl. by rewrite Hs, Hc, (assoc_L (++)).
    + destruct (IH output) as (t & Ht & Hc). by exists t.
Qed.

Lemma completion_bad before chunk after output :
  Forall chunk_ok before → utf8_decode Strict chunk = None →
  completion (before ++ Some chunk :: after) output = inl chunk.
Proof.
  intros H Hc. revert output. induction H as [|e events He Hes IH]; intros output.
  - simpl. by rewrite Hc.
  - destruct e as [b|]; simpl; [|apply IH].
    destruct (He b eq_refl) as [s ->]. apply IH.
Qed.

Lemma no_backquote_no_fence s : 96 ∉ s → ¬ occurs fence s.
Proof.
  intros H (a & b & ->). apply H. rewrite !elem_of_app. right. left.
  by left.
Qed.

Lemma agent_error_bare e :
  ltrim (agent_error e) ∧ rtrim (agent_error e).
Proof.
  split.
  - by intros c b [= <- _].
  - intros a c H. unfold agent_error in H.
    change (py "]") with [93] in H. rewrite !(assoc_L (++)) in H.
    by apply app_inj_tail in H as [_ <-].
Qed.

Lemma mermaid_block_bare lower response :
  ltrim (mermaid_block lower response) ∧ rtrim (mermaid_block lower response).
Proof.
  unfold mermaid_block. destruct (find_fence lower response) as [body|].
  - by destruct (strip_spec (until_close body)) as (w & w' & _ & _ & _ & Hl & Hr).
  - by destruct (strip_spec response) as (w & w' & _ & _ & _ & Hl & Hr).
Qed.

Section MoreAgent.
Variable unicode_tolower : N → N.
Variable invoke_agent :
  text → text → text → text → text → text → list (option (list N)) * option text.
Variable decode_error : list N → text.

Local Abbreviation ask_agent := (bedrock_agent_ask invoke_agent decode_error).

(** X14.  When the call does not raise and every chunk is valid UTF-8
    by itself, the answer is the decoding of all the bytes of the
    stream, stripped. *)
Theorem agent_answer_decodes_the_stream agent_id alias_id region access_key
    secret_key user_message events :
  invoke_agent agent_id alias_id region access_key secret_key user_message
  = (events, None) →
  Forall chunk_ok events →
  ∃ t, utf8_decode Strict (concat (omap id events)) = Some t
       ∧ ask_agent agent_id alias_id region access_key secret_key user_message
         = strip t.
Proof.
  intros Hi He. destruct (completion_ok events [] He) as (t & Ht & Hc).
  exists t. split; [done|]. unfold bedrock_agent_ask. by rewrite Hi, Hc.
Qed.

(** X15.  The chunks are decoded one by one: when a chunk ends inside
    a character of several bytes, the call returns the error text and
    drops the whole answer, although the bytes of the two chunks decode
    together. *)
Theorem cut_character_loses_the_answer agent_id alias_id region access_key
    secret_key user_message before s c a b after raised :
  invoke_agent agent_id alias_id region access_key secret_key user_message
  = (before ++ Some (utf8_encode s ++ a) :: Some b :: after, raised) →
  Forall chunk_ok before → Forall is_scalar s → is_scalar c →
  utf8_encode_char c = a ++ b → a ≠ [] → b ≠ [] →
  ask_agent agent_id alias_id region access_key secret_key user_message
  = agent_error (decode_error (utf8_encode s ++ a))
  ∧ utf8_decode Strict ((utf8_encode s ++ a) ++ b) = Some (s ++ [c]).
Proof.
  intros Hi Hb Hs Hc Henc Ha Hb'. split.
  - unfold bedrock_agent_ask. rewrite Hi, completion_bad; [done..|].
    by rewrite (decode_encode_app _ _ Hs), (decode_strict_cut c a b).
  - rewrite <- (assoc_L (++)), <- Henc, (decode_encode_app _ _ Hs).
    rewrite <- (right_id_L [] (++) (utf8_encode_char c)).
    by rewrite decode_encode_char.
Qed.

(** X16.  What [mermaid_from_image] returns has no blank at either end;
    and a failure of the agent is not told apart from a diagram: when
    the call raises with a message without backquote, the error text
    is returned as the code. *)
Theorem agent_error_is_returned_as_code description session_state
    diagram_type :
  let code := mermaid_from_image unicode_tolower invoke_agent decode_error
                description session_state diagram_type in
  ltrim code ∧ rtrim code
  ∧ ∀ events e,
      strip description ≠ [] →
      invoke_agent (bedrock_agent_id session_state)
        (bedrock_alias_id session_state) (bedrock_region session_state)
        (aws_access_key session_state) (aws_secret_key session_state)
        (mermaid_prompt description diagram_type) = (events, Some e) →
      Forall chunk_ok events → 96 ∉ e →
      code = agent_error e.
Proof.
  intros code. unfold code, mermaid_from_image.
  destruct (strip description) as [|x d] eqn:Hd; cbn [is_nil].
  - split; [by intros c b [= <- _]|]. split; [|by intros events e []].
    intros a c H. change (py "[No OCR or image description available]")
      with (py "[No OCR or image description available" ++ [93]) in H.
    by apply app_inj_tail in H as [_ <-].
  - rewrite extract_mermaid_code_block.
    split; [apply mermaid_block_bare|]. split; [apply mermaid_block_bare|].
    intros events e _ Hi He Hq.
    destruct (completion_ok events [] He) as (t & _ & Hc).
    unfold ask, bedrock_agent_ask. rewrite Hi, Hc.
    unfold mermaid_block. rewrite find_fence_no_fence.
    + apply strip_id; apply agent_error_bare.
    + apply no_backquote_no_fence. unfold agent_error.
      rewrite !not_elem_of_app. split; [|split; [done|]];
        apply (bool_decide_unpack _); by vm_compute.
Qed.
End MoreAgent.

Lemma agent_answer_decodes_the_stream_witness :
  ∃ t, utf8_decode Strict (concat (omap id [Some [32; 104]; None; Some [105; 10]]))
       = Some t
       ∧ bedrock_agent_ask (λ _ _ _ _ _ _, ([Some [32; 104]; None; Some [105; 10]], None))
           (λ _, []) [] [] [] [] [] (py "hello")
         = strip t.
Proof.
  apply (agent_answer_decodes_the_stream
           (λ _ _ _ _ _ _, ([Some [32; 104]; None; Some [105; 10]], None))).
  - reflexivity.
  - repeat constructor; intros b [= <-]; vm_compute; eauto.
Defined.

Lemma cut_character_loses_the_answer_witness :
  bedrock_agent_ask
    (λ _ _ _ _ _ _, ([Some [99; 97; 102; 195]; Some [169]], None))
    (λ _, py "invalid") [] [] [] [] [] (py "hello")
  = agent_error (py "invalid")
  ∧ utf8_decode Strict ([99; 97; 102; 195] ++ [169]) = Some (py "caf" ++ [233]).
Proof.
  apply (cut_character_loses_the_answer
           (λ _ _ _ _ _ _, ([Some [99; 97; 102; 195]; Some [169]], None))
           (λ _, py "invalid") [] [] [] [] [] (py "hello")
           [] (py "caf") 233 [195] [169] [] None).
  - reflexivity.
  - constructor.
  - repeat constructor; unfold is_scalar; lia.
  - unfold is_scalar. lia.
  - reflexivity.
  - discriminate.
  - discriminate.
Defined.

Lemma agent_error_is_returned_as_code_witness :
  mermaid_from_image ascii_tolower
    (λ _ _ _ _ _ _, ([Some [111; 107]], Some (py "timeout")))
    (λ _, []) (py "a box") (Session [] [] [] [] []) (py "flowchart")
  = agent_error (py "timeout").
Proof.
  destruct (agent_error_is_returned_as_code ascii_tolower
              (λ _ _ _ _ _ _, ([Some [111; 107]], Some (py "timeout")))
              (λ _, []) (py "a box") (Session [] [] [] [] []) (py "flowchart"))
    as (_ & _ & H).
  apply (H [Some [111; 107]]).
  - vm_compute. discriminate.
  - reflexivity.
  - repeat constructor; intros b [= <-]; vm_compute; eauto.
  - apply (bool_decide_unpack _). by vm_compute.
Defined.

(** ** The header that the prompt prescribes *)

Lemma first_at_no_head c L x : c ∉ x → first_at (c :: L) x.
Proof.
  intros Hc p m1 m2 Heq.
  destruct (decide (length x ≤ length p)%nat) as [|Hlt]; [done|]. exfalso.
  destruct (app_eq_le p ((c :: L) ++ m1) x ((c :: L) ++ m2) Heq)
    as (r & -> & Hr); [lia|].
  destruct r as [|y r].
  - rewrite length_app in Hlt. simpl in Hlt. lia.
  - injection Hr as <- _. apply Hc. rewrite elem_of_app. right. by left.
Qed.

Lemma header_ok_template : header_ok template_caps.
Proof.
  assert (∀ L, starts_nonblank L → first_at L (lines ["  "] ++ [])) as Hf.
  { intros L (c & L' & -> & Hc). apply first_at_no_head.
    intros Hin. cbn in Hin.
    repeat (apply elem_of_cons in Hin as [->|Hin]; [done|]).
    by apply elem_of_nil in Hin. }
  assert (∀ L, field_ok L (L ++ [SP]) [] (lines ["  "])) as Hfield.
  { intros L. split; [by exists [SP]|]. repeat split; try done.
    - by intros a c H%(f_equal length); rewrite length_app in H; simpl in H; lia.
    - by exists [SP; SP], [LF]. }
  assert (field_ok (py "**Topic:**") (py "**Topic:**" ++ [SP]) [] [LF; LF])
    as Hlast.
  { split; [by exists [SP]|]. repeat split; try done.
    - by intros a c H%(f_equal length); rewrite length_app in H; simpl in H; lia.
    - by exists [], [LF; LF]. }
  unfold header_ok.
  refine (conj _ (conj _ (conj _ (conj _ (conj _ (conj _ (conj _ (conj _ _)))))))).
  - exact (Hfield (py "**Author:**")).
  - exact (Hf _ (starts_nonblank_star _)).
  - exact (Hfield (py "**Date:**")).
  - exact (Hf _ (starts_nonblank_star _)).
  - exact (Hfield (py "**Status:**")).
  - exact (Hf _ (starts_nonblank_star _)).
  - exact (Hfield (py "**Reviewers:**")).
  - exact (Hf _ (starts_nonblank_star _)).
  - exact Hlast.
Qed.

Lemma rfc_template_header shorten doc_text image_mermaids a d s r tp :
  rfc_template shorten doc_text image_mermaids a d s r tp
  = (prompt_head ++ tp ++ [LF; LF])
    ++ header_of template_caps a d s r tp
    ++ prompt_sections shorten doc_text image_mermaids.
Proof.
  unfold rfc_template, header_of.
  change (group template_caps 1) with (py "**Author:** ").
  change (group template_caps 3) with (lines ["  "]).
  change (group template_caps 4) with (@nil N).
  change (group template_caps 5) with (py "**Date:** ").
  change (group template_caps 7) with (lines ["  "]).
  change (group template_caps 8) with (@nil N).
  change (group template_caps 9) with (py "**Status:** ").
  change (group template_caps 11) with (lines ["  "]).
  change (group template_caps 12) with (@nil N).
  change (group template_caps 13) with (py "**Reviewers:** ").
  change (group template_caps 15) with (lines ["  "]).
  change (group template_caps 16) with (@nil N).
  change (group template_caps 17) with (py "**Topic:** ").
  change (group template_caps 19) with [LF; LF].
  rewrite !app_nil_l. by rewrite <- !(assoc_L (++)).
Qed.

Section MorePrompt.
Variable today : text.
Variable shorten : text → text.

(** X17.  The header that [markdown_from_ai] prescribes to the agent is
    one that [extract_metadata_from_markdown] reads: parsing the prompt
    returns the five values as they stand after the defaults, when
    each is a single line without blank at either end and the topic
    holds no asterisk. *)
Theorem prompt_header_is_parsed doc_text image_mermaids m custom_prompt
    prompt_image_text :
  let a := get_or m "author" (py "Unknown") in
  let d := get_or m "date" today in
  let s := get_or m "status" (py "Draft") in
  let r := get_or m "reviewers" (py "N/A") in
  let tp := get_or m "topic" (py "Unknown") in
  Forall (λ v, clean v ∧ ltrim v) [a; d; s; r; tp] → 42 ∉ tp →
  extract_metadata_from_markdown
    (markdown_prompt today shorten doc_text image_mermaids m custom_prompt
       prompt_image_text)
  = metadata a d s r tp.
Proof.
  intros a d s r tp Hall Htp.
  apply Forall_cons in Hall as [[Ca La] Hall].
  apply Forall_cons in Hall as [[Cd Ld] Hall].
  apply Forall_cons in Hall as [[Cs Ls] Hall].
  apply Forall_cons in Hall as [[Cr Lr] Hall].
  apply Forall_cons in Hall as [[Ct Lt] _].
  assert (∃ post,
            markdown_prompt today shorten doc_text image_mermaids m
              custom_prompt prompt_image_text
            = (prompt_head ++ tp ++ [LF; LF])
              ++ header_of template_caps a d s r tp ++ post) as [post ->].
  { unfold markdown_prompt. fold a d s r tp. rewrite rfc_template_header.
    generalize (prompt_head ++ tp ++ [LF; LF]) as A.
    generalize (header_of template_caps a d s r tp) as H.
    generalize (prompt_sections shorten doc_text image_mermaids) as S.
    intros S H A.
    destruct custom_prompt as [[|x cp]|], prompt_image_text as [[|y pit]|];
      rewrite <- ?(assoc_L (++) A), <- ?(assoc_L (++) H), <- ?(assoc_L (++) S);
      eexists; reflexivity. }
  destruct (parse_on_header (prompt_head ++ tp ++ [LF; LF]) template_caps
              a d s r tp post) as (f & Hf & _ & G1 & G2 & G3 & G4 & G5);
    try done.
  - apply header_ok_template.
  - apply first_at_no_head. rewrite !not_elem_of_app. split; [|split; [done|]];
      apply (bool_decide_unpack _); by vm_compute.
  - rewrite (extract_found _ _ Hf), G1, G2, G3, G4, G5.
    destruct Ca, Cd, Cs, Cr, Ct. by rewrite !strip_id.
Qed.

End MorePrompt.

Lemma prompt_header_is_parsed_witness :
  extract_metadata_from_markdown
    (markdown_prompt (py "2025-05-05") (λ t, t) (py "Some text.") [py "A-->B"]
       (<["author" := py "Ann"]> ∅) None None)
  = metadata (py "Ann") (py "2025-05-05") (py "Draft") (py "N/A") (py "Unknown").
Proof.
  refine (prompt_header_is_parsed (py "2025-05-05") (λ t, t) (py "Some text.")
            [py "A-->B"] (<["author" := py "Ann"]> ∅) None None _ _).
  - repeat constructor;
      (apply plain_value_clean, plain_value_b_ok; vm_compute; reflexivity)
      || (apply plain_value_b_ok; vm_compute; reflexivity).
  - apply (bool_decide_unpack _). by vm_compute.
Defined.

(** ** The review page *)

Lemma update_is_Some t m : plain_values m → is_Some (update_metadata_in_markdown t m).
Proof.
  intros Hm. unfold update_metadata_in_markdown, re_sub.
  rewrite groups_update_regex, (parse_template_repl m Hm). eauto.
Qed.

Lemma metadata_status a d s r tp : metadata a d s r tp !! "status" = Some s.
Proof. unfold metadata. by simplify_map_eq. Qed.

Lemma metadata_nonempty a d s r tp : metadata a d s r tp ≠ ∅.
Proof.
  intros H. pose proof (metadata_status a d s r tp) as H'.
  by rewrite H, lookup_empty in H'.
Qed.

(** X19.  With new values that hold no backslash, the review page
    raises exactly when the parser finds a status that is not one of
    the four options of the status box: [list.index] has no default.
    A text in which the parser finds nothing never raises. *)
Theorem review_page_raises_on_unknown_status rfc_md author status reviewers
    date topic comment append_comments :
  plain_values (metadata author date status reviewers topic) →
  final_md rfc_md author status reviewers date topic comment append_comments
  = None
  ↔ ∃ s, extract_metadata_from_markdown rfc_md !! "status" = Some s
         ∧ s ∉ status_options.
Proof.
  intros Hm. unfold final_md.
  destruct (search metadata_regex rfc_md) as [f|] eqn:Hs.
  - rewrite (extract_found _ _ Hs).
    rewrite (bool_decide_eq_false_2 _ (metadata_nonempty _ _ _ _ _)).
    rewrite metadata_status. cbn [default].
    case_bool_decide as Hin.
    + destruct (update_is_Some rfc_md _ Hm) as [t ->]. simpl.
      split; [done|]. by intros (s & [= <-] & Hs').
    + simpl. split; [|done]. intros _. eauto.
  - unfold extract_metadata_from_markdown. rewrite Hs.
    rewrite bool_decide_eq_true_2 by done. simpl.
    split; [done|]. intros (s & H & _). by rewrite lookup_empty in H.
Qed.

Lemma review_page_raises_on_unknown_status_witness :
  final_md (line "**Author:** Jane" ++ line "**Date:** 2024-01-01"
            ++ line "**Status:** In review" ++ line "**Reviewers:** Bob"
            ++ line "**Topic:** X")
    (py "Jane") (py "Draft") (py "Bob") (py "2024-01-01") (py "X") [] true
  = None.
Proof.
  apply (review_page_raises_on_unknown_status _ (py "Jane") (py "Draft")
           (py "Bob") (py "2024-01-01") (py "X") [] true).
  - unfold plain_values.
    destruct (get_metadata (py "Jane") (py "2024-01-01") (py "Draft") (py "Bob")
                (py "X")) as (-> & -> & -> & -> & ->).
    repeat split; apply (bool_decide_unpack _); by vm_compute.
  - exists (py "In review"). split; [by vm_compute|].
    apply (bool_decide_unpack _). by vm_compute.
Defined.

(** ** Pages of a PDF *)

Section PdfPages.
Variable str_lower : text → text.
Variables has_docx has_pypdf2 : bool.
Variable docx_paragraphs : list N → option (list text).
Variable pdf_page_texts : list N → option (list text).

(** X20.  The text of a PDF is the texts of its pages joined by line
    feeds, the empty ones left out: when a page has text and no page
    text holds a line feed, splitting the result at the line feeds
    gives the non-empty page texts, so an empty page leaves no empty
    line. *)
Theorem pdf_text_splits_into_pages file_bytes file_name pages :
  extension str_lower file_name = py "pdf" → has_pypdf2 = true →
  pdf_page_texts file_bytes = Some pages →
  filter (λ t, t ≠ []) pages ≠ [] → Forall (λ t, LF ∉ t) pages →
  ∃ t, extract_text_from_file str_lower has_docx has_pypdf2 docx_paragraphs
         pdf_page_texts file_bytes file_name = Some t
       ∧ split_on LF t = filter (λ t, t ≠ []) pages
       ∧ [] ∉ split_on LF t.
Proof.
  intros Hext Hp Hpages Hne Hall.
  exists (join [LF] (filter (λ t, t ≠ []) pages)).
  assert (split_on LF (join [LF] (filter (λ t, t ≠ []) pages))
          = filter (λ t, t ≠ []) pages) as Hsplit.
  { apply split_on_join; [done|]. apply Forall_forall.
    intros p [_ Hp']%list_elem_of_filter. revert p Hp'. by apply Forall_forall. }
  split; [|split; [done|]].
  - unfold extract_text_from_file. rewrite Hext, Hp, Hpages.
    by destruct has_docx.
  - rewrite Hsplit. by intros [H _]%list_elem_of_filter.
Qed.
End PdfPages.

Lemma pdf_text_splits_into_pages_witness :
  ∃ t, extract_text_from_file ascii_lower true true reader_fails
         (λ _, Some [py "one"; []; py "two"]) [37; 80] (py "a.PDF") = Some t
       ∧ split_on LF t = filter (λ t, t ≠ []) [py "one"; []; py "two"]
       ∧ [] ∉ split_on LF t.
Proof.
  apply (pdf_text_splits_into_pages ascii_lower true true reader_fails
           (λ _, Some [py "one"; []; py "two"])).
  - vm_compute. reflexivity.
  - reflexivity.
  - reflexivity.
  - vm_compute. discriminate.
  - repeat constructor; apply (bool_decide_unpack _); by vm_compute.
Defined.

(** ** Where the parser starts *)

(** The match that the parser finds starts at the first place where
    the author label stands. *)
Lemma parse_search_first_at t f :
  search metadata_regex t = Some f → first_at (py "**Author:** ") (f_pre f).
Proof.
  intros Hs. apply search_Some in Hs as (s1 & _ & Hm & Hleft).
  intros p m1 m2 Heq.
  destruct (decide (length (f_pre f) ≤ length p)%nat) as [|Hn]; [done|]. exfalso.
  destruct (label_shift (py "**Author:** ") [] (f_pre f) p m1 m2 Heq)
    as (f' & r & b & Hf & Hr & Hb); [simpl; lia|done|apply starts_nonblank_star|].
  unfold match_here in Hm. rewrite metadata_regex_fields in Hm.
  apply pfield_inv in Hm as (v & e & s'' & -> & _ & _ & He & HRx);
    [|apply accept_false_total|apply absorbs_filler, accept_false_total].
  specialize (Hleft f' r Hf Hr).
  assert (is_Some (match_here metadata_regex false
                     (r ++ py "**Author:** " ++ v ++ e ++ s''))) as [x' Hx'];
    [|by rewrite Hleft in Hx'].
  unfold match_here. rewrite metadata_regex_fields.
  rewrite (assoc_L (++) r), Hb, <- (assoc_L (++)).
  replace (b ++ v ++ e ++ s'') with ((b ++ v) ++ e ++ s'')
    by (by rewrite <- !(assoc_L (++))).
  apply pfield_ok; [done|]. intros c'.
  eapply is_Some_total; [apply accept_false_total|eauto].
Qed.

Lemma first_line_app v s : nl_free v → first_line (v ++ s) = v ++ first_line s.
Proof.
  unfold nl_free. induction v as [|c v IH]; [done|].
  intros H. cbn [forallb] in H. apply andb_true_iff in H as [Hc Hv].
  apply negb_true_iff in Hc.
  change (first_line ((c :: v) ++ s))
    with (if cls_ok NL c then [] else c :: first_line (v ++ s)).
  change (cls_ok NL c = false) in Hc. rewrite Hc, (IH Hv). done.
Qed.

Lemma first_line_eol e s : eol e → blank (first_line (e ++ s)).
Proof.
  intros (x & n & -> & Hx & Hn & Hnl). rewrite <- (assoc_L (++)).
  induction x as [|c x IH].
  - destruct n as [|c n]; [done|]. cbn [forallb] in Hnl.
    apply andb_true_iff in Hnl as [Hc _]. simpl app.
    change (first_line (c :: n ++ s))
      with (if cls_ok NL c then [] else c :: first_line (n ++ s)).
    by rewrite Hc.
  - cbn [forallb] in Hx. apply andb_true_iff in Hx as [Hc Hx]. simpl app.
    change (first_line (c :: x ++ n ++ s))
      with (if cls_ok NL c then [] else c :: first_line (x ++ n ++ s)).
    destruct (cls_ok NL c); [done|]. unfold blank. simpl. rewrite Hc.
    by apply IH.
Qed.

Lemma strip_app_blank u w : blank w → strip (u ++ w) = strip u.
Proof.
  induction w as [|y w IH] using rev_ind; [by rewrite (right_id_L [] (++))|].
  intros [Hw Hy]%blank_app. rewrite (assoc_L (++)).
  rewrite strip_snoc_blank; [by apply IH|].
  unfold blank in Hy. simpl in Hy. by apply andb_true_iff in Hy as [Hy _].
Qed.

(** X21.  The author is read at the first place where the label
    "**Author:** " stands in the text, whether or not a full header
    starts there: the value returned is the rest of the line after
    that label, up to the first carriage return or line feed, stripped
    of the blanks at its ends. *)
Theorem author_is_read_at_the_first_label md_text v :
  extract_metadata_from_markdown md_text !! "author" = Some v →
  ∃ a b, md_text = a ++ py "**Author:** " ++ b
         ∧ first_at (py "**Author:** ") a
         ∧ v = strip (first_line b).
Proof.
  unfold extract_metadata_from_markdown.
  destruct (search metadata_regex md_text) as [f|] eqn:Hs;
    [|by rewrite lookup_empty].
  pose proof (parse_search_first_at _ _ Hs) as Hfirst.
  apply search_Some in Hs as (s1 & -> & Hm & _).
  destruct (parse_match_values _ _ _ Hm 1%nat) as [N1 _]; [left|].
  apply parse_match_layout in Hm
    as (v1 & e1 & z1 & v2 & e2 & z2 & v3 & e3 & z3 & v4 & e4 & z4 & v5 & e5
        & -> & (E1 & _) & G1 & _).
  rewrite lookup_insert_eq. intros [= <-]. rewrite G1 in N1 |- *.
  eexists (f_pre f), _. split; [reflexivity|]. split; [done|].
  rewrite (first_line_app _ _ N1). symmetry. apply strip_app_blank.
  by apply first_line_eol.
Qed.

Lemma author_is_read_at_the_first_label_witness :
  ∃ a b,
    line "Keep the **Author:** line first." ++ sample
    = a ++ py "**Author:** " ++ b
    ∧ first_at (py "**Author:** ") a
    ∧ py "line first." = strip (first_line b).
Proof.
  apply (author_is_read_at_the_first_label
           (line "Keep the **Author:** line first." ++ sample)).
  vm_compute. reflexivity.
Defined.

(** On a header whose author line is empty the author is empty: the
    next line is not read. *)
Lemma empty_author_line_is_empty_author :
  extract_metadata_from_markdown sample_broken !! "author" = Some [].
Proof. vm_compute. reflexivity. Qed.

(** ** A value that ends with a backslash *)

Lemma expand_cons_lit l tpl c : expand (TLit l :: tpl) c = l ++ expand tpl c.
Proof. done. Qed.

Lemma parse_template_trailing_backslash m v :
  get m "author" = v ++ [BSL] → (BSL ∉ v) →
  (BSL ∉ get m "date") → (BSL ∉ get m "status") →
  (BSL ∉ get m "reviewers") → (BSL ∉ get m "topic") →
  parse_template 19 (repl m)
  = Some (TGrp 1 :: lits v ++ TLit [BSL] :: lits (py "g<3>") ++
          TGrp 4 :: TGrp 5 :: lits (get m "date") ++
          TGrp 7 :: TGrp 8 :: TGrp 9 :: lits (get m "status") ++
          TGrp 11 :: TGrp 12 :: TGrp 13 :: lits (get m "reviewers") ++
          TGrp 15 :: TGrp 16 :: TGrp 17 :: lits (get m "topic") ++ [TGrp 19]).
Proof.
  intros Ha Hv Hd Hs Hr Ht. unfold repl. rewrite Ha.
  change (parse_template 19 (py "\g<1>" ++ ?s))
    with (group_ref 19 1 (parse_template 19 s)).
  rewrite <- (assoc_L (++) v), (parse_template_plain _ _ _ Hv).
  change (parse_template 19 ([BSL] ++ py "\g<3>\g<4>\g<5>" ++ ?s))
    with (item (TLit [BSL]) (item (TLit [103]) (item (TLit [60])
            (item (TLit [51]) (item (TLit [62])
               (group_ref 19 4 (group_ref 19 5 (parse_template 19 s)))))))).
  rewrite (parse_template_plain _ _ _ Hd).
  change (parse_template 19 (py "\g<7>\g<8>\g<9>" ++ ?s))
    with (group_ref 19 7 (group_ref 19 8 (group_ref 19 9 (parse_template 19 s)))).
  rewrite (parse_template_plain _ _ _ Hs).
  change (parse_template 19 (py "\g<11>\g<12>\g<13>" ++ ?s))
    with (group_ref 19 11 (group_ref 19 12 (group_ref 19 13 (parse_template 19 s)))).
  rewrite (parse_template_plain _ _ _ Hr).
  change (parse_template 19 (py "\g<15>\g<16>\g<17>" ++ ?s))
    with (group_ref 19 15 (group_ref 19 16 (group_ref 19 17 (parse_template 19 s)))).
  rewrite (parse_template_plain _ _ _ Ht).
  reflexivity.
Qed.

(** X22.  A new author that ends with a backslash does not make the
    update raise: the backslash pairs with the one of the group
    reference that follows it in the template, so the end of the
    author's line is lost and the characters g<3> are written in its
    place.  (The author holds no other backslash, the other values
    none.) *)
Theorem trailing_backslash_swallows_the_line_end t f m v :
  search update_regex t = Some f →
  get m "author" = v ++ [BSL] → (BSL ∉ v) →
  (BSL ∉ get m "date") → (BSL ∉ get m "status") →
  (BSL ∉ get m "reviewers") → (BSL ∉ get m "topic") →
  ∃ rest',
    update_metadata_in_markdown t m
    = Some (f_pre f ++ group (f_caps f) 1 ++ v ++ [BSL] ++ py "g<3>"
            ++ group (f_caps f) 4 ++ group (f_caps f) 5 ++ get m "date"
            ++ group (f_caps f) 7 ++ group (f_caps f) 8
            ++ group (f_caps f) 9 ++ get m "status"
            ++ group (f_caps f) 11 ++ group (f_caps f) 12
            ++ group (f_caps f) 13 ++ get m "reviewers"
            ++ group (f_caps f) 15 ++ group (f_caps f) 16
            ++ group (f_caps f) 17 ++ get m "topic"
            ++ group (f_caps f) 19 ++ rest').
Proof.
  intros Hs Ha Hv Hd Hst Hr Ht.
  unfold update_metadata_in_markdown, re_sub.
  rewrite groups_update_regex,
    (parse_template_trailing_backslash m v Ha Hv Hd Hst Hr Ht).
  rewrite (sub_loop_fuel _ _ _ (S (2 * length t + 1)) false t) by (simpl; lia).
  rewrite sub_loop_S. unfold search in Hs. rewrite Hs.
  eexists. do 2 f_equal.
  repeat first [ rewrite expand_cons_grp | rewrite expand_cons_lit
               | rewrite expand_app | rewrite expand_lits ].
  change (expand [] (f_caps f)) with (@nil N).
  rewrite (right_id_L [] (++)), <- !(assoc_L (++)). reflexivity.
Qed.

Lemma trailing_backslash_swallows_the_line_end_witness :
  ∃ rest',
    update_metadata_in_markdown sample
      (metadata (py "Ann" ++ [BSL]) (py "2025-05-05") (py "Accepted") (py "Cy") (py "Y"))
    = Some (f_pre sample_found ++ group (f_caps sample_found) 1 ++ py "Ann"
            ++ [BSL] ++ py "g<3>"
            ++ group (f_caps sample_found) 4 ++ group (f_caps sample_found) 5
            ++ get (metadata (py "Ann" ++ [BSL]) (py "2025-05-05") (py "Accepted")
                      (py "Cy") (py "Y")) "date"
            ++ group (f_caps sample_found) 7 ++ group (f_caps sample_found) 8
            ++ group (f_caps sample_found) 9
            ++ get (metadata (py "Ann" ++ [BSL]) (py "2025-05-05") (py "Accepted")
                      (py "Cy") (py "Y")) "status"
            ++ group (f_caps sample_found) 11 ++ group (f_caps sample_found) 12
            ++ group (f_caps sample_found) 13
            ++ get (metadata (py "Ann" ++ [BSL]) (py "2025-05-05") (py "Accepted")
                      (py "Cy") (py "Y")) "reviewers"
            ++ group (f_caps sample_found) 15 ++ group (f_caps sample_found) 16
            ++ group (f_caps sample_found) 17
            ++ get (metadata (py "Ann" ++ [BSL]) (py "2025-05-05") (py "Accepted")
                      (py "Cy") (py "Y")) "topic"
            ++ group (f_caps sample_found) 19 ++ rest').
Proof.
  apply (trailing_backslash_swallows_the_line_end sample sample_found
           (metadata (py "Ann" ++ [BSL]) (py "2025-05-05") (py "Accepted") (py "Cy")
              (py "Y")) (py "Ann")).
  - vm_compute. reflexivity.
  - vm_compute. reflexivity.
  - apply (bool_decide_unpack _). by vm_compute.
  - apply (bool_decide_unpack _). by vm_compute.
  - apply (bool_decide_unpack _). by vm_compute.
  - apply (bool_decide_unpack _). by vm_compute.
  - apply (bool_decide_unpack _). by vm_compute.
Defined.

(** ** Reviewing without a change *)

(** A text with one header in the layout of the parser: the parser
    reads the five value groups, and writing them back changes
    nothing. *)
Lemma header_fixpoint t f :
  search update_regex t = Some f → tight_labels (f_caps f) →
  search update_regex (f_rest f) = None →
  (BSL ∉ group (f_caps f) 2) → (BSL ∉ group (f_caps f) 6) →
  (BSL ∉ group (f_caps f) 10) → (BSL ∉ group (f_caps f) 14) →
  (BSL ∉ group (f_caps f) 18) →
  extract_metadata_from_markdown t
  = metadata (group (f_caps f) 2) (group (f_caps f) 6) (group (f_caps f) 10)
      (group (f_caps f) 14) (group (f_caps f) 18)
  ∧ update_metadata_in_markdown t
      (metadata (group (f_caps f) 2) (group (f_caps f) 6)
         (group (f_caps f) 10) (group (f_caps f) 14) (group (f_caps f) 18))
    = Some t.
Proof.
  intros Hs Ht Hn B1 B2 B3 B4 B5.
  pose proof (update_search_first_at t f Hs) as FA.
  destruct (search_Some _ _ _ Hs) as (s1 & _ & Hhere & _).
  apply update_match_ok in Hhere.
  pose proof Hhere as ((_ & N1 & R1 & L1 & _) & _ & (_ & N2 & R2 & L2 & _) & _
                       & (_ & N3 & R3 & L3 & _) & _ & (_ & N4 & R4 & L4 & _) & _
                       & (_ & N5 & R5 & L5 & _)).
  set (m := metadata (group (f_caps f) 2) (group (f_caps f) 6)
              (group (f_caps f) 10) (group (f_caps f) 14) (group (f_caps f) 18)).
  destruct (get_metadata (group (f_caps f) 2) (group (f_caps f) 6)
              (group (f_caps f) 10) (group (f_caps f) 14) (group (f_caps f) 18))
    as (Ga & Gd & Gs & Gr & Gtp). fold m in Ga, Gd, Gs, Gr, Gtp.
  assert (plain_values m) as Hm.
  { unfold plain_values. by rewrite Ga, Gd, Gs, Gr, Gtp. }
  destruct (update_unfold t m f Hs Hm) as (Htx & rest' & Hr & Hu).
  rewrite (update_no_header _ _ Hn Hm) in Hr. injection Hr as <-.
  rewrite Ga, Gd, Gs, Gr, Gtp in Hu. fold (header (f_caps f)) in Hu.
  rewrite <- Htx in Hu.
  destruct (parse_on_header (f_pre f) (f_caps f) (group (f_caps f) 2)
              (group (f_caps f) 6) (group (f_caps f) 10) (group (f_caps f) 14)
              (group (f_caps f) 18) (f_rest f) Hhere Ht FA)
    as (f' & Hf' & _ & G1 & G2 & G3 & G4 & G5); try done.
  fold (header (f_caps f)) in Hf'. rewrite <- Htx in Hf'.
  split; [|exact Hu].
  rewrite (extract_found _ _ Hf'), G1, G2, G3, G4, G5.
  by rewrite !strip_id.
Qed.

(** X23.  Opening the review page on a text with one header in the
    layout of the parser, a status among the four options and values
    without backslash, and leaving the fields and the comment as they
    come up, gives back the text as it was. *)
Theorem review_without_edits_returns_the_text t f comment append_comments :
  search update_regex t = Some f → tight_labels (f_caps f) →
  search update_regex (f_rest f) = None →
  (BSL ∉ group (f_caps f) 2) → (BSL ∉ group (f_caps f) 6) →
  (BSL ∉ group (f_caps f) 10) → (BSL ∉ group (f_caps f) 14) →
  (BSL ∉ group (f_caps f) 18) →
  group (f_caps f) 10 ∈ status_options → strip comment = [] →
  let md_metadata := extract_metadata_from_markdown t in
  final_md t (get md_metadata "author") (get md_metadata "status")
    (get md_metadata "reviewers") (get md_metadata "date")
    (get md_metadata "topic") comment append_comments
  = Some t.
Proof.
  intros Hs Ht Hn B1 B2 B3 B4 B5 Hst Hc md_metadata.
  destruct (header_fixpoint t f Hs Ht Hn B1 B2 B3 B4 B5) as [He Hu].
  unfold md_metadata, final_md. rewrite He.
  destruct (get_metadata (group (f_caps f) 2) (group (f_caps f) 6)
              (group (f_caps f) 10) (group (f_caps f) 14) (group (f_caps f) 18))
    as (-> & -> & -> & -> & ->).
  rewrite (bool_decide_eq_false_2 _ (metadata_nonempty _ _ _ _ _)).
  rewrite metadata_status. cbn [default].
  rewrite (bool_decide_eq_true_2 _ Hst), Hu, Hc. done.
Qed.

Lemma review_without_edits_returns_the_text_witness :
  final_md sample (get (extract_metadata_from_markdown sample) "author")
    (get (extract_metadata_from_markdown sample) "status")
    (get (extract_metadata_from_markdown sample) "reviewers")
    (get (extract_metadata_from_markdown sample) "date")
    (get (extract_metadata_from_markdown sample) "topic") (py "  ") true
  = Some sample.
Proof.
  apply (review_without_edits_returns_the_text sample sample_found (py "  ") true).
  - vm_compute. reflexivity.
  - exact tight_labels_sample.
  - vm_compute. reflexivity.
  - apply (bool_decide_unpack _). by vm_compute.
  - apply (bool_decide_unpack _). by vm_compute.
  - apply (bool_decide_unpack _). by vm_compute.
  - apply (bool_decide_unpack _). by vm_compute.
  - apply (bool_decide_unpack _). by vm_compute.
  - apply (bool_decide_unpack _). by vm_compute.
  - reflexivity.
Defined.

(** ** The two readers of fenced blocks *)

Lemma occurs_close_fence m : occurs block_close m → occurs fence m.
Proof. intros (a & b & ->). by exists (a ++ [LF]), b; rewrite <- (assoc_L (++)). Qed.

(** A content without fence, between its two line feeds. *)
Lemma wrapped_no_fence m : ¬ occurs fence m → ¬ occurs fence (LF :: m ++ [LF]).
Proof.
  intros Hm (a & b & E). destruct a as [|x a]; [done|].
  assert (m ++ [LF] = a ++ fence ++ b) as E' by (by injection E).
  clear E. destruct b as [|z b _] using rev_ind.
  - rewrite (right_id_L [] (++)) in E'.
    change fence with ([96; 96] ++ [96]) in E'. rewrite (assoc_L (++)) in E'.
    by apply app_inj_tail in E' as [_ ?].
  - rewrite !(assoc_L (++)) in E'. apply app_inj_tail in E' as [-> _].
    apply Hm. exists a, b. by rewrite <- (assoc_L (++)).
Qed.

Lemma until_close_wrapped m :
  ¬ occurs fence m →
  strip (until_close ((LF :: m ++ [LF]) ++ fence)) = strip m.
Proof.
  intros Hm.
  assert (strip (LF :: m ++ [LF]) = strip m) as Hstrip.
  { rewrite app_comm_cons, strip_snoc_blank by done. done. }
  destruct (until_close_spec (LF :: m ++ [LF]) fence) as [-> | ->];
    [| |done|by rewrite strip_snoc_blank].
  - intros u' v' Heq Hlen.
    destruct (strip_prefix fence v') as [s'|] eqn:E; [|done]. exfalso.
    apply strip_prefix_Some in E as ->.
    destruct (app_eq_le u' (fence ++ s') (LF :: m ++ [LF]) fence (eq_sym Heq))
      as (r & Hu & Hr); [lia|].
    change fence with [96; 96; 96] in Hr.
    destruct r as [|x [|y [|z r]]].
    + rewrite (right_id_L [] (++)) in Hu. rewrite Hu in Hlen. lia.
    + assert (x = 96) as -> by (by injection Hr).
      rewrite app_comm_cons in Hu. by apply app_inj_tail in Hu as [_ ?].
    + assert (y = 96) as -> by (by injection Hr).
      rewrite app_comm_cons in Hu.
      change (u' ++ [x; 96]) with (u' ++ [x] ++ [96]) in Hu.
      rewrite (assoc_L (++)) in Hu. by apply app_inj_tail in Hu as [_ ?].
    + assert (x = 96 ∧ y = 96 ∧ z = 96) as (-> & -> & ->)
        by (by injection Hr).
      apply (wrapped_no_fence m Hm). exists u', r. by rewrite Hu.
  - left. by rewrite <- (right_id_L [] (++) fence), strip_prefix_app.
Qed.

Lemma strip_prefix_i_cons lower x l y s :
  existsb (N.eqb (lower y)) x = true →
  strip_prefix_i lower (x :: l) (y :: s) = strip_prefix_i lower l s.
Proof. intros H. simpl. by rewrite H. Qed.

(** [extract_mermaid_code] on a block that is written out. *)
Lemma extract_code_of_block lower m :
  (∀ c, c ∈ py "mermaid" → lower c = c) → ¬ occurs fence m →
  extract_mermaid_code lower (block_open ++ m ++ block_close) = strip m.
Proof.
  intros Hlower Hm.
  rewrite extract_mermaid_code_block. unfold mermaid_block.
  assert (lower 109 = 109 ∧ lower 101 = 101 ∧ lower 114 = 114 ∧ lower 97 = 97
          ∧ lower 105 = 105 ∧ lower 100 = 100) as (Em & Ee & Er & Ea & Ei & Ed).
  { repeat split; apply Hlower; apply (bool_decide_unpack _); by vm_compute. }
  assert (find_fence lower (block_open ++ m ++ block_close)
          = Some ((LF :: m ++ [LF]) ++ fence)) as ->.
  { rewrite find_fence_unfold.
    assert (opens lower (block_open ++ m ++ block_close)
            = Some ((LF :: m ++ [LF]) ++ fence)) as ->; [|done].
    unfold opens, block_open.
    rewrite <- (assoc_L (++)), strip_prefix_app.
    change ((py "mermaid" ++ [LF]) ++ m ++ block_close)
      with (109 :: 101 :: 114 :: 109 :: 97 :: 105 :: 100
            :: (LF :: m ++ block_close)).
    unfold mermaid_letters.
    rewrite !strip_prefix_i_cons
      by (rewrite ?Em, ?Ee, ?Er, ?Ea, ?Ei, ?Ed; reflexivity).
    change (strip_prefix_i lower [] ?x) with (Some x). f_equal.
    unfold block_close. rewrite <- app_comm_cons. f_equal.
    by rewrite <- (assoc_L (++)). }
  by apply until_close_wrapped.
Qed.

(** X24.  On a well-formed block, an opening line of three backquotes
    and "mermaid", a content without three backquotes in a row, and a
    closing fence on a line of its own, [extract_mermaid_code] and the
    link harvester followed by the strip of
    [process_document_for_diagrams] return the same code. *)
Theorem fence_readers_agree lower image_urls_of drawio_urls_of mermaid_urls_of m :
  (∀ c, c ∈ py "mermaid" → lower c = c) → ¬ occurs fence m →
  extract_mermaid_code lower (block_open ++ m ++ block_close) = strip m
  ∧ map strip
      (extract_external_diagram_links image_urls_of drawio_urls_of
         mermaid_urls_of (block_open ++ m ++ block_close)).2
    = [strip m].
Proof.
  intros Hlower Hm. split; [by apply extract_code_of_block|].
  unfold extract_external_diagram_links. cbn [snd].
  rewrite <- (app_nil_l (block_open ++ m ++ block_close)).
  rewrite <- (right_id_L [] (++) block_close), findall_block_step.
  - by rewrite findall_block_none by apply not_elem_of_nil.
  - apply not_elem_of_nil.
  - intros H. by apply Hm, occurs_close_fence.
Qed.

Lemma fence_readers_agree_witness :
  extract_mermaid_code ascii_tolower (block_open ++ py "A-->B " ++ block_close)
  = strip (py "A-->B ")
  ∧ map strip
      (extract_external_diagram_links (λ _, []) (λ _, []) (λ _, [])
         (block_open ++ py "A-->B " ++ block_close)).2
    = [strip (py "A-->B ")].
Proof.
  apply (fence_readers_agree ascii_tolower (λ _, []) (λ _, []) (λ _, [])).
  - intros c Hc.
    repeat (apply elem_of_cons in Hc as [->|Hc]; [reflexivity|]).
    by apply elem_of_nil in Hc.
  - apply occurs_b_false. vm_compute. reflexivity.
Defined.

(** ** What the review page writes is what it reads next *)

(** X25.  On a text whose header has each label followed by one
    blank and a status among the four options, with the comment
    appended or left blank, the review page returns a text in which
    the parser finds the five values of the input fields, when these
    hold no backslash and no line break and have no blank at either
    end. *)
Theorem review_edits_are_read_back t f author status reviewers date topic
    comment append_comments :
  search update_regex t = Some f → tight_labels (f_caps f) →
  group (f_caps f) 10 ∈ status_options →
  plain_value author → plain_value date → plain_value status →
  plain_value reviewers → plain_value topic →
  append_comments = true ∨ strip comment = [] →
  ∃ t', final_md t author status reviewers date topic comment append_comments
        = Some t'
        ∧ extract_metadata_from_markdown t'
          = metadata author date status reviewers topic.
Proof.
  intros Hs Ht Hst Pa Pd Ps Pr Ptp Hc.
  destruct (get_metadata author date status reviewers topic)
    as (Ga & Gd & Gs & Gr & Gtp).
  assert (plain_values (metadata author date status reviewers topic)) as Hm.
  { unfold plain_values. rewrite Ga, Gd, Gs, Gr, Gtp.
    unfold plain_value in *. tauto. }
  destruct (update_unfold t _ f Hs Hm) as (Htx & rest' & _ & Hu).
  rewrite Ga, Gd, Gs, Gr, Gtp in Hu.
  pose proof (update_search_first_at t f Hs) as FA.
  destruct (search_Some _ _ _ Hs) as (s1 & _ & Hhere & _).
  apply update_match_ok in Hhere.
  pose proof Hhere as ((_ & N1 & R1 & L1 & _) & _ & (_ & N2 & R2 & L2 & _) & _
                       & (_ & N3 & R3 & L3 & _) & _ & (_ & N4 & R4 & L4 & _) & _
                       & (_ & N5 & R5 & L5 & _)).
  assert (extract_metadata_from_markdown t
          = metadata (group (f_caps f) 2) (group (f_caps f) 6)
              (group (f_caps f) 10) (group (f_caps f) 14)
              (group (f_caps f) 18)) as He.
  { destruct (parse_on_header (f_pre f) (f_caps f) (group (f_caps f) 2)
                (group (f_caps f) 6) (group (f_caps f) 10)
                (group (f_caps f) 14) (group (f_caps f) 18) (f_rest f)
                Hhere Ht FA)
      as (f' & Hf' & _ & G1 & G2 & G3 & G4 & G5); try done.
    fold (header (f_caps f)) in Hf'. rewrite <- Htx in Hf'.
    rewrite (extract_found _ _ Hf'), G1, G2, G3, G4, G5.
    by rewrite !strip_id. }
  assert (∀ post,
            extract_metadata_from_markdown
              (f_pre f ++ header_of (f_caps f) author date status reviewers
                            topic ++ post)
            = metadata author date status reviewers topic) as Hparse.
  { intros post.
    destruct (parse_on_header (f_pre f) (f_caps f) author date status reviewers
                topic post Hhere Ht FA)
      as (f' & Hf' & _ & G1 & G2 & G3 & G4 & G5);
      try by apply plain_value_clean.
    rewrite (extract_found _ _ Hf'), G1, G2, G3, G4, G5.
    unfold plain_value in *. rewrite !strip_id; tauto. }
  unfold final_md. rewrite He.
  rewrite (bool_decide_eq_false_2 _ (metadata_nonempty _ _ _ _ _)).
  rewrite metadata_status. cbn [default].
  rewrite (bool_decide_eq_true_2 _ Hst), Hu. cbn [mbind option_bind].
  eexists. split; [reflexivity|].
  destruct (is_nil (strip comment)) eqn:Hnil; cbn [negb andb].
  - apply Hparse.
  - destruct Hc as [-> | Hc]; [|by rewrite Hc in Hnil].
    rewrite <- !(assoc_L (++)). apply Hparse.
Qed.

Lemma review_edits_are_read_back_witness :
  ∃ t', final_md sample (py "Ann") (py "Accepted") (py "Cy, Di") (py "2025-05-05")
          (py "Y") (py "Looks fine.") true = Some t'
        ∧ extract_metadata_from_markdown t' = sample_metadata.
Proof.
  apply (review_edits_are_read_back sample sample_found (py "Ann")
           (py "Accepted") (py "Cy, Di") (py "2025-05-05") (py "Y")
           (py "Looks fine.") true).
  - vm_compute. reflexivity.
  - exact tight_labels_sample.
  - apply (bool_decide_unpack _). by vm_compute.
  - apply plain_value_b_ok. vm_compute. reflexivity.
  - apply plain_value_b_ok. vm_compute. reflexivity.
  - apply plain_value_b_ok. vm_compute. reflexivity.
  - apply plain_value_b_ok. vm_compute. reflexivity.
  - apply plain_value_b_ok. vm_compute. reflexivity.
  - by left.
Defined.

(** ** A diagram from the agent *)

(** X26.  When the description is not blank, the call does not raise,
    every chunk is valid UTF-8 and the answer, stripped, is one
    well-formed block, [mermaid_from_image] returns the content of the
    block, stripped. *)
Theorem block_answer_gives_its_code lower invoke_agent decode_error
    description session_state diagram_type events t m :
  strip description ≠ [] →
  invoke_agent (bedrock_agent_id session_state)
    (bedrock_alias_id session_state) (bedrock_region session_state)
    (aws_access_key session_state) (aws_secret_key session_state)
    (mermaid_prompt description diagram_type) = (events, None) →
  Forall chunk_ok events →
  utf8_decode Strict (concat (omap id events)) = Some t →
  strip t = block_open ++ m ++ block_close →
  (∀ c, c ∈ py "mermaid" → lower c = c) → ¬ occurs fence m →
  mermaid_from_image lower invoke_agent decode_error description
    session_state diagram_type
  = strip m.
Proof.
  intros Hd Hi He Ht Hblock Hlower Hm. unfold mermaid_from_image.
  destruct (strip description) as [|x d]; [done|]. cbn [is_nil].
  destruct (completion_ok events [] He) as (t' & Ht' & Hc).
  rewrite Ht in Ht'. injection Ht' as <-.
  unfold ask, bedrock_agent_ask. rewrite Hi, Hc. cbn [app].
  rewrite Hblock. by apply extract_code_of_block.
Qed.

Lemma block_answer_gives_its_code_witness :
  mermaid_from_image ascii_tolower
    (λ _ _ _ _ _ _,
       ([Some (py "```mermaid" ++ [LF]); None;
         Some (py "A-->B" ++ [LF] ++ py "```" ++ [LF])], None))
    (λ _, []) (py "a box") (Session [] [] [] [] []) (py "flowchart")
  = strip (py "A-->B").
Proof.
  apply (block_answer_gives_its_code ascii_tolower
           (λ _ _ _ _ _ _,
              ([Some (py "```mermaid" ++ [LF]); None;
                Some (py "A-->B" ++ [LF] ++ py "```" ++ [LF])], None))
           (λ _, []) (py "a box") (Session [] [] [] [] []) (py "flowchart")
           [Some (py "```mermaid" ++ [LF]); None;
            Some (py "A-->B" ++ [LF] ++ py "```" ++ [LF])]
           (py "```mermaid" ++ [LF] ++ py "A-->B" ++ [LF] ++ py "```" ++ [LF])).
  - vm_compute. discriminate.
  - reflexivity.
  - repeat constructor; intros b [= <-]; vm_compute; eauto.
  - vm_compute. reflexivity.
  - vm_compute. reflexivity.
  - intros c Hc.
    repeat (apply elem_of_cons in Hc as [->|Hc]; [reflexivity|]).
    by apply elem_of_nil in Hc.
  - apply occurs_b_false. vm_compute. reflexivity.
Defined.

(** ** Text after the header *)

Section PFiller.
Context {A : Type}.
Implicit Types (k : text → caps → option A) (R : regex).

(** The filler of the parser before a label is as short as possible,
    so the label does not occur in it. *)
Lemma pfiller_inv L n R k s c x e0 :
  total k → absorbs R k → blank e0 → starts_nonblank L →
  rmatch (Star false CAny ⋯ pfield L n R)%re k s c = Some x →
  ∃ z s', s = z ++ s' ∧ first_at L (e0 ++ z)
          ∧ rmatch (pfield L n R) k s' c = Some x.
Proof.
  intros Hk HR He HL H.
  apply filler_inv in H as (z & s' & -> & H & Hmin).
  exists z, s'. repeat split; auto.
  intros p m1 m2 Heq.
  destruct (decide (length (e0 ++ z) ≤ length p)%nat) as [|Hn]; [done|]. exfalso.
  destruct (label_shift L e0 z p m1 m2 Heq) as (f' & r & b & -> & Hr & Hb);
    [lia|done..|].
  destruct (pfield_inv _ _ _ _ _ _ _ Hk HR H)
    as (v & e & s'' & -> & _ & _ & Hel & HRx).
  assert (is_Some (rmatch (pfield L n R) k (r ++ L ++ v ++ e ++ s'') c))
    as [x' Hx'].
  { rewrite (assoc_L (++) r L), Hb, <- (assoc_L (++)).
    replace (b ++ v ++ e ++ s'') with ((b ++ v) ++ e ++ s'')
      by (by rewrite <- !(assoc_L (++))).
    apply pfield_ok; [done|]. eapply absorbs_any; eassumption. }
  rewrite (Hmin f' (r ++ L ++ v ++ e ++ s'')) in Hx'; [done| |].
  - by rewrite <- (assoc_L (++)).
  - rewrite length_app. destruct r; [done|]. simpl. lia.
Qed.
End PFiller.

(** A match of the parser's pattern, field by field: the values are
    single lines without blank at the end, and every label stands at
    its first place after the line before it. *)
Lemma parse_match_shape s c rest :
  match_here metadata_regex false s = Some (c, rest) →
  ∃ v1 e1 z1 v2 e2 z2 v3 e3 z3 v4 e4 z4 v5 e5,
    s = laid_out v1 e1 z1 v2 e2 z2 v3 e3 z3 v4 e4 z4 v5 e5 ++ rest
    ∧ layout_ok e1 z1 e2 z2 e3 z3 e4 z4 e5
    ∧ (clean v1 ∧ clean v2 ∧ clean v3 ∧ clean v4 ∧ clean v5)
    ∧ group c 1 = v1 ∧ group c 2 = v2 ∧ group c 3 = v3
    ∧ group c 4 = v4 ∧ group c 5 = v5.
Proof.
  unfold match_here. rewrite metadata_regex_fields. intros H.
  pose proof (accept_false_total s) as Hk.
  apply pfield_inv in H as (v1 & e1 & s1 & Hs & N1 & T1 & E1 & H);
    [|done|by apply absorbs_filler].
  apply (pfiller_inv _ _ _ _ _ _ _ e1) in H as (z1 & s1' & Hs1 & F1 & H);
    [|done|by apply absorbs_filler|by apply eol_blank|apply starts_nonblank_star].
  apply pfield_inv in H as (v2 & e2 & s2 & Hs1' & N2 & T2 & E2 & H);
    [|done|by apply absorbs_filler].
  apply (pfiller_inv _ _ _ _ _ _ _ e2) in H as (z2 & s2' & Hs2 & F2 & H);
    [|done|by apply absorbs_filler|by apply eol_blank|apply starts_nonblank_star].
  apply pfield_inv in H as (v3 & e3 & s3 & Hs2' & N3 & T3 & E3 & H);
    [|done|by apply absorbs_filler].
  apply (pfiller_inv _ _ _ _ _ _ _ e3) in H as (z3 & s3' & Hs3 & F3 & H);
    [|done|by apply absorbs_filler|by apply eol_blank|apply starts_nonblank_star].
  apply pfield_inv in H as (v4 & e4 & s4 & Hs3' & N4 & T4 & E4 & H);
    [|done|by apply absorbs_filler].
  apply (pfiller_inv _ _ _ _ _ _ _ e4) in H as (z4 & s4' & Hs4 & F4 & H);
    [|done|by apply absorbs_Eps|by apply eol_blank|apply starts_nonblank_star].
  apply pfield_inv in H as (v5 & e5 & s5 & Hs4' & N5 & T5 & E5 & H);
    [|done|by apply absorbs_Eps].
  apply rmatch_Eps_accept in H. injection H as Hc <-.
  exists v1, e1, z1, v2, e2, z2, v3, e3, z3, v4, e4, z4, v5, e5.
  split; [|split; [|split]].
  - unfold laid_out.
    rewrite Hs, Hs1, Hs1', Hs2, Hs2', Hs3, Hs3', Hs4, Hs4'.
    by rewrite <- !(assoc_L (++)).
  - unfold layout_ok. tauto.
  - unfold clean. tauto.
  - rewrite Hc. repeat split; by group_simpl.
Qed.

(** X27.  Text put after a text in which the parser finds metadata
    never changes what it finds: the values are those of the first
    header, whatever follows. *)
Theorem appended_text_keeps_the_metadata md_text z :
  extract_metadata_from_markdown md_text ≠ ∅ →
  extract_metadata_from_markdown (md_text ++ z)
  = extract_metadata_from_markdown md_text.
Proof.
  intros Hne.
  destruct (search metadata_regex md_text) as [f|] eqn:Hs;
    [|by unfold extract_metadata_from_markdown in Hne; rewrite Hs in Hne].
  rewrite (extract_found _ _ Hs).
  pose proof (parse_search_first_at _ _ Hs) as FA.
  apply search_Some in Hs as (s1 & -> & Hm & _).
  apply parse_match_shape in Hm
    as (v1 & e1 & z1 & v2 & e2 & z2 & v3 & e3 & z3 & v4 & e4 & z4 & v5 & e5
        & -> & Hok & (C1 & C2 & C3 & C4 & C5) & -> & -> & -> & -> & ->).
  destruct (parse_on_layout (f_pre f) v1 e1 z1 v2 e2 z2 v3 e3 z3 v4 e4 z4 v5 e5
              (f_rest f ++ z) FA Hok C1 C2 C3 C4 C5)
    as (f' & Hf' & _ & G1 & G2 & G3 & G4 & G5).
  rewrite <- !(assoc_L (++)).
  by rewrite (extract_found _ _ Hf'), G1, G2, G3, G4, G5.
Qed.

Lemma appended_text_keeps_the_metadata_witness :
  extract_metadata_from_markdown (sample ++ sample_other)
  = extract_metadata_from_markdown sample.
Proof.
  apply (appended_text_keeps_the_metadata sample sample_other).
  vm_compute. discriminate.
Defined.

(** ** When metadata is found *)

Lemma not_nl_free_split x :
  ¬ nl_free x → ∃ a y b, x = a ++ [y] ++ b ∧ eol [y].
Proof.
  intros H. unfold nl_free in H.
  destruct (forallb (λ c, negb (cls_ok NL c)) x) eqn:E; [done|].
  apply forallb_split in E as (a & y & b & -> & Hy).
  apply negb_false_iff in Hy. exists a, y, b. split; [done|].
  exists [], [y]. split; [done|]. split; [done|]. split; [done|].
  cbn [forallb]. by rewrite Hy.
Qed.

(** X28.  The converse: metadata is found in every text where the
    five labels stand in the order Author, Date, Status, Reviewers,
    Topic, each followed by a line break somewhere before the next
    label, the last by a line break. *)
Theorem metadata_is_found_in_five_lines x0 x1 x2 x3 x4 x5 x6 :
  ¬ nl_free x1 → ¬ nl_free x2 → ¬ nl_free x3 → ¬ nl_free x4 → ¬ nl_free x5 →
  extract_metadata_from_markdown
    (x0 ++ py "**Author:** " ++ x1 ++ py "**Date:** " ++ x2
     ++ py "**Status:** " ++ x3 ++ py "**Reviewers:** " ++ x4
     ++ py "**Topic:** " ++ x5 ++ x6)
  ≠ ∅.
Proof.
  intros (a1 & y1 & b1 & -> & E1)%not_nl_free_split
         (a2 & y2 & b2 & -> & E2)%not_nl_free_split
         (a3 & y3 & b3 & -> & E3)%not_nl_free_split
         (a4 & y4 & b4 & -> & E4)%not_nl_free_split
         (a5 & y5 & b5 & -> & E5)%not_nl_free_split.
  rewrite <- !(assoc_L (++)).
  set (s1 := py "**Author:** " ++ a1 ++ [y1] ++ b1 ++ py "**Date:** " ++ a2
             ++ [y2] ++ b2 ++ py "**Status:** " ++ a3 ++ [y3] ++ b3
             ++ py "**Reviewers:** " ++ a4 ++ [y4] ++ b4 ++ py "**Topic:** "
             ++ a5 ++ [y5] ++ b5 ++ x6).
  assert (is_Some (match_here metadata_regex false s1)) as Hm.
  { pose proof (accept_false_total s1) as Hk.
    unfold match_here. rewrite metadata_regex_fields.
    apply pfield_ok; [done|].
    apply chain_ok; [done|]. apply chain_ok; [done|].
    apply chain_ok; [done|]. apply chain_ok; [done|].
    intros c'. apply Hk. }
  destruct (search_is_Some metadata_regex x0 s1 Hm) as [f Hf].
  rewrite (extract_found _ _ Hf). apply metadata_nonempty.
Qed.

Lemma metadata_is_found_in_five_lines_witness :
  extract_metadata_from_markdown
    (py "# T" ++ py "**Author:** " ++ (py "a" ++ [LF] ++ py "x")
     ++ py "**Date:** " ++ [CR; LF] ++ py "**Status:** " ++ (py "s" ++ [LF])
     ++ py "**Reviewers:** " ++ [LF] ++ py "**Topic:** " ++ (py " t " ++ [LF])
     ++ py "end")
  ≠ ∅.
Proof.
  apply (metadata_is_found_in_five_lines (py "# T") (py "a" ++ [LF] ++ py "x")
           [CR; LF] (py "s" ++ [LF]) [LF] (py " t " ++ [LF]) (py "end"));
    by vm_compute.
Defined.

(** ** The updater on a text of known shape *)

(** A clean value cannot reach past the end of its line. *)
Lemma value_not_longer v e s v' r' :
  v ++ e ++ s = v' ++ r' → clean v' → eol e → (length v' ≤ length v)%nat.
Proof.
  intros Heq [Hn Hr] (w & n & -> & Hw & Hne & Hnl).
  destruct (decide (length v' ≤ length v)%nat) as [|Hlt]; [done|]. exfalso.
  destruct (app_eq_le v ((w ++ n) ++ s) v' r' Heq) as (r & -> & Hr'); [lia|].
  assert (r ≠ []) as Hr0.
  { intros ->. rewrite length_app in Hlt. simpl in Hlt. lia. }
  apply nl_free_app in Hn as [_ Hn].
  rewrite <- (assoc_L (++)) in Hr'.
  destruct (decide (length r ≤ length w)%nat) as [Hle|Hgt].
  - symmetry in Hr'.
    destruct (app_eq_le r r' w (n ++ s) Hr' Hle) as (r2 & -> & _).
    destruct (nonempty_last r Hr0) as (r0 & y & ->).
    apply blank_app in Hw as [Hw _]. apply blank_app in Hw as [_ Hw].
    unfold blank in Hw. simpl in Hw. apply andb_true_iff in Hw as [Hy _].
    rewrite (assoc_L (++)) in Hr. by rewrite (Hr (v ++ r0) y eq_refl) in Hy.
  - destruct (app_eq_le w (n ++ s) r r' Hr') as (r2 & -> & Hn2); [lia|].
    destruct r2 as [|y r2].
    { rewrite (right_id_L [] (++)) in Hgt. lia. }
    destruct n as [|y' n]; [done|]. injection Hn2 as -> _.
    apply nl_free_app in Hn as [_ Hn]. unfold nl_free in Hn. simpl in *.
    apply andb_true_iff in Hnl as [Hy _]. apply andb_true_iff in Hn as [Hn _].
    by rewrite Hy in Hn.
Qed.

Lemma value_unique v e s v' e' s' :
  v ++ e ++ s = v' ++ e' ++ s' → clean v → clean v' → eol e → eol e' →
  v = v' ∧ e ++ s = e' ++ s'.
Proof.
  intros Heq Hv Hv' He He'.
  pose proof (value_not_longer v e s v' (e' ++ s') Heq Hv' He).
  pose proof (value_not_longer v' e' s' v (e ++ s) (eq_sym Heq) Hv He').
  apply app_eq_len; [done|lia].
Qed.

(** After a label and one blank, a solid value: the updater takes the
    blank for the label and the value for the value. *)
Lemma field_unique v1 e1 r1 w v e s' :
  [SP] ++ v1 ++ e1 ++ r1 = w ++ v ++ e ++ s' →
  blank w → clean v → ltrim v → eol e → solid v1 → eol e1 →
  w = [SP] ∧ v = v1 ∧ e ++ s' = e1 ++ r1.
Proof.
  intros Heq Hw Hv Hl He (Hv1 & Hl1 & Hne1) He1.
  destruct v1 as [|c1 v1]; [done|].
  pose proof (Hl1 c1 v1 eq_refl) as Hc1.
  assert (∀ x y (b : text), blank (x ++ [y] ++ b) → is_space y = true) as Hmid.
  { intros x y b [_ [H _]%blank_app]%blank_app.
    unfold blank in H. simpl in H. by apply andb_true_iff in H as [? _]. }
  assert (w = [SP]) as ->.
  { destruct w as [|y [|y' w]].
    - exfalso. destruct v as [|y v].
      + destruct He as (we & ne & Hee & Hwe & Hne & Hnl).
        simpl in Heq. rewrite Hee in Heq.
        destruct we as [|y [|y' we]].
        * destruct ne as [|y ne]; [done|]. injection Heq as <- _.
          simpl in Hnl. done.
        * destruct ne as [|y' ne]; [done|]. injection Heq as _ <- _.
          simpl in Hnl. apply andb_true_iff in Hnl as [Hy _].
          apply NL_is_space in Hy. by rewrite Hc1 in Hy.
        * injection Heq as _ <- _. unfold blank in Hwe. simpl in Hwe.
          apply andb_true_iff in Hwe as [_ Hwe].
          apply andb_true_iff in Hwe as [Hy _]. by rewrite Hc1 in Hy.
      + injection Heq as <- _. by pose proof (Hl SP v eq_refl).
    - by injection Heq as <- _.
    - exfalso. injection Heq as _ <- _. unfold blank in Hw. simpl in Hw.
      apply andb_true_iff in Hw as [_ Hw].
      apply andb_true_iff in Hw as [Hy _]. by rewrite Hc1 in Hy. }
  injection Heq as Heq. symmetry in Heq.
  destruct (value_unique v e s' (c1 :: v1) e1 r1 Heq Hv Hv1 He He1) as [-> ->].
  done.
Qed.

Section UShape.
Context {A : Type}.
Implicit Types (k : text → caps → option A) (R : regex).

(** The first field of the updater on a text of known shape. *)
Lemma ufield_on_value L n R k v1 e1 rest c x :
  total k → absorbs R k → solid v1 → eol e1 →
  rmatch (ufield L n R) k (L ++ [SP] ++ v1 ++ e1 ++ rest) c = Some x →
  ∃ e s', e ++ s' = e1 ++ rest ∧ eol e
          ∧ rmatch R k s'
              (<[S (S n) := e]> (<[S n := v1]> (<[n := L ++ [SP]]> c)))
            = Some x.
Proof.
  intros Hk HR Hv1 He1 H.
  apply ufield_inv in H as (w & v & e & s' & Heq & Hw & Hn & Hr & Hl & He & H);
    [|done..].
  apply app_inv_head in Heq.
  destruct (field_unique v1 e1 rest w v e s' Heq Hw (conj Hn Hr) Hl He Hv1 He1)
    as (-> & -> & Hrest).
  by exists e, s'.
Qed.

(** A filler and the field after it. *)
Lemma uchain_step m L n R k e s x0 v1 e1 rest c x :
  total k → absorbs R k → eol e → starts_nonblank L → first_at L x0 →
  solid v1 → eol e1 →
  e ++ s = x0 ++ L ++ [SP] ++ v1 ++ e1 ++ rest →
  rmatch (Grp m (Star false CAny) ⋯ ufield L n R)%re k s c = Some x →
  ∃ f e' s', e' ++ s' = e1 ++ rest ∧ eol e'
             ∧ rmatch R k s'
                 (<[S (S n) := e']> (<[S n := v1]> (<[n := L ++ [SP]]>
                    (<[m := f]> c))))
               = Some x.
Proof.
  intros Hk HR He HL Hfirst Hv1 He1 Heq H.
  apply (ufiller_inv _ _ _ _ _ _ _ _ e) in H as (f & s1 & -> & Hf & H);
    [|done|done|by apply eol_blank|done].
  pose proof H as H'.
  apply ufield_inv in H' as (w & v & e' & s' & -> & _); [|done..].
  rewrite (assoc_L (++) e f) in Heq.
  pose proof (Hf x0 ([SP] ++ v1 ++ e1 ++ rest) (w ++ v ++ e' ++ s')
                (eq_sym Heq)) as L1.
  pose proof (Hfirst (e ++ f) (w ++ v ++ e' ++ s') ([SP] ++ v1 ++ e1 ++ rest)
                Heq) as L2.
  destruct (app_eq_len _ _ _ _ Heq ltac:(lia)) as [_ Heq'].
  rewrite Heq' in H.
  apply ufield_on_value in H as (e2 & s2 & Hrest & He2 & H); [|done..].
  by exists f, e2, s2.
Qed.

Lemma uchain_ok m L n R k f v e rest :
  eol e → (∀ c', is_Some (rmatch R k rest c')) →
  ∀ c', is_Some (rmatch (Grp m (Star false CAny) ⋯ ufield L n R)%re k
                   (f ++ L ++ [SP] ++ v ++ e ++ rest) c').
Proof.
  intros He HR c'. apply rmatch_seq_complete; [apply forallb_any|].
  intros c1. by apply ufield_ok.
Qed.
End UShape.

(** X29.  On a text laid out as the parser wants it, with five values
    that are single lines, not empty and without blank at either end,
    the updater finds the header at the same place, with one blank
    after each label and the same five values: such a text meets the
    conditions of the round trips. *)
Theorem updater_reads_a_laid_out_header pre v1 e1 z1 v2 e2 z2 v3 e3 z3 v4 e4
    z4 v5 e5 post :
  first_at (py "**Author:**") pre → ulayout_ok e1 z1 e2 z2 e3 z3 e4 z4 e5 →
  solid v1 → solid v2 → solid v3 → solid v4 → solid v5 →
  ∃ f, search update_regex
         (pre ++ laid_out v1 e1 z1 v2 e2 z2 v3 e3 z3 v4 e4 z4 v5 e5 ++ post)
       = Some f
       ∧ f_pre f = pre ∧ tight_labels (f_caps f)
       ∧ group (f_caps f) 2 = v1 ∧ group (f_caps f) 6 = v2
       ∧ group (f_caps f) 10 = v3 ∧ group (f_caps f) 14 = v4
       ∧ group (f_caps f) 18 = v5.
Proof.
  intros FA (E1 & FD & E2 & FS & E3 & FR & E4 & FT & E5) S1 S2 S3 S4 S5.
  unfold laid_out. rewrite <- !(assoc_L (++)).
  change (py "**Author:** " ++ ?x) with (py "**Author:**" ++ [SP] ++ x).
  change (py "**Date:** " ++ ?x) with (py "**Date:**" ++ [SP] ++ x).
  change (py "**Status:** " ++ ?x) with (py "**Status:**" ++ [SP] ++ x).
  change (py "**Reviewers:** " ++ ?x) with (py "**Reviewers:**" ++ [SP] ++ x).
  change (py "**Topic:** " ++ ?x) with (py "**Topic:**" ++ [SP] ++ x).
  set (r5 := post).
  set (r4 := z4 ++ py "**Topic:**" ++ [SP] ++ v5 ++ e5 ++ r5).
  set (r3 := z3 ++ py "**Reviewers:**" ++ [SP] ++ v4 ++ e4 ++ r4).
  set (r2 := z2 ++ py "**Status:**" ++ [SP] ++ v3 ++ e3 ++ r3).
  set (r1 := z1 ++ py "**Date:**" ++ [SP] ++ v2 ++ e2 ++ r2).
  set (s1 := py "**Author:**" ++ [SP] ++ v1 ++ e1 ++ r1).
  assert (∀ k : text → caps → option (caps * text), total k →
            ∀ c', is_Some (rmatch Eps k r5 c')) as O5
    by (intros k Hk c'; apply Hk).
  assert (∀ k : text → caps → option (caps * text), total k →
            ∀ c', is_Some (rmatch (Grp 16 (Star false CAny) ⋯
                                   ufield (py "**Topic:**") 17 Eps)%re k r4 c'))
    as O4 by (intros k Hk; apply uchain_ok; [done|by apply O5]).
  assert (∀ k : text → caps → option (caps * text), total k →
            ∀ c', is_Some (rmatch (Grp 12 (Star false CAny) ⋯
                                   ufield (py "**Reviewers:**") 13
                                     (Grp 16 (Star false CAny) ⋯
                                      ufield (py "**Topic:**") 17 Eps))%re
                             k r3 c'))
    as O3 by (intros k Hk; apply uchain_ok; [done|by apply O4]).
  assert (∀ k : text → caps → option (caps * text), total k →
            ∀ c', is_Some (rmatch (Grp 8 (Star false CAny) ⋯
                                   ufield (py "**Status:**") 9
                                     (Grp 12 (Star false CAny) ⋯
                                      ufield (py "**Reviewers:**") 13
                                        (Grp 16 (Star false CAny) ⋯
                                         ufield (py "**Topic:**") 17 Eps)))%re
                             k r2 c'))
    as O2 by (intros k Hk; apply uchain_ok; [done|by apply O3]).
  assert (∀ k : text → caps → option (caps * text), total k →
            ∀ c', is_Some (rmatch (Grp 4 (Star false CAny) ⋯
                                   ufield (py "**Date:**") 5
                                     (Grp 8 (Star false CAny) ⋯
                                      ufield (py "**Status:**") 9
                                        (Grp 12 (Star false CAny) ⋯
                                         ufield (py "**Reviewers:**") 13
                                           (Grp 16 (Star false CAny) ⋯
                                            ufield (py "**Topic:**") 17 Eps))))%re
                             k r1 c'))
    as O1 by (intros k Hk; apply uchain_ok; [done|by apply O2]).
  pose proof (accept_false_total s1) as Hk.
  assert (is_Some (match_here update_regex false s1)) as [[c' rest'] Hm].
  { unfold match_here. rewrite update_regex_fields.
    apply ufield_ok; [done|done|]. by apply O1. }
  exists (Found pre c' rest'). split.
  { apply search_intro; [|done]. intros a b Hab Hb.
    destruct (match_here update_regex false (b ++ s1)) as [x0|] eqn:E; [|done].
    exfalso. unfold match_here in E. rewrite update_regex_fields in E.
    unfold ufield in E.
    apply rmatch_seq_grp_lit_greedy in E as (w & s0 & Heq & _).
    pose proof (FA a (w ++ s0) ([SP] ++ v1 ++ e1 ++ r1)) as Hf.
    rewrite <- Heq, (assoc_L (++) a b), <- Hab in Hf. specialize (Hf eq_refl).
    rewrite Hab, length_app in Hf. destruct b; [done|]. simpl in Hf. lia. }
  split; [done|]. cbn [f_caps].
  unfold match_here in Hm. rewrite update_regex_fields in Hm.
  apply ufield_on_value in Hm as (g3 & t1 & Q1 & G3 & Hm);
    [|done|by apply absorbs_filler_grp|done|done].
  unfold r1 in Q1. rewrite (assoc_L (++) e1 z1) in Q1.
  apply (uchain_step _ _ _ _ _ g3 t1 (e1 ++ z1) v2 e2 r2) in Hm
    as (g4 & g7 & t2 & Q2 & G7 & Hm);
    [|done|by apply absorbs_filler_grp|done|apply starts_nonblank_star
     |done|done|done|done].
  unfold r2 in Q2. rewrite (assoc_L (++) e2 z2) in Q2.
  apply (uchain_step _ _ _ _ _ g7 t2 (e2 ++ z2) v3 e3 r3) in Hm
    as (g8 & g11 & t3 & Q3 & G11 & Hm);
    [|done|by apply absorbs_filler_grp|done|apply starts_nonblank_star
     |done|done|done|done].
  unfold r3 in Q3. rewrite (assoc_L (++) e3 z3) in Q3.
  apply (uchain_step _ _ _ _ _ g11 t3 (e3 ++ z3) v4 e4 r4) in Hm
    as (g12 & g15 & t4 & Q4 & G15 & Hm);
    [|done|by apply absorbs_filler_grp|done|apply starts_nonblank_star
     |done|done|done|done].
  unfold r4 in Q4. rewrite (assoc_L (++) e4 z4) in Q4.
  apply (uchain_step _ _ _ _ _ g15 t4 (e4 ++ z4) v5 e5 r5) in Hm
    as (g16 & g19 & t5 & Q5 & G19 & Hm);
    [|done|by apply absorbs_Eps|done|apply starts_nonblank_star
     |done|done|done|done].
  apply rmatch_Eps_accept in Hm. injection Hm as Hc _.
  assert (group c' 1 = py "**Author:** ") as T1 by (rewrite Hc; by group_simpl).
  assert (group c' 5 = py "**Date:** ") as T2 by (rewrite Hc; by group_simpl).
  assert (group c' 9 = py "**Status:** ") as T3 by (rewrite Hc; by group_simpl).
  assert (group c' 13 = py "**Reviewers:** ") as T4
    by (rewrite Hc; by group_simpl).
  assert (group c' 17 = py "**Topic:** ") as T5 by (rewrite Hc; by group_simpl).
  assert (group c' 2 = v1) as V1 by (rewrite Hc; by group_simpl).
  assert (group c' 6 = v2) as V2 by (rewrite Hc; by group_simpl).
  assert (group c' 10 = v3) as V3 by (rewrite Hc; by group_simpl).
  assert (group c' 14 = v4) as V4 by (rewrite Hc; by group_simpl).
  assert (group c' 18 = v5) as V5 by (rewrite Hc; by group_simpl).
  unfold tight_labels. tauto.
Qed.

Lemma updater_reads_a_laid_out_header_witness :
  ∃ f, search update_regex
         ((py "# T" ++ [LF])
          ++ laid_out (py "Ann") [LF] [] (py "2024-01-01") [LF] []
               (py "Draft") [LF] [] (py "Bob, Eve") [LF] [] (py "Cache") [LF]
          ++ py "body")
       = Some f
       ∧ f_pre f = py "# T" ++ [LF] ∧ tight_labels (f_caps f)
       ∧ group (f_caps f) 2 = py "Ann" ∧ group (f_caps f) 6 = py "2024-01-01"
       ∧ group (f_caps f) 10 = py "Draft" ∧ group (f_caps f) 14 = py "Bob, Eve"
       ∧ group (f_caps f) 18 = py "Cache".
Proof.
  assert (∀ L, first_at (py "*" ++ L) ([LF] ++ [])) as Hf.
  { intros L. apply first_at_no_head. intros H.
    apply elem_of_cons in H as [H|H]; [done|]. by apply elem_of_nil in H. }
  assert (eol [LF]) as He by (by exists [], [LF]).
  assert (∀ v, plain_value_b v = true → v ≠ [] → solid v) as Hs.
  { intros v Hv Hn. apply plain_value_b_ok in Hv.
    split; [by apply plain_value_clean|]. split; [|done]. apply Hv. }
  apply (updater_reads_a_laid_out_header (py "# T" ++ [LF])).
  - apply first_at_no_head. intros H.
    repeat (apply elem_of_cons in H as [H|H]; [done|]).
    by apply elem_of_nil in H.
  - unfold ulayout_ok.
    refine (conj He (conj (Hf _) (conj He (conj (Hf _) (conj He (conj (Hf _)
             (conj He (conj (Hf _) He)))))))).
  - apply Hs; [vm_compute; reflexivity|done].
  - apply Hs; [vm_compute; reflexivity|done].
  - apply Hs; [vm_compute; reflexivity|done].
  - apply Hs; [vm_compute; reflexivity|done].
  - apply Hs; [vm_compute; reflexivity|done].
Defined.

(** X30.  The parser on a laid-out text: when no label stands before
    its place and the five values are single lines without blank at
    the end, the result holds exactly the five values, with the blanks
    at their start removed, whatever stands before and after the
    header. *)
Theorem laid_out_header_is_parsed pre v1 e1 z1 v2 e2 z2 v3 e3 z3 v4 e4 z4 v5
    e5 post :
  first_at (py "**Author:** ") pre → layout_ok e1 z1 e2 z2 e3 z3 e4 z4 e5 →
  clean v1 → clean v2 → clean v3 → clean v4 → clean v5 →
  extract_metadata_from_markdown
    (pre ++ laid_out v1 e1 z1 v2 e2 z2 v3 e3 z3 v4 e4 z4 v5 e5 ++ post)
  = metadata (strip v1) (strip v2) (strip v3) (strip v4) (strip v5).
Proof.
  intros FA HL C1 C2 C3 C4 C5.
  destruct (parse_on_layout pre v1 e1 z1 v2 e2 z2 v3 e3 z3 v4 e4 z4 v5 e5 post
              FA HL C1 C2 C3 C4 C5)
    as (f & Hs & _ & <- & <- & <- & <- & <-).
  by apply extract_found.
Qed.

Lemma laid_out_header_is_parsed_witness :
  extract_metadata_from_markdown
    ((py "# T" ++ [LF])
     ++ laid_out (py "  Ann") [LF] (py "(draft)" ++ [LF]) (py "2024-01-01")
          [SP; CR; LF] [] (py "Draft") [LF; LF] [] (py "Bob, Eve") [LF] []
          (py "Cache") [LF]
     ++ py "body")
  = metadata (py "Ann") (py "2024-01-01") (py "Draft") (py "Bob, Eve")
      (py "Cache").
Proof.
  assert (∀ L x, 42 ∉ x → first_at (py "*" ++ L) x) as Hf
    by (intros L x Hx; by apply first_at_no_head).
  assert (∀ x : text, forallb (λ c, negb (c =? 42)) x = true → 42 ∉ x) as Hn.
  { intros x Hx Hin. rewrite forallb_forall in Hx.
    apply list_elem_of_In, Hx in Hin. done. }
  assert (∀ w n, forallb is_space w = true → n ≠ []
                 → forallb (cls_ok NL) n = true → eol (w ++ n)) as He
    by (intros w n ???; by exists w, n).
  assert (∀ v, forallb (λ c, negb (cls_ok NL c)) v = true
               → match last v with Some c => is_space c = false | None => True end
               → clean v) as Hc.
  { intros v Hv Hl. split; [done|]. intros a c ->.
    by rewrite last_snoc in Hl. }
  apply (laid_out_header_is_parsed (py "# T" ++ [LF]) (py "  Ann") [LF]
           (py "(draft)" ++ [LF]) (py "2024-01-01") [SP; CR; LF] []
           (py "Draft") [LF; LF] [] (py "Bob, Eve") [LF] [] (py "Cache") [LF]
           (py "body")).
  - apply Hf, Hn. vm_compute. reflexivity.
  - unfold layout_ok.
    refine (conj (He [] [LF] _ _ _) (conj (Hf _ _ (Hn _ _))
           (conj (He [SP] [CR; LF] _ _ _) (conj (Hf _ _ (Hn _ _))
           (conj (He [] [LF; LF] _ _ _) (conj (Hf _ _ (Hn _ _))
           (conj (He [] [LF] _ _ _) (conj (Hf _ _ (Hn _ _))
                 (He [] [LF] _ _ _))))))))); by vm_compute.
  - apply Hc; by vm_compute.
  - apply Hc; by vm_compute.
  - apply Hc; by vm_compute.
  - apply Hc; by vm_compute.
  - apply Hc; by vm_compute.
Defined.
